(** * alpha-lock-profit-engine: feature engine, bandit orchestrator and
      profit-locking engine

    A shallow embedding of the classes [FeatureEngine], [AIOrchestrator] and
    [ProfitLockingEngine] of [src/services].

    Conventions of the embedding.
    - A TypeScript [number] is an exact rational ([Q]).  Rounding, infinities
      and NaN of IEEE doubles are outside the model.  A division by zero is
      [0] as in [Qdiv]; the sources guard most of their divisions, and where
      they do not (the mean of [calculateMeanReversion], for instance) the
      quotient of the source is NaN or an infinity: a theorem that speaks of
      such a value states that the divisor is not zero.
    - [Date.now()] is a parameter [now : Z] (milliseconds) of every
      operation that reads the clock.
    - [Math.random()] is a sequence of draws [nat -> Q] read at a cursor.
    - A [Record<string, T>] is a [gmap string T]; a [Map] that is iterated
      is an association list in insertion order.
    - Fire-and-forget persistence calls and exit callbacks are returned as a
      list of effects; the callbacks are observers and do not call back into
      the engine.
    - Every operation runs to its end before the next one starts; the
      suspension of [generateSignal] on the persistence write is the call of
      a function that returns the outcome of the write.
    - Symbols are not names of properties of [Object.prototype]; strategy
      ids may be, and [selectProfitLockMethod] models what the lookup in the
      object literal finds under them. *)

From stdpp Require Import base option list strings gmap pretty.
From Stdlib Require Import ZArith QArith Qminmax Qabs Qround Qreduction Lia Lqa.

#[local] Set Warnings "-clear-no-such-hyp".

(** ** JavaScript numbers and the parts of [Math] the services use *)

Module JS.

Definition ltb (x y : Q) : bool := negb (Qle_bool y x).
Definition leb (x y : Q) : bool := Qle_bool x y.
Definition gtb (x y : Q) : bool := ltb y x.
Definition geb (x y : Q) : bool := leb y x.

(** [if (x)] on a number: every number but [0] is truthy. *)
Definition truthy (x : Q) : bool := negb (Qeq_bool x 0).

(** The names of the properties of [Object.prototype].  A lookup [o[k]] in
    an object literal [o] that has no own property [k] finds the inherited
    member under these names (a function, or the prototype itself under
    [__proto__]), which is truthy, and [undefined] under every other. *)
Definition objectPrototypeKeys : list string :=
  [ "constructor"; "__defineGetter__"; "__defineSetter__"; "hasOwnProperty";
    "__lookupGetter__"; "__lookupSetter__"; "isPrototypeOf";
    "propertyIsEnumerable"; "toString"; "valueOf"; "__proto__";
    "toLocaleString" ].

Definition ofZ (z : Z) : Q := inject_Z z.
Definition ofNat (n : nat) : Q := inject_Z (Z.of_nat n).

Definition Math_abs (x : Q) : Q := Qabs x.
Definition Math_min (x y : Q) : Q := Qmin x y.
Definition Math_max (x y : Q) : Q := Qmax x y.
Definition Math_floor (x : Q) : Z := Qfloor x.

(** [Math.sqrt]: exact on squares of rationals, otherwise rounded down
    with an absolute error below [1e-12]; [0] on negative arguments. *)
Definition sqrt_scale : Z := (10 ^ 12)%Z.
Definition Math_sqrt (x : Q) : Q :=
  if Qle_bool x 0 then 0%Q
  else
    let n := Qnum (Qred x) in
    let d := Z.pos (Qden (Qred x)) in
    Qred (Qmake (Z.sqrt (n * d * sqrt_scale * sqrt_scale))
                (Z.to_pos (d * sqrt_scale))).

(** [xs.reduce((sum, x) => sum + x, 0)] *)
Definition sum (xs : list Q) : Q := fold_left Qplus xs 0%Q.

(** [xs.slice(a, b)] and [xs.slice(-n)] for in-range arguments. *)
Definition slice {A} (a b : nat) (xs : list A) : list A :=
  take (b - a) (drop a xs).
Definition lastN {A} (n : nat) (xs : list A) : list A :=
  drop (length xs - n) xs.

(** [xs.join(sep)] *)
Fixpoint join (sep : string) (xs : list string) : string :=
  match xs with
  | [] => ""
  | [x] => x
  | x :: rest => x +:+ sep +:+ join sep rest
  end.

(** [x.toFixed(d)]: sign, then the nearest integer to [|x| * 10^d], ties
    upwards, printed with [d] decimals. *)
Fixpoint pad0 (fuel width : nat) (s : string) : string :=
  match fuel with
  | O => s
  | S fuel' =>
      if (String.length s <? width)%nat then pad0 fuel' width ("0" +:+ s) else s
  end.
Definition toFixed (x : Q) (d : nat) : string :=
  let scale := (10 ^ Z.of_nat d)%Z in
  let n := Qfloor (Qabs x * inject_Z scale + (1 # 2)) in
  let int_part := (n / scale)%Z in
  let frac_part := (n mod scale)%Z in
  (if ltb x 0 then "-" else "") +:+ pretty int_part +:+
  (match d with
   | O => ""
   | _ => "." +:+ pad0 d d (pretty frac_part)
   end).

(** The transcendental functions are not computed in [Q]; the services
    are parametric in them. *)
Class MathLib := {
  Math_exp : Q -> Q;
  Math_log : Q -> Q;
  Math_cos : Q -> Q;
  Math_pow : Q -> Q -> Q;
  Math_PI : Q
}.

(** Insertion-ordered [Map<string, V>]. *)
Section InsertionMap.
Context {V : Type}.

Fixpoint Map_get (m : list (string * V)) (k : string) : option V :=
  match m with
  | [] => None
  | (k', v) :: m' => if decide (k' = k) then Some v else Map_get m' k
  end.

Fixpoint Map_set (m : list (string * V)) (k : string) (v : V)
  : list (string * V) :=
  match m with
  | [] => [(k, v)]
  | (k', v') :: m' =>
      if decide (k' = k) then (k, v) :: m'
      else (k', v') :: Map_set m' k v
  end.

Fixpoint Map_delete (m : list (string * V)) (k : string)
  : list (string * V) :=
  match m with
  | [] => []
  | (k', v') :: m' =>
      if decide (k' = k) then Map_delete m' k
      else (k', v') :: Map_delete m' k
  end.

End InsertionMap.

End JS.

Import JS.

Declare Scope js_scope.
Infix "<?" := JS.ltb : js_scope.
Infix "<=?" := JS.leb : js_scope.
Infix ">?" := JS.gtb : js_scope.
Infix ">=?" := JS.geb : js_scope.
Delimit Scope js_scope with js.


(** How a call ends: normally, or with a [TypeError] raised on reading a
    property of [undefined].  A state returned next to [Raised] is the state
    at the moment of the throw. *)
Inductive completion := Normal | Raised.

(** [xs.forEach(f)] for a callback that may throw: the first throw ends the
    iteration. *)
Fixpoint forEach {S A : Type} (f : S -> A -> S * completion)
    (s : S) (xs : list A) : S * completion :=
  match xs with
  | [] => (s, Normal)
  | x :: rest =>
      match f s x with
      | (s', Normal) => forEach f s' rest
      | (s', Raised) => (s', Raised)
      end
  end.

(** ** Market data ([WebSocketDataService.ts], type declarations) *)

Module TickerData.
Record t := {
  symbol : string;
  price : Q;
  change24h : Q;
  volume : Q;
  timestamp : Z
}.
End TickerData.

Module OrderBookData.
Record t := {
  symbol : string;
  bids : list (Q * Q);
  asks : list (Q * Q);
  timestamp : Z
}.
End OrderBookData.

Module MarketData.
Record t := {
  tickers : list (string * TickerData.t);
  orderBooks : list (string * OrderBookData.t);
  lastUpdate : Z
}.
End MarketData.

Module FeatureSet.
Record t := {
  vvix : Q;
  ofi : Q;
  vpin : Q;
  correlation : Q;
  liquidity : Q;
  volatility : Q;
  momentum : Q;
  meanReversion : Q;
  trend : Q;
  timestamp : Z
}.
End FeatureSet.

Inductive RegimeType := trending | ranging | volatile | stable.

Module MarketRegime.
Record t := {
  type : RegimeType;
  confidence : Q;
  features : FeatureSet.t
}.
End MarketRegime.

(** ** [FeatureEngine.ts] *)

Module FeatureEngine.
Local Open Scope Q_scope.
Local Open Scope js_scope.

Record t := {
  priceHistory : gmap string (list Q);
  volumeHistory : gmap string (list Q);
  orderBookHistory : gmap string (list OrderBookData.t)
}.

Definition maxHistoryLength : nat := 200.
#[global] Arguments maxHistoryLength : simpl never.

(** [new FeatureEngine()] *)
Definition new : t :=
  {| priceHistory := ∅; volumeHistory := ∅; orderBookHistory := ∅ |}.

(** Body of the first [forEach] of [updateData]. *)
Definition recordTicker (fe : t) (entry : string * TickerData.t)
  : t * completion :=
  let '(symbol, ticker) := entry in
  let fe1 :=
    match priceHistory fe !! symbol with
    | None =>
        {| priceHistory := <[symbol := []]> (priceHistory fe);
           volumeHistory := <[symbol := []]> (volumeHistory fe);
           orderBookHistory := <[symbol := []]> (orderBookHistory fe) |}
    | Some _ => fe
    end in
  let prices :=
    default [] (priceHistory fe1 !! symbol) ++ [TickerData.price ticker] in
  let fe2 :=
    {| priceHistory := <[symbol := prices]> (priceHistory fe1);
       volumeHistory := volumeHistory fe1;
       orderBookHistory := orderBookHistory fe1 |} in
  match volumeHistory fe2 !! symbol with
  | None => (fe2, Raised)
  | Some volumes0 =>
      let volumes := volumes0 ++ [TickerData.volume ticker] in
      if (maxHistoryLength <? length prices)%nat then
        ({| priceHistory := <[symbol := tail prices]> (priceHistory fe2);
            volumeHistory := <[symbol := tail volumes]> (volumeHistory fe2);
            orderBookHistory := orderBookHistory fe2 |}, Normal)
      else
        ({| priceHistory := priceHistory fe2;
            volumeHistory := <[symbol := volumes]> (volumeHistory fe2);
            orderBookHistory := orderBookHistory fe2 |}, Normal)
  end.

(** Body of the second [forEach] of [updateData]: no lazy creation here,
    [this.orderBookHistory[symbol].push] is called on whatever is stored. *)
Definition recordOrderBook (fe : t) (entry : string * OrderBookData.t)
  : t * completion :=
  let '(symbol, orderBook) := entry in
  match orderBookHistory fe !! symbol with
  | None => (fe, Raised)
  | Some books0 =>
      let books := books0 ++ [orderBook] in
      ({| priceHistory := priceHistory fe;
          volumeHistory := volumeHistory fe;
          orderBookHistory :=
            <[symbol := if (maxHistoryLength <? length books)%nat
                        then tail books else books]> (orderBookHistory fe) |},
       Normal)
  end.

Definition updateData (fe : t) (marketData : MarketData.t) : t * completion :=
  match forEach recordTicker fe (MarketData.tickers marketData) with
  | (fe', Normal) =>
      forEach recordOrderBook fe' (MarketData.orderBooks marketData)
  | (fe', Raised) => (fe', Raised)
  end.

Fixpoint calculateReturns (prices : list Q) : list Q :=
  match prices with
  | prev :: ((cur :: _) as rest) =>
      if prev >? 0 then ((cur - prev) / prev) :: calculateReturns rest
      else calculateReturns rest
  | _ => []
  end.

Definition standardDeviation (values : list Q) : Q :=
  match values with
  | [] => 0
  | _ =>
      let n := ofNat (length values) in
      let mean := sum values / n in
      let variance :=
        fold_left (fun acc val => acc + (val - mean) * (val - mean)) values 0
        / n in
      Math_sqrt variance
  end.

Definition pearsonCorrelation (x y : list Q) : Q :=
  if negb (length x =? length y)%nat || (length x =? 0)%nat then 0
  else
    let n := ofNat (length x) in
    let sumX := sum x in
    let sumY := sum y in
    let sumXY := sum (zip_with Qmult x y) in
    let sumXX := sum ((fun v => v * v) <$> x) in
    let sumYY := sum ((fun v => v * v) <$> y) in
    let numerator := n * sumXY - sumX * sumY in
    let denominator :=
      Math_sqrt ((n * sumXX - sumX * sumX) * (n * sumYY - sumY * sumY)) in
    if truthy denominator then numerator / denominator else 0.

Definition calculateVVIX (fe : t) (symbol : string) : Q :=
  match priceHistory fe !! symbol with
  | None => 0
  | Some prices =>
      if (length prices <? 20)%nat then 0
      else
        let returns := calculateReturns prices in
        let volatilities :=
          (fun i => standardDeviation (slice (i - 10) i returns))
            <$> seq 10 (length returns - 10) in
        if (0 <? length volatilities)%nat
        then standardDeviation volatilities else 0
  end.

Definition bookVolume (levels : list (Q * Q)) : Q := sum (levels.*2).

(** [None] is the [TypeError] of [orderBooks.length] on [undefined]. *)
Definition calculateOFI (fe : t) (symbol : string) : option Q :=
  match orderBookHistory fe !! symbol with
  | None => None
  | Some orderBooks =>
      match rev orderBooks with
      | latest :: previous :: _ =>
          let bidVolume := bookVolume (OrderBookData.bids latest) in
          let askVolume := bookVolume (OrderBookData.asks latest) in
          let prevBidVolume := bookVolume (OrderBookData.bids previous) in
          let prevAskVolume := bookVolume (OrderBookData.asks previous) in
          let bidFlow := bidVolume - prevBidVolume in
          let askFlow := askVolume - prevAskVolume in
          Some ((bidFlow - askFlow) / (bidFlow + askFlow + (1 # 100000000)))
      | _ => Some 0
      end
  end.

(** The loop of [calculateVPIN], started at [i = 1] with [prev = prices[0]]
    and the tails of both arrays. *)
Fixpoint vpinLoop (prev : Q) (prices volumes : list Q) (buyVolume sellVolume : Q)
  : Q * Q :=
  match prices, volumes with
  | p :: prices', v :: volumes' =>
      if p - prev >? 0
      then vpinLoop p prices' volumes' (buyVolume + v) sellVolume
      else vpinLoop p prices' volumes' buyVolume (sellVolume + v)
  | _, _ => (buyVolume, sellVolume)
  end.

(** [None] is the [TypeError] of [volumes.length] or [prices.length] on
    [undefined]. *)
Definition calculateVPIN (fe : t) (symbol : string) : option Q :=
  match volumeHistory fe !! symbol, priceHistory fe !! symbol with
  | Some volumes, Some prices =>
      if (length volumes <? 20)%nat || (length prices <? 20)%nat then Some 0
      else
        let '(buyVolume, sellVolume) :=
          match prices, volumes with
          | p0 :: prices', _ :: volumes' => vpinLoop p0 prices' volumes' 0 0
          | _, _ => (0, 0)
          end in
        let totalVolume := buyVolume + sellVolume in
        Some (if totalVolume >? 0
              then Math_abs (buyVolume - sellVolume) / totalVolume else 0)
  | _, _ => None
  end.

Definition calculateCorrelation (fe : t) (symbol : string) : Q :=
  let btcSymbol := "BTCUSDT" in
  if decide (symbol = btcSymbol) then 0
  else
    match priceHistory fe !! symbol, priceHistory fe !! btcSymbol with
    | Some prices, Some btcPrices =>
        if (length prices <? 20)%nat || (length btcPrices <? 20)%nat then 0
        else
          let len := Nat.min (Nat.min (length prices) (length btcPrices)) 20 in
          let priceReturns := calculateReturns (lastN len prices) in
          let btcReturns := calculateReturns (lastN len btcPrices) in
          pearsonCorrelation priceReturns btcReturns
    | _, _ => 0
    end.

Definition calculateLiquidity (fe : t) (symbol : string) : Q :=
  match orderBookHistory fe !! symbol with
  | None => 0
  | Some orderBooks =>
      match last orderBooks with
      | None => 0
      | Some latest =>
          let bestBid := default 0 (fst <$> head (OrderBookData.bids latest)) in
          let bestAsk := default 0 (fst <$> head (OrderBookData.asks latest)) in
          let spread := bestAsk - bestBid in
          let midPrice := (bestBid + bestAsk) / 2 in
          let bidDepth := bookVolume (take 10 (OrderBookData.bids latest)) in
          let askDepth := bookVolume (take 10 (OrderBookData.asks latest)) in
          let totalDepth := bidDepth + askDepth in
          let spreadScore :=
            if midPrice >? 0 then 1 / (1 + spread / midPrice) else 0 in
          let depthScore := Math_min (totalDepth / 1000) 1 in
          (spreadScore + depthScore) / 2
      end
  end.

Definition calculateVolatility (fe : t) (symbol : string) : Q :=
  match priceHistory fe !! symbol with
  | None => 0
  | Some prices =>
      if (length prices <? 2)%nat then 0
      else standardDeviation (calculateReturns prices)
  end.

Definition calculateMomentum (fe : t) (symbol : string) : Q :=
  match priceHistory fe !! symbol with
  | None => 0
  | Some prices =>
      if (length prices <? 4)%nat then 0
      else
        let recent := lastN 2 prices in
        let older := take 2 (lastN 4 prices) in
        let recentAvg := sum recent / ofNat (length recent) in
        let olderAvg := sum older / ofNat (length older) in
        if olderAvg >? 0 then (recentAvg - olderAvg) / olderAvg else 0
  end.

(** [calculateMeanReversion].  The source does not guard the division by
    the mean: on a mean of [0] it gives [NaN], where this definition has a
    deviation of [0] (see the conventions); what is proved of the value is
    stated for a mean that is not zero, or does not depend on it. *)
Definition calculateMeanReversion (fe : t) (symbol : string) : Q :=
  match priceHistory fe !! symbol with
  | None => 0
  | Some prices =>
      if (length prices <? 3)%nat then 0
      else
        let mean := sum prices / ofNat (length prices) in
        let currentPrice := default 0 (last prices) in
        let deviation := Math_abs (currentPrice - mean) / mean in
        Math_min (deviation * 2) 1
  end.

(** The loop of [calculateTrend]: [(sumX, sumY, sumXY, sumXX)] from index
    [i] on. *)
Fixpoint trendSums (i : nat) (recentPrices : list Q) (acc : Q * Q * Q * Q)
  : Q * Q * Q * Q :=
  match recentPrices with
  | [] => acc
  | p :: rest =>
      let '(sumX, sumY, sumXY, sumXX) := acc in
      trendSums (S i) rest
        (sumX + ofNat i, sumY + p, sumXY + ofNat i * p, sumXX + ofNat i * ofNat i)
  end.

Definition calculateTrend (fe : t) (symbol : string) : Q :=
  match priceHistory fe !! symbol with
  | None => 0
  | Some prices =>
      if (length prices <? 10)%nat then 0
      else
        let n := Nat.min (length prices) 20 in
        let recentPrices := lastN n prices in
        let '(sumX, sumY, sumXY, sumXX) := trendSums 0 recentPrices (0, 0, 0, 0) in
        let slope :=
          (ofNat n * sumXY - sumX * sumY) / (ofNat n * sumXX - sumX * sumX) in
        let avgPrice := sumY / ofNat n in
        if avgPrice >? 0 then slope / avgPrice else 0
  end.

(** [extractFeatures]: [Some None] is the [null] result, [None] a
    [TypeError] raised by one of the feature calculations. *)
Definition extractFeatures (fe : t) (symbol : string) (now : Z)
  : option (option FeatureSet.t) :=
  match priceHistory fe !! symbol with
  | None => Some None
  | Some prices =>
      if (length prices <? 10)%nat then Some None
      else
        let vvix := calculateVVIX fe symbol in
        ofi ← calculateOFI fe symbol;
        vpin ← calculateVPIN fe symbol;
        Some (Some
          {| FeatureSet.vvix := vvix;
             FeatureSet.ofi := ofi;
             FeatureSet.vpin := vpin;
             FeatureSet.correlation := calculateCorrelation fe symbol;
             FeatureSet.liquidity := calculateLiquidity fe symbol;
             FeatureSet.volatility := calculateVolatility fe symbol;
             FeatureSet.momentum := calculateMomentum fe symbol;
             FeatureSet.meanReversion := calculateMeanReversion fe symbol;
             FeatureSet.trend := calculateTrend fe symbol;
             FeatureSet.timestamp := now |})
  end.

(** The decision list of [detectRegime] on extracted features. *)
Definition classify (features : FeatureSet.t) : MarketRegime.t :=
  let '(regimeType, confidence) :=
    if FeatureSet.volatility features >? 0.7 then
      (volatile, FeatureSet.volatility features)
    else if Math_abs (FeatureSet.trend features) >? 0.6 then
      (trending, Math_abs (FeatureSet.trend features))
    else if FeatureSet.meanReversion features >? 0.6 then
      (ranging, FeatureSet.meanReversion features)
    else (stable, 0.5) in
  {| MarketRegime.type := regimeType;
     MarketRegime.confidence := confidence;
     MarketRegime.features := features |}.

(** [detectRegime]; the fire-and-forget [saveMarketFeatures] call has no
    effect on the engine or on the result. *)
Definition detectRegime (fe : t) (symbol : string) (now : Z)
  : option (option MarketRegime.t) :=
  match extractFeatures fe symbol now with
  | None => None
  | Some None => Some None
  | Some (Some features) => Some (Some (classify features))
  end.

Definition getSupportedSymbols (fe : t) : list string :=
  (map_to_list (filter (fun kv => (10 <= length kv.2)%nat) (priceHistory fe))).*1.

Definition cleanupOldSymbols (fe : t) (activeSymbols : list string) : t :=
  {| priceHistory := filter (fun kv => kv.1 ∈ activeSymbols) (priceHistory fe);
     volumeHistory := filter (fun kv => kv.1 ∈ activeSymbols) (volumeHistory fe);
     orderBookHistory :=
       filter (fun kv => kv.1 ∈ activeSymbols) (orderBookHistory fe) |}.

End FeatureEngine.

(** ** [AIOrchestrator.ts] *)

Inductive Action := buy | sell | hold.

Module TradingSignal.
Record t := {
  symbol : string;
  action : Action;
  confidence : Q;
  strategy : string;
  price : Q;
  timestamp : Z;
  reasoning : string
}.
End TradingSignal.

Module Strategy.
Record t := {
  id : string;
  name : string;
  type : string;
  weight : Q;
  performance : list Q
}.
End Strategy.

Module BanditArm.
Record t := {
  strategyId : string;
  wins : Q;
  trials : Q;
  alpha : Q;
  beta : Q
}.
End BanditArm.

(** Computations that draw from [Math.random()]: they read the draws from a
    cursor on and return the cursor after the last draw.  [OutOfFuel] stands
    for a rejection loop that has not finished within the given number of
    iterations, [TypeErr] for a read of a property of [undefined]. *)
Module Rand.
Inductive outcome (A : Type) : Type :=
| Value (a : A) (cursor : nat)
| TypeErr
| OutOfFuel.
Arguments Value {A} a cursor.
Arguments TypeErr {A}.
Arguments OutOfFuel {A}.

Definition t (A : Type) : Type := (nat -> Q) -> nat -> outcome A.

Definition ret {A} (a : A) : t A := fun _ cursor => Value a cursor.
Definition bind {A B} (m : t A) (k : A -> t B) : t B :=
  fun draws cursor =>
    match m draws cursor with
    | Value a cursor' => k a draws cursor'
    | TypeErr => TypeErr
    | OutOfFuel => OutOfFuel
    end.
Definition throw {A} : t A := fun _ _ => TypeErr.
Definition diverge {A} : t A := fun _ _ => OutOfFuel.

(** [Math.random()] *)
Definition random : t Q := fun draws cursor => Value (draws cursor) (S cursor).
End Rand.

Notation "x <~ m ;; k" := (Rand.bind m (fun x => k))
  (at level 100, m at next level, right associativity).

Module AIOrchestrator.
Local Open Scope Q_scope.
Local Open Scope js_scope.

Record Config := {
  learningRate : Q;
  explorationRate : Q;
  minConfidenceThreshold : Q;
  maxSignalsPerSymbol : Q;
  signalCooldownMs : Q
}.

Record t := {
  strategies : list (string * Strategy.t);
  banditArms : list (string * BanditArm.t);
  recentSignals : list TradingSignal.t;
  config : Config;
  lastSignalTime : gmap string Z
}.

Definition defaultConfig : Config :=
  {| learningRate := 0.015;
     explorationRate := 0.08;
     minConfidenceThreshold := 0.25;
     maxSignalsPerSymbol := 2;
     signalCooldownMs := 30000 |}.

Definition strategyConfigs : list (string * string) :=
  [ ("trend_following", "Trend Following");
    ("swing_trading", "Swing Trading");
    ("momentum", "Momentum");
    ("mean_reversion", "Mean Reversion");
    ("breakout", "Breakout");
    ("scalping", "Scalping");
    ("statistical_arbitrage", "Statistical Arbitrage");
    ("contextual_bandits", "Contextual Bandits") ].

Definition initializeStrategies : list (string * Strategy.t) :=
  fold_left
    (fun m '(id, name) =>
       Map_set m id
         {| Strategy.id := id; Strategy.name := name; Strategy.type := id;
            Strategy.weight := 1 / ofNat (length strategyConfigs);
            Strategy.performance := [] |})
    strategyConfigs [].

Definition initializeBandits (strategies : list (string * Strategy.t))
  : list (string * BanditArm.t) :=
  fold_left
    (fun m '(id, _) =>
       Map_set m id
         {| BanditArm.strategyId := id; BanditArm.wins := 1;
            BanditArm.trials := 1; BanditArm.alpha := 1; BanditArm.beta := 1 |})
    strategies [].

(** [new AIOrchestrator(config)], [config] being the defaults overridden by
    the caller's partial configuration. *)
Definition new (config : Config) : t :=
  let strategies := initializeStrategies in
  {| strategies := strategies;
     banditArms := initializeBandits strategies;
     recentSignals := [];
     config := config;
     lastSignalTime := ∅ |}.

Section Sampling.
Context {math : MathLib}.

(** Box-Muller. *)
Definition normalSample : Rand.t Q :=
  u1 <~ Rand.random ;;
  u2 <~ Rand.random ;;
  Rand.ret (Math_sqrt (-2 * Math_log u1) * Math_cos (2 * Math_PI * u2)).

(** The [do { ... } while (v <= 0)] loop of [gammaSample]. *)
Fixpoint drawCandidate (fuel : nat) (c : Q) : Rand.t (Q * Q) :=
  match fuel with
  | O => Rand.diverge
  | S fuel' =>
      x <~ normalSample ;;
      let v := 1 + c * x in
      if v <=? 0 then drawCandidate fuel' c else Rand.ret (x, v)
  end.

(** The [while (true)] loop of [gammaSample]. *)
Fixpoint squeeze (fuel : nat) (d c : Q) : Rand.t Q :=
  match fuel with
  | O => Rand.diverge
  | S fuel' =>
      xv <~ drawCandidate fuel' c ;;
      let x := xv.1 in
      let v := xv.2 * xv.2 * xv.2 in
      u <~ Rand.random ;;
      if u <? 1 - 0.0331 * x * x * x * x then Rand.ret (d * v)
      else if Math_log u <? 0.5 * x * x + d * (1 - v + Math_log v)
      then Rand.ret (d * v)
      else squeeze fuel' d c
  end.

Fixpoint gammaSample (fuel : nat) (shape : Q) : Rand.t Q :=
  match fuel with
  | O => Rand.diverge
  | S fuel' =>
      if shape <? 1 then
        g <~ gammaSample fuel' (shape + 1) ;;
        u <~ Rand.random ;;
        Rand.ret (g * Math_pow u (1 / shape))
      else
        let d := shape - 1 / 3 in
        let c := 1 / Math_sqrt (9 * d) in
        squeeze fuel' d c
  end.

Definition betaSample (fuel : nat) (alpha beta : Q) : Rand.t Q :=
  gamma1 <~ gammaSample fuel alpha ;;
  gamma2 <~ gammaSample fuel beta ;;
  Rand.ret (gamma1 / (gamma1 + gamma2)).

Definition getContextAdjustment (strategyId : string)
    (features : FeatureSet.t) (regime : MarketRegime.t) : Q :=
  let is_ranging :=
    match MarketRegime.type regime with ranging => true | _ => false end in
  let is_trending :=
    match MarketRegime.type regime with trending => true | _ => false end in
  if decide (strategyId = "trend_following") then
    if is_trending then 1.5 else 0.8
  else if decide (strategyId = "momentum") then
    if FeatureSet.volatility features >? 0.5 then 1.3 else 0.9
  else if decide (strategyId = "mean_reversion") then
    if is_ranging then 1.4 else 0.7
  else if decide (strategyId = "breakout") then
    if FeatureSet.volatility features >? 0.6 then 1.6 else 0.6
  else if decide (strategyId = "scalping") then
    if FeatureSet.liquidity features >? 0.7 then 1.4 else 0.5
  else if decide (strategyId = "swing_trading") then
    if is_ranging then 1.3 else 0.8
  else if decide (strategyId = "statistical_arbitrage") then
    if Math_abs (FeatureSet.correlation features) >? 0.6 then 1.2 else 0.9
  else 1.0.

(** The [banditArms.forEach] of [selectStrategy]. *)
Fixpoint drawSamples (fuel : nat) (arms : list (string * BanditArm.t))
    (features : FeatureSet.t) (regime : MarketRegime.t)
  : Rand.t (list (string * Q)) :=
  match arms with
  | [] => Rand.ret []
  | (strategyId, arm) :: rest =>
      sample <~ betaSample fuel (BanditArm.alpha arm) (BanditArm.beta arm) ;;
      let contextAdjustment := getContextAdjustment strategyId features regime in
      let adjustedSample := sample * contextAdjustment in
      samples <~ drawSamples fuel rest features regime ;;
      Rand.ret ((strategyId, adjustedSample) :: samples)
  end.

(** [samples.sort((a, b) => b.sample - a.sample)]: descending, stable. *)
Fixpoint insertDesc (x : string * Q) (sorted : list (string * Q))
  : list (string * Q) :=
  match sorted with
  | [] => [x]
  | y :: rest =>
      if y.2 >? x.2 then y :: insertDesc x rest else x :: y :: rest
  end.
Definition sortDesc (samples : list (string * Q)) : list (string * Q) :=
  foldr insertDesc [] samples.

Definition selectStrategy (fuel : nat) (o : t)
    (features : FeatureSet.t) (regime : MarketRegime.t) : Rand.t string :=
  samples0 <~ drawSamples fuel (banditArms o) features regime ;;
  let samples := sortDesc samples0 in
  r <~ Rand.random ;;
  if r <? explorationRate (config o) then
    r' <~ Rand.random ;;
    let randomIndex := Math_floor (r' * ofNat (length samples)) in
    if (randomIndex <? 0)%Z then Rand.throw
    else
      match samples !! Z.to_nat randomIndex with
      | Some s => Rand.ret s.1
      | None => Rand.throw
      end
  else
    match samples with
    | s :: _ => Rand.ret s.1
    | [] => Rand.throw
    end.
End Sampling.

(** *** The eight heuristics; each receives the [hold] base signal. *)

Definition withSignal (signal : TradingSignal.t) (action : Action)
    (confidence : Q) (reasoning : string) : TradingSignal.t :=
  {| TradingSignal.symbol := TradingSignal.symbol signal;
     TradingSignal.action := action;
     TradingSignal.confidence := confidence;
     TradingSignal.strategy := TradingSignal.strategy signal;
     TradingSignal.price := TradingSignal.price signal;
     TradingSignal.timestamp := TradingSignal.timestamp signal;
     TradingSignal.reasoning := reasoning |}.

Definition trendFollowingStrategy (signal : TradingSignal.t)
    (features : FeatureSet.t) : TradingSignal.t :=
  let trend := FeatureSet.trend features in
  let trendStrength := Math_abs trend in
  if trendStrength >? 0.005 then
    withSignal signal
      (if trend >? 0 then buy else sell)
      (Math_min (trendStrength * 15) 0.95)
      ("Trend detected: " +:+ (if trend >? 0 then "upward" else "downward")
       +:+ " (" +:+ toFixed (trend * 100) 3 +:+ "%)")
  else signal.

Definition momentumStrategy (signal : TradingSignal.t)
    (features : FeatureSet.t) : TradingSignal.t :=
  let momentum := FeatureSet.momentum features in
  let momentumStrength := Math_abs momentum in
  if momentumStrength >? 0.002 then
    withSignal signal
      (if momentum >? 0 then buy else sell)
      (Math_min (momentumStrength * 25) 0.9)
      ("Momentum signal: " +:+ toFixed (momentum * 100) 3 +:+ "%")
  else signal.

Definition meanReversionStrategy (signal : TradingSignal.t)
    (features : FeatureSet.t) : TradingSignal.t :=
  if (FeatureSet.meanReversion features >? 0.4)
     && (FeatureSet.volatility features >? 0.3) then
    withSignal signal
      (if FeatureSet.trend features <? 0 then buy else sell)
      (FeatureSet.meanReversion features)
      ("Mean reversion opportunity - price deviated "
       +:+ toFixed (FeatureSet.meanReversion features * 100) 1 +:+ "%")
  else signal.

Definition breakoutStrategy (signal : TradingSignal.t)
    (features : FeatureSet.t) : TradingSignal.t :=
  if (FeatureSet.volatility features >? 0.6)
     && (FeatureSet.liquidity features >? 0.5) then
    let breakoutSignal := Math_abs (FeatureSet.momentum features) >? 0.03 in
    if breakoutSignal then
      withSignal signal
        (if FeatureSet.momentum features >? 0 then buy else sell)
        (Math_min (FeatureSet.volatility features + FeatureSet.momentum features) 1)
        ("Breakout detected with high volatility ("
         +:+ toFixed (FeatureSet.volatility features * 100) 1 +:+ "%)")
    else signal
  else signal.

Definition scalpingStrategy (signal : TradingSignal.t)
    (features : FeatureSet.t) : TradingSignal.t :=
  if (FeatureSet.liquidity features >? 0.7)
     && (FeatureSet.volatility features <? 0.4) then
    let ofiSignal := Math_abs (FeatureSet.ofi features) >? 0.3 in
    if ofiSignal then
      withSignal signal
        (if FeatureSet.ofi features >? 0 then buy else sell)
        (Math_abs (FeatureSet.ofi features))
        ("Order flow imbalance: "
         +:+ toFixed (FeatureSet.ofi features * 100) 1 +:+ "%")
    else signal
  else signal.

Definition swingTradingStrategy (signal : TradingSignal.t)
    (features : FeatureSet.t) (regime : MarketRegime.t) : TradingSignal.t :=
  if match MarketRegime.type regime with ranging => true | _ => false end
     && (FeatureSet.volatility features >? 0.2)
     && (FeatureSet.volatility features <? 0.6) then
    let swingSignal := Math_abs (FeatureSet.meanReversion features) >? 0.3 in
    if swingSignal then
      withSignal signal
        (if FeatureSet.trend features <? -0.1 then buy else sell)
        (FeatureSet.meanReversion features * MarketRegime.confidence regime)
        "Swing trade in ranging market"
    else signal
  else signal.

Definition statisticalArbitrageStrategy (signal : TradingSignal.t)
    (features : FeatureSet.t) : TradingSignal.t :=
  if (Math_abs (FeatureSet.correlation features) >? 0.7)
     && (FeatureSet.meanReversion features >? 0.5) then
    withSignal signal
      (if FeatureSet.correlation features * FeatureSet.trend features <? 0
       then buy else sell)
      (Math_min (Math_abs (FeatureSet.correlation features)
                 + FeatureSet.meanReversion features) 1 * 0.8)
      "Statistical arbitrage - correlation divergence"
  else signal.

Definition contextualBanditsStrategy (signal : TradingSignal.t)
    (features : FeatureSet.t) (regime : MarketRegime.t) : TradingSignal.t :=
  let signals :=
    [ FeatureSet.trend features * 0.3;
      FeatureSet.momentum features * 0.2;
      FeatureSet.ofi features * 0.2;
      FeatureSet.meanReversion features * -0.1;
      FeatureSet.vpin features * 0.2 ] in
  let combinedSignal := sum signals in
  if Math_abs combinedSignal >? 0.3 then
    withSignal signal
      (if combinedSignal >? 0 then buy else sell)
      (Math_min (Math_abs combinedSignal * MarketRegime.confidence regime) 1)
      ("Multi-factor signal: " +:+ toFixed combinedSignal 3)
  else signal.

Definition executeStrategy (strategyId symbol : string) (price : Q)
    (features : FeatureSet.t) (regime : MarketRegime.t) (now : Z)
  : TradingSignal.t :=
  let baseSignal :=
    {| TradingSignal.symbol := symbol;
       TradingSignal.action := hold;
       TradingSignal.confidence := 0;
       TradingSignal.strategy := strategyId;
       TradingSignal.price := price;
       TradingSignal.timestamp := now;
       TradingSignal.reasoning := "" |} in
  if decide (strategyId = "trend_following") then
    trendFollowingStrategy baseSignal features
  else if decide (strategyId = "momentum") then
    momentumStrategy baseSignal features
  else if decide (strategyId = "mean_reversion") then
    meanReversionStrategy baseSignal features
  else if decide (strategyId = "breakout") then
    breakoutStrategy baseSignal features
  else if decide (strategyId = "scalping") then
    scalpingStrategy baseSignal features
  else if decide (strategyId = "swing_trading") then
    swingTradingStrategy baseSignal features regime
  else if decide (strategyId = "statistical_arbitrage") then
    statisticalArbitrageStrategy baseSignal features
  else if decide (strategyId = "contextual_bandits") then
    contextualBanditsStrategy baseSignal features regime
  else baseSignal.

(** The persistence collaborator's [saveSignal]: the id of the stored row,
    or [None] for the [null] of a failed write. *)
Definition SaveSignal : Type :=
  TradingSignal.t -> FeatureSet.t -> MarketRegime.t -> option string.

(** What [generateSignal] does with the signal of the selected strategy. *)
Definition acceptSignal (o : t) (saveSignal : SaveSignal) (symbol : string)
    (signal : TradingSignal.t) (features : FeatureSet.t)
    (regime : MarketRegime.t) (now : Z)
  : t * option (TradingSignal.t * string) :=
  if TradingSignal.confidence signal >=? minConfidenceThreshold (config o) then
    match saveSignal signal features regime with
    | None => (o, None)
    | Some signalId =>
        if decide (signalId = "") then (o, None)
        else
          let pushed := recentSignals o ++ [signal] in
          ({| strategies := strategies o;
              banditArms := banditArms o;
              recentSignals :=
                if (100 <? length pushed)%nat then tail pushed else pushed;
              config := config o;
              lastSignalTime := <[symbol := now]> (lastSignalTime o) |},
           Some (signal, signalId))
    end
  else (o, None).

Section Signals.
Context {math : MathLib}.

Definition generateSignal (fuel : nat) (o : t) (saveSignal : SaveSignal)
    (symbol : string) (price : Q) (features : FeatureSet.t)
    (regime : MarketRegime.t) (now : Z)
  : Rand.t (t * option (TradingSignal.t * string)) :=
  let lastSignal := default 0%Z (lastSignalTime o !! symbol) in
  let timeSinceLastSignal := (now - lastSignal)%Z in
  if ofZ timeSinceLastSignal <? signalCooldownMs (config o) then
    Rand.ret (o, None)
  else
    let recentSymbolSignals :=
      filter (fun s => TradingSignal.symbol s = symbol
                       ∧ (now - TradingSignal.timestamp s < 300000)%Z)
             (recentSignals o) in
    if ofNat (length recentSymbolSignals) >=? maxSignalsPerSymbol (config o)
    then Rand.ret (o, None)
    else
      selectedStrategy <~ selectStrategy fuel o features regime ;;
      let signal :=
        executeStrategy selectedStrategy symbol price features regime now in
      Rand.ret (acceptSignal o saveSignal symbol signal features regime now).
End Signals.

(** [updateReward]; the persistence of the aggregated performance is
    fire-and-forget. *)
Definition updateReward (o : t) (signal : TradingSignal.t) (profit : Q) : t :=
  match Map_get (banditArms o) (TradingSignal.strategy signal) with
  | None => o
  | Some arm =>
      let reward_is_1 := profit >? 0 in
      let arm' :=
        {| BanditArm.strategyId := BanditArm.strategyId arm;
           BanditArm.wins :=
             if reward_is_1 then BanditArm.wins arm + 1 else BanditArm.wins arm;
           BanditArm.trials := BanditArm.trials arm + 1;
           BanditArm.alpha :=
             if reward_is_1 then BanditArm.alpha arm + 1 else BanditArm.alpha arm;
           BanditArm.beta :=
             if reward_is_1 then BanditArm.beta arm else BanditArm.beta arm + 1 |} in
      let strategies' :=
        match Map_get (strategies o) (TradingSignal.strategy signal) with
        | None => strategies o
        | Some strategy =>
            let pushed := Strategy.performance strategy ++ [profit] in
            Map_set (strategies o) (TradingSignal.strategy signal)
              {| Strategy.id := Strategy.id strategy;
                 Strategy.name := Strategy.name strategy;
                 Strategy.type := Strategy.type strategy;
                 Strategy.weight := Strategy.weight strategy;
                 Strategy.performance :=
                   if (50 <? length pushed)%nat then tail pushed else pushed |}
        end in
      {| strategies := strategies';
         banditArms := Map_set (banditArms o) (TradingSignal.strategy signal) arm';
         recentSignals := recentSignals o;
         config := config o;
         lastSignalTime := lastSignalTime o |}
  end.

(** [getStrategyPerformance]: for every arm its wins, trials and win rate,
    in the order of the arms. *)
Definition getStrategyPerformance (o : t) : list (string * (Q * Q * Q)) :=
  fold_left
    (fun performance '(strategyId, arm) =>
       Map_set performance strategyId
         (BanditArm.wins arm, BanditArm.trials arm,
          if BanditArm.trials arm >? 0
          then BanditArm.wins arm / BanditArm.trials arm else 0))
    (banditArms o) [].

(** [getRecentSignals]: [this.recentSignals.slice(-10)] *)
Definition getRecentSignals (o : t) : list TradingSignal.t :=
  lastN 10 (recentSignals o).

(** [updateConfig], [newConfig] being the merged configuration. *)
Definition updateConfig (o : t) (newConfig : Config) : t :=
  {| strategies := strategies o;
     banditArms := banditArms o;
     recentSignals := recentSignals o;
     config := newConfig;
     lastSignalTime := lastSignalTime o |}.

Definition getConfig (o : t) : Config := config o.

(** One row of [topStrategies] in [getSignalStats]. *)
Record StrategyStat := {
  stat_strategy : string;
  stat_count : nat;
  stat_avgConfidence : Q
}.

Record SignalStats := {
  totalSignals : nat;
  signalsLast24h : nat;
  averageConfidence : Q;
  topStrategies : list StrategyStat
}.

(** The [forEach] of [getSignalStats] that fills [strategyStats]: per
    strategy the count and the total confidence. *)
Definition countSignal (strategyStats : list (string * (nat * Q)))
    (signal : TradingSignal.t) : list (string * (nat * Q)) :=
  let stats :=
    default (O, 0) (Map_get strategyStats (TradingSignal.strategy signal)) in
  Map_set strategyStats (TradingSignal.strategy signal)
    (S stats.1, stats.2 + TradingSignal.confidence signal).

(** [.sort((a, b) => b.count - a.count)]: descending, stable. *)
Fixpoint insertByCount (x : StrategyStat) (sorted : list StrategyStat)
  : list StrategyStat :=
  match sorted with
  | [] => [x]
  | y :: rest =>
      if (stat_count x <? stat_count y)%nat then y :: insertByCount x rest
      else x :: y :: rest
  end.
Definition sortByCount (stats : list StrategyStat) : list StrategyStat :=
  foldr insertByCount [] stats.

Definition getSignalStats (o : t) (now : Z) : SignalStats :=
  let last24h :=
    filter (fun s => (now - TradingSignal.timestamp s < 86400000)%Z)
           (recentSignals o) in
  let strategyStats := fold_left countSignal (recentSignals o) [] in
  let topStrategies :=
    take 5
      (sortByCount
         ((fun entry : string * (nat * Q) =>
             {| stat_strategy := entry.1;
                stat_count := entry.2.1;
                stat_avgConfidence := entry.2.2 / ofNat entry.2.1 |})
            <$> strategyStats)) in
  {| totalSignals := length (recentSignals o);
     signalsLast24h := length last24h;
     averageConfidence :=
       if (0 <? length (recentSignals o))%nat
       then sum (TradingSignal.confidence <$> recentSignals o)
            / ofNat (length (recentSignals o))
       else 0;
     topStrategies := topStrategies |}.

End AIOrchestrator.

(** ** [ProfitLockingEngine.ts] *)

Inductive Side := long | short.

(** The six keys of [defaultConfigs]; [profitLockMethod] only ever holds one
    of them. *)
Inductive LockMethod :=
| volatility_adaptive_trailing_stop
| partial_profit_scaling
| fixed_take_profit
| time_based_stop
| edge_decay_exit
| drawdown_trailing_stop.

Module TradingConfig.
Record t := {
  maxPositions : Q;
  riskPerTrade : Q;
  stopLossPercent : Q;
  takeProfitMultiplier : Q;
  atrPeriod : Q;
  trailingStopPercent : Q
}.
End TradingConfig.

Module Position.
Record t := {
  id : string;
  symbol : string;
  side : Side;
  size : Q;
  entryPrice : Q;
  currentPrice : Q;
  unrealizedPnL : Q;
  unrealizedPnLPct : Q;
  trailingStopPrice : Q;
  takeProfitPrice : Q;
  profitLockMethod : LockMethod;
  timeHeld : string;
  entryTime : Z;
  edgeDecayScore : Q;
  maxDrawdownFromPeak : Q;
  peakPnL : Q;
  atrValue : Q;
  originalSignal : TradingSignal.t
}.
End Position.

Module ProfitLockConfig.
Record t := {
  method : LockMethod;
  atrMultiplier : Q;
  trailingPercent : Q;
  partialProfitLevels : list Q;
  timeBasedExitMinutes : Q;
  edgeDecayThreshold : Q;
  maxDrawdownPercent : Q
}.
End ProfitLockConfig.

Module ProfitLockingEngine.
Local Open Scope Q_scope.
Local Open Scope js_scope.

(** What the engine sends to its collaborators: the three persistence
    calls, and one notification of every registered exit callback. *)
Inductive Effect :=
| SavePosition (position : Position.t) (signalId : string)
| UpdatePosition (position : Position.t)
| ClosePosition (position : Position.t) (reason : string)
| ExitCallbacks (position : Position.t) (reason : string).

Record t := {
  positions : list (string * Position.t);
  priceHistory : gmap string (list Q);
  signalIdMap : gmap string string;
  config : TradingConfig.t
}.

Definition defaultTradingConfig : TradingConfig.t :=
  {| TradingConfig.maxPositions := 250;
     TradingConfig.riskPerTrade := 0.02;
     TradingConfig.stopLossPercent := 0.03;
     TradingConfig.takeProfitMultiplier := 2.5;
     TradingConfig.atrPeriod := 14;
     TradingConfig.trailingStopPercent := 0.02 |}.

(** [new ProfitLockingEngine(config)], [config] being the defaults
    overridden by the caller's partial configuration. *)
Definition new (config : TradingConfig.t) : t :=
  {| positions := []; priceHistory := ∅; signalIdMap := ∅; config := config |}.

Definition defaultConfigs (c : TradingConfig.t) (m : LockMethod)
  : ProfitLockConfig.t :=
  let tp := TradingConfig.takeProfitMultiplier c in
  let ts := TradingConfig.trailingStopPercent c in
  match m with
  | volatility_adaptive_trailing_stop =>
      {| ProfitLockConfig.method := m;
         ProfitLockConfig.atrMultiplier := tp;
         ProfitLockConfig.trailingPercent := ts;
         ProfitLockConfig.partialProfitLevels := [];
         ProfitLockConfig.timeBasedExitMinutes := 0;
         ProfitLockConfig.edgeDecayThreshold := 0.1;
         ProfitLockConfig.maxDrawdownPercent := 0.15 |}
  | partial_profit_scaling =>
      {| ProfitLockConfig.method := m;
         ProfitLockConfig.atrMultiplier := tp * 0.8;
         ProfitLockConfig.trailingPercent := ts * 0.8;
         ProfitLockConfig.partialProfitLevels := [0.5; 0.75];
         ProfitLockConfig.timeBasedExitMinutes := 0;
         ProfitLockConfig.edgeDecayThreshold := 0.1;
         ProfitLockConfig.maxDrawdownPercent := 0.12 |}
  | fixed_take_profit =>
      {| ProfitLockConfig.method := m;
         ProfitLockConfig.atrMultiplier := tp * 0.6;
         ProfitLockConfig.trailingPercent := ts * 1.2;
         ProfitLockConfig.partialProfitLevels := [];
         ProfitLockConfig.timeBasedExitMinutes := 0;
         ProfitLockConfig.edgeDecayThreshold := 0.1;
         ProfitLockConfig.maxDrawdownPercent := 0.20 |}
  | time_based_stop =>
      {| ProfitLockConfig.method := m;
         ProfitLockConfig.atrMultiplier := tp;
         ProfitLockConfig.trailingPercent := ts;
         ProfitLockConfig.partialProfitLevels := [];
         ProfitLockConfig.timeBasedExitMinutes := 240;
         ProfitLockConfig.edgeDecayThreshold := 0.1;
         ProfitLockConfig.maxDrawdownPercent := 0.15 |}
  | edge_decay_exit =>
      {| ProfitLockConfig.method := m;
         ProfitLockConfig.atrMultiplier := tp * 1.2;
         ProfitLockConfig.trailingPercent := ts * 1.5;
         ProfitLockConfig.partialProfitLevels := [];
         ProfitLockConfig.timeBasedExitMinutes := 0;
         ProfitLockConfig.edgeDecayThreshold := 0.05;
         ProfitLockConfig.maxDrawdownPercent := 0.18 |}
  | drawdown_trailing_stop =>
      {| ProfitLockConfig.method := m;
         ProfitLockConfig.atrMultiplier := tp * 1.4;
         ProfitLockConfig.trailingPercent := ts * 0.8;
         ProfitLockConfig.partialProfitLevels := [];
         ProfitLockConfig.timeBasedExitMinutes := 0;
         ProfitLockConfig.edgeDecayThreshold := 0.1;
         ProfitLockConfig.maxDrawdownPercent := 0.10 |}
  end.

(** [methodMappings[signal.strategy] || 'volatility_adaptive_trailing_stop'].
    [methodMappings] is an object literal: under a strategy id that names a
    property of [Object.prototype] the lookup finds the inherited member,
    which is truthy and so is what is returned.  That value is no key of
    [defaultConfigs]; it is [None] here. *)
Definition selectProfitLockMethod (signal : TradingSignal.t)
  : option LockMethod :=
  let strategy := TradingSignal.strategy signal in
  if decide (strategy = "scalping") then Some partial_profit_scaling
  else if decide (strategy = "momentum")
  then Some volatility_adaptive_trailing_stop
  else if decide (strategy = "trend_following")
  then Some volatility_adaptive_trailing_stop
  else if decide (strategy = "mean_reversion") then Some fixed_take_profit
  else if decide (strategy = "breakout")
  then Some volatility_adaptive_trailing_stop
  else if decide (strategy = "swing_trading") then Some drawdown_trailing_stop
  else if decide (strategy = "statistical_arbitrage") then Some edge_decay_exit
  else if decide (strategy = "contextual_bandits")
  then Some drawdown_trailing_stop
  else if decide (strategy ∈ objectPrototypeKeys) then None
  else Some volatility_adaptive_trailing_stop.

(** [sum of |prices[i] - prices[i-1]|] over [i = 1 .. length - 1]. *)
Fixpoint rangeSum (prices : list Q) (atrSum : Q) : Q :=
  match prices with
  | prev :: ((cur :: _) as rest) => rangeSum rest (atrSum + Math_abs (cur - prev))
  | _ => atrSum
  end.

Definition calculateATR (e : t) (symbol : string) : Q :=
  let prices := default [] (priceHistory e !! symbol) in
  let atrPeriod := TradingConfig.atrPeriod (config e) in
  if ofNat (length prices) <? atrPeriod then
    match last prices with
    | Some p => p * TradingConfig.stopLossPercent (config e)
    | None => 0.01
    end
  else
    (* the loop reads prices[0 .. bound - 1], bound the least integer that
       is not below min(atrPeriod, prices.length) *)
    let bound := Qceiling (Math_min atrPeriod (ofNat (length prices))) in
    let atrSum := rangeSum (take (Z.to_nat bound) prices) 0 in
    atrSum / Math_min (atrPeriod - 1) (ofNat (length prices) - 1).

Definition calculateInitialStopPrice (e : t) (signal : TradingSignal.t)
    (cfg : ProfitLockConfig.t) (atr : Q) : Q :=
  let stopDistance :=
    TradingSignal.price signal * TradingConfig.stopLossPercent (config e) in
  match TradingSignal.action signal with
  | buy => TradingSignal.price signal - stopDistance
  | _ => TradingSignal.price signal + stopDistance
  end.

Definition calculateTakeProfitPrice (signal : TradingSignal.t)
    (cfg : ProfitLockConfig.t) (atr : Q) : Q :=
  let atrDistance := atr * ProfitLockConfig.atrMultiplier cfg * 2 in
  match TradingSignal.action signal with
  | buy => TradingSignal.price signal + atrDistance
  | _ => TradingSignal.price signal - atrDistance
  end.

(** The [position] object that [addPosition] builds, for a method that is
    a key of [defaultConfigs]. *)
Definition entryPosition (e : t) (signal : TradingSignal.t) (size : Q)
    (method : LockMethod) (now : Z) : Position.t :=
  let cfg := defaultConfigs (config e) method in
  let atrValue := calculateATR e (TradingSignal.symbol signal) in
  {| Position.id := TradingSignal.symbol signal +:+ "_" +:+ pretty now;
     Position.symbol := TradingSignal.symbol signal;
     Position.side :=
       match TradingSignal.action signal with
       | buy => long
       | _ => short
       end;
     Position.size := size;
     Position.entryPrice := TradingSignal.price signal;
     Position.currentPrice := TradingSignal.price signal;
     Position.unrealizedPnL := 0;
     Position.unrealizedPnLPct := 0;
     Position.trailingStopPrice :=
       calculateInitialStopPrice e signal cfg atrValue;
     Position.takeProfitPrice :=
       calculateTakeProfitPrice signal cfg atrValue;
     Position.profitLockMethod := method;
     Position.timeHeld := "0m";
     Position.entryTime := now;
     Position.edgeDecayScore := 1.0;
     Position.maxDrawdownFromPeak := 0;
     Position.peakPnL := 0;
     Position.atrValue := atrValue;
     Position.originalSignal := signal |}.

(** [addPosition]: the new engine, the returned id (the empty string for a
    rejection) and the persistence call made; [None] is a [TypeError].
    [signalId] is [None] when the optional argument is absent.  When the
    selected method is no key of [defaultConfigs], [config] is [undefined]
    and [calculateTakeProfitPrice] raises on [config.atrMultiplier] while
    the position object is built, before anything is stored. *)
Definition addPosition (e : t) (signal : TradingSignal.t) (size : Q)
    (signalId : option string) (now : Z)
  : option (t * string * list Effect) :=
  if ofNat (length (positions e)) >=? TradingConfig.maxPositions (config e)
  then Some (e, "", [])
  else
    let existingPositions :=
      filter (fun kv => Position.symbol kv.2 = TradingSignal.symbol signal)
             (positions e) in
    if (3 <=? length existingPositions)%nat then Some (e, "", [])
    else
      let positionId := TradingSignal.symbol signal +:+ "_" +:+ pretty now in
      match selectProfitLockMethod signal with
      | None => None
      | Some method =>
          let position := entryPosition e signal size method now in
          (* if (signalId): an absent or empty id is falsy *)
          let savedAs :=
            match signalId with
            | Some sid => if decide (sid = "") then None else Some sid
            | None => None
            end in
          Some
            ({| positions := Map_set (positions e) positionId position;
                priceHistory := priceHistory e;
                signalIdMap :=
                  match savedAs with
                  | Some sid => <[positionId := sid]> (signalIdMap e)
                  | None => signalIdMap e
                  end;
                config := config e |},
             positionId,
             match savedAs with
             | Some sid => [SavePosition position sid]
             | None => []
             end)
      end.

Definition isTrailingStopTriggered (position : Position.t) : bool :=
  match Position.side position with
  | long => Position.currentPrice position <=? Position.trailingStopPrice position
  | short => Position.currentPrice position >=? Position.trailingStopPrice position
  end.

Definition isTakeProfitTriggered (position : Position.t) : bool :=
  match Position.side position with
  | long => Position.currentPrice position >=? Position.takeProfitPrice position
  | short => Position.currentPrice position <=? Position.takeProfitPrice position
  end.

Definition isTimeBasedExitTriggered (position : Position.t)
    (cfg : ProfitLockConfig.t) (now : Z) : bool :=
  if Qeq_bool (ProfitLockConfig.timeBasedExitMinutes cfg) 0 then false
  else
    let timeElapsed := (now - Position.entryTime position)%Z in
    let minutes := ofZ timeElapsed / 60000 in
    minutes >=? ProfitLockConfig.timeBasedExitMinutes cfg.

(** [updateTrailingStop], as the new value of [trailingStopPrice]. *)
Definition updateTrailingStop (c : TradingConfig.t) (method : LockMethod)
    (side : Side) (currentPrice trailingStopPrice : Q) : Q :=
  let cfg := defaultConfigs c method in
  match side with
  | long =>
      let newStop := currentPrice * (1 - ProfitLockConfig.trailingPercent cfg) in
      if newStop >? trailingStopPrice then newStop else trailingStopPrice
  | short =>
      let newStop := currentPrice * (1 + ProfitLockConfig.trailingPercent cfg) in
      if newStop <? trailingStopPrice then newStop else trailingStopPrice
  end.

(** The [timeHeld] display string. *)
Definition formatTimeHeld (timeElapsed : Z) : string :=
  let minutes := Math_floor (ofZ timeElapsed / 60000) in
  let hours := Math_floor (ofZ minutes / 60) in
  if (0 <? hours)%Z
  then pretty hours +:+ "h " +:+ pretty (Z.rem minutes 60) +:+ "m"
  else pretty minutes +:+ "m".

(** The push on [this.priceHistory[position.symbol]] in [updatePosition]. *)
Definition recordPrice (e : t) (symbol : string) (currentPrice : Q)
  : gmap string (list Q) :=
  let pushed := default [] (priceHistory e !! symbol) ++ [currentPrice] in
  <[symbol :=
      if ofNat (length pushed) >? TradingConfig.atrPeriod (config e) * 5
      then tail pushed else pushed]> (priceHistory e).

Section Ticks.
Context {math : MathLib}.

Definition calculateEdgeDecay (position : Position.t) (now : Z) : Q :=
  let timeElapsed := (now - Position.entryTime position)%Z in
  let hours := ofZ timeElapsed / (1000 * 60 * 60) in
  let decayRate := 0.1 in
  Math_exp (- decayRate * hours).

(** [updatePosition]: the position after the in-place update. *)
Definition updatePosition (c : TradingConfig.t) (position : Position.t)
    (currentPrice : Q) (now : Z) : Position.t :=
  let priceDiff := currentPrice - Position.entryPrice position in
  let unrealizedPnL :=
    match Position.side position with
    | long => priceDiff * Position.size position
    | short => - priceDiff * Position.size position
    end in
  let unrealizedPnLPct :=
    unrealizedPnL / (Position.entryPrice position * Position.size position)
    * 100 in
  let peakPnL :=
    if unrealizedPnL >? Position.peakPnL position
    then unrealizedPnL else Position.peakPnL position in
  let drawdownFromPeak :=
    if peakPnL >? 0 then (peakPnL - unrealizedPnL) / peakPnL else 0 in
  let clampedDrawdown := Math_min (Math_max 0 drawdownFromPeak) 5.0 in
  {| Position.id := Position.id position;
     Position.symbol := Position.symbol position;
     Position.side := Position.side position;
     Position.size := Position.size position;
     Position.entryPrice := Position.entryPrice position;
     Position.currentPrice := currentPrice;
     Position.unrealizedPnL := unrealizedPnL;
     Position.unrealizedPnLPct := unrealizedPnLPct;
     Position.trailingStopPrice :=
       updateTrailingStop c (Position.profitLockMethod position)
         (Position.side position) currentPrice
         (Position.trailingStopPrice position);
     Position.takeProfitPrice := Position.takeProfitPrice position;
     Position.profitLockMethod := Position.profitLockMethod position;
     Position.timeHeld :=
       formatTimeHeld (now - Position.entryTime position);
     Position.entryTime := Position.entryTime position;
     Position.edgeDecayScore := calculateEdgeDecay position now;
     Position.maxDrawdownFromPeak :=
       Math_max (Position.maxDrawdownFromPeak position) clampedDrawdown;
     Position.peakPnL := peakPnL;
     Position.atrValue := Position.atrValue position;
     Position.originalSignal := Position.originalSignal position |}.

(** [checkExitConditions]: the joined reasons when the position is to be
    exited, [None] when it stays open. *)
Definition checkExitConditions (c : TradingConfig.t) (position : Position.t)
    (now : Z) : option string :=
  let cfg := defaultConfigs c (Position.profitLockMethod position) in
  let positionAge := (now - Position.entryTime position)%Z in
  if (positionAge <? 10000)%Z then None
  else
    let reasons :=
      (if isTrailingStopTriggered position
       then ["Trailing stop triggered"] else [])
      ++ (if isTakeProfitTriggered position
          then ["Take profit reached"] else [])
      ++ (if isTimeBasedExitTriggered position cfg now
          then ["Time-based exit"] else [])
      ++ (if (Position.edgeDecayScore position
              <? ProfitLockConfig.edgeDecayThreshold cfg)
             && (60000 <? positionAge)%Z
          then ["Edge decay threshold reached"] else [])
      ++ (if (Position.maxDrawdownFromPeak position
              >? ProfitLockConfig.maxDrawdownPercent cfg)
             && (Position.unrealizedPnL position <? 0)
          then ["Maximum drawdown exceeded"] else []) in
    if (0 <? length reasons)%nat then Some (join ", " reasons) else None.

(** [exitPosition] *)
Definition exitPosition (e : t) (position : Position.t) (reason : string)
  : t * list Effect :=
  ({| positions := Map_delete (positions e) (Position.id position);
      priceHistory := priceHistory e;
      signalIdMap := delete (Position.id position) (signalIdMap e);
      config := config e |},
   [ClosePosition position reason; ExitCallbacks position reason]).

(** The callback of the [forEach] in [updatePositions], for one entry of
    the map: the engine after it and the effects appended. *)
Definition visitPosition (currentPrices : gmap string Q) (now : Z)
    (acc : t * list Effect) (entry : string * Position.t)
  : t * list Effect :=
  let '(e, effects) := acc in
  let '(id, position) := entry in
  match currentPrices !! Position.symbol position with
  | Some currentPrice =>
      if truthy currentPrice then
        let updated := updatePosition (config e) position currentPrice now in
        let e1 :=
          {| positions := Map_set (positions e) id updated;
             priceHistory :=
               recordPrice e (Position.symbol position) currentPrice;
             signalIdMap := signalIdMap e;
             config := config e |} in
        match checkExitConditions (config e1) updated now with
        | Some reason =>
            let '(e2, exitEffects) := exitPosition e1 updated reason in
            (e2, effects ++ [UpdatePosition updated] ++ exitEffects)
        | None => (e1, effects ++ [UpdatePosition updated])
        end
      else (e, effects)
  | None => (e, effects)
  end.

Definition updatePositions (e : t) (currentPrices : gmap string Q) (now : Z)
  : t * list Effect :=
  fold_left (visitPosition currentPrices now) (positions e) (e, []).
End Ticks.

Definition getPositions (e : t) : list Position.t := (positions e).*2.

Definition getPosition (e : t) (id : string) : option Position.t :=
  Map_get (positions e) id.

Definition removePosition (e : t) (id : string) : t :=
  {| positions := Map_delete (positions e) id;
     priceHistory := priceHistory e;
     signalIdMap := delete id (signalIdMap e);
     config := config e |}.

(** [updateConfig], [newConfig] being the merged configuration. *)
Definition updateConfig (e : t) (newConfig : TradingConfig.t) : t :=
  {| positions := positions e;
     priceHistory := priceHistory e;
     signalIdMap := signalIdMap e;
     config := newConfig |}.

Definition getConfig (e : t) : TradingConfig.t := config e.

(** [getPositionLimits]: current, max and available. *)
Definition getPositionLimits (e : t) : Q * Q * Q :=
  (ofNat (length (positions e)),
   TradingConfig.maxPositions (config e),
   TradingConfig.maxPositions (config e) - ofNat (length (positions e))).

Definition applyProfitEnvelopeGuard (position : Position.t) : bool :=
  let volatilityCondition := isTrailingStopTriggered position in
  let edgeCondition := Position.edgeDecayScore position <? 0.3 in
  let drawdownCondition := Position.maxDrawdownFromPeak position >? 0.05 in
  volatilityCondition || edgeCondition || drawdownCondition.

Definition applyScalpingHybridLock (e : t) (position : Position.t) (now : Z)
  : bool :=
  let timeCondition :=
    isTimeBasedExitTriggered position
      (defaultConfigs (config e) time_based_stop) now in
  let profitCondition := isTakeProfitTriggered position in
  let partialProfitCondition := Position.unrealizedPnLPct position >? 1.0 in
  timeCondition || profitCondition || partialProfitCondition.

End ProfitLockingEngine.

(** * Vocabulary of the properties *)

Section EngineVocabulary.
Context {math : MathLib}.
Import ProfitLockingEngine.

(** The live map is a map: no two entries share a key, and every position
    is stored under its own id. *)
Definition liveMapOk (e : ProfitLockingEngine.t) : Prop :=
  NoDup (positions e).*1
  ∧ ∀ k p, (k, p) ∈ positions e → Position.id p = k.

(** [currentPrices[symbol]] is present and truthy. *)
Definition freshPrice (currentPrices : gmap string Q) (symbol : string)
  : option Q :=
  match currentPrices !! symbol with
  | Some q => if truthy q then Some q else None
  | None => None
  end.

(** Number of live positions of a symbol. *)
Definition liveCount (e : ProfitLockingEngine.t) (symbol : string) : nat :=
  length (filter (fun kv => Position.symbol kv.2 = symbol) (positions e)).

Definition effectPosition (eff : Effect) : Position.t :=
  match eff with
  | SavePosition p _ | UpdatePosition p | ClosePosition p _
  | ExitCallbacks p _ => p
  end.

(** One tick of the price feed: the price map and the clock. *)
Definition Tick : Type := gmap string Q * Z.

Definition runTicks (e : ProfitLockingEngine.t) (ticks : list Tick)
  : ProfitLockingEngine.t :=
  fold_left (fun e tick => (updatePositions e tick.1 tick.2).1) ticks e.

(** Engines that the public operations build from a new engine. *)
(** The engine after a call of [addPosition]: the one it returns with the
    id, and the engine as it was when the call raises. *)
Definition afterAdd (e : ProfitLockingEngine.t) (signal : TradingSignal.t)
    (size : Q) (signalId : option string) (now : Z) : ProfitLockingEngine.t :=
  match addPosition e signal size signalId now with
  | Some (e', _, _) => e'
  | None => e
  end.

Inductive engineReachable : ProfitLockingEngine.t -> Prop :=
| reach_new c : engineReachable (new c)
| reach_addPosition e signal size signalId now :
    engineReachable e ->
    engineReachable (afterAdd e signal size signalId now)
| reach_updatePositions e currentPrices now :
    engineReachable e ->
    engineReachable (updatePositions e currentPrices now).1
| reach_removePosition e id :
    engineReachable e -> engineReachable (removePosition e id)
| reach_updateConfig e c :
    engineReachable e -> engineReachable (updateConfig e c).

(** What one visit of [updatePositions] leaves of a position that has a
    fresh price: the updated position, or nothing when it exits. *)
Definition afterTick (c : TradingConfig.t) (position : Position.t)
    (currentPrice : Q) (now : Z) : option Position.t :=
  let updated := updatePosition c position currentPrice now in
  match checkExitConditions c updated now with
  | Some _ => None
  | None => Some updated
  end.
End EngineVocabulary.

Section FeatureVocabulary.
Import FeatureEngine.

(** Number of price samples the engine holds for a symbol. *)
Definition priceSamples (fe : FeatureEngine.t) (symbol : string) : nat :=
  length (default [] (priceHistory fe !! symbol)).

(** Feature engines that the public operations build from a new one; a
    call of [updateData] that raises leaves the state of the throw. *)
Inductive featureReachable : FeatureEngine.t -> Prop :=
| freach_new : featureReachable FeatureEngine.new
| freach_updateData fe marketData :
    featureReachable fe -> featureReachable (updateData fe marketData).1
| freach_cleanup fe activeSymbols :
    featureReachable fe -> featureReachable (cleanupOldSymbols fe activeSymbols).

(** Number of ticker entries of a symbol in a run of market-data updates. *)
Definition tickerCount (symbol : string) (updates : list MarketData.t) : nat :=
  length (filter (fun entry => entry.1 = symbol)
            (updates ≫= MarketData.tickers)).

Definition runUpdates (fe : FeatureEngine.t) (updates : list MarketData.t)
  : FeatureEngine.t :=
  fold_left (fun fe marketData => (updateData fe marketData).1) updates fe.

(** The three histories are created and dropped together. *)
Definition buffersAligned (fe : FeatureEngine.t) : Prop :=
  ∀ symbol, is_Some (priceHistory fe !! symbol) →
    is_Some (volumeHistory fe !! symbol)
    ∧ is_Some (orderBookHistory fe !! symbol).
End FeatureVocabulary.

Section OrchestratorVocabulary.
Import AIOrchestrator.

(** Orchestrators that the public operations build from a new one; the only
    change [generateSignal] makes is that of [acceptSignal]. *)
Inductive orchestratorReachable : AIOrchestrator.t -> Prop :=
| oreach_new c : orchestratorReachable (AIOrchestrator.new c)
| oreach_updateReward o signal profit :
    orchestratorReachable o ->
    orchestratorReachable (updateReward o signal profit)
| oreach_acceptSignal o saveSignal symbol signal features regime now :
    orchestratorReachable o ->
    orchestratorReachable
      (acceptSignal o saveSignal symbol signal features regime now).1
| oreach_updateConfig o c :
    orchestratorReachable o -> orchestratorReachable (updateConfig o c).

(** [n] profitable closes of one strategy, one after the other. *)
Fixpoint rewardTimes (n : nat) (o : AIOrchestrator.t)
    (signal : TradingSignal.t) (profits : nat -> Q) : AIOrchestrator.t :=
  match n with
  | O => o
  | S n' => updateReward (rewardTimes n' o signal profits) signal (profits n')
  end.

(** Number of signals of a strategy in a buffer. *)
Definition strategyCount (strategy : string) (signals : list TradingSignal.t)
  : nat :=
  length (filter (fun s => TradingSignal.strategy s = strategy) signals).
End OrchestratorVocabulary.

Section FeatureRunVocabulary.
(** The prices of the ticker entries of a symbol in a run of market-data
    updates, in the order of delivery. *)
Definition tickerPrices (symbol : string) (updates : list MarketData.t)
  : list Q :=
  (fun entry : string * TickerData.t => TickerData.price entry.2)
    <$> filter (fun entry => entry.1 = symbol)
          (updates ≫= MarketData.tickers).

(** Every buffer of the engine is within the cap, and the price and volume
    buffers of a symbol have the same length. *)
Definition buffersCapped (fe : FeatureEngine.t) : Prop :=
  (forall symbol prices,
     FeatureEngine.priceHistory fe !! symbol = Some prices ->
     (length prices <= FeatureEngine.maxHistoryLength)%nat
     ∧ exists volumes,
         FeatureEngine.volumeHistory fe !! symbol = Some volumes
         ∧ length volumes = length prices)
  ∧ (forall symbol books,
       FeatureEngine.orderBookHistory fe !! symbol = Some books ->
       (length books <= FeatureEngine.maxHistoryLength)%nat).
End FeatureRunVocabulary.

(** A rejection loop that has returned within some number of iterations
    returns the same value, at the same cursor, within any larger number. *)
Definition fuelMonotone {A} (f : nat -> Rand.t A) : Prop :=
  forall fuel fuel' draws cursor a cursor',
    (fuel <= fuel')%nat ->
    f fuel draws cursor = Rand.Value a cursor' ->
    f fuel' draws cursor = Rand.Value a cursor'.

(** * Sample inputs

    A [MathLib] of rational approximations (truncated series, rounded to
    twelve decimals) and a few concrete states, used to run the model. *)

Module SampleMath.
Local Open Scope Q_scope.

Definition roundTo (digits : Z) (x : Q) : Q :=
  Qred (Qmake (Qfloor (x * inject_Z (10 ^ digits))) (Z.to_pos (10 ^ digits))).
Definition round12 : Q -> Q := roundTo 12.

(** [acc + sum of the next n terms], the term after [term] being
    [term * ratio k]; every term is rounded to eighteen decimals. *)
Fixpoint series (n : nat) (ratio : Z -> Q) (k : Z) (term acc : Q) : Q :=
  match n with
  | O => acc
  | S n' =>
      let term' := roundTo 18 (term * ratio k) in
      series n' ratio (k + 1) term' (Qred (acc + term'))
  end.

Definition exp (x : Q) : Q :=
  round12 (series 24 (fun k => x / inject_Z k) 1 1 1).

Definition cos (x : Q) : Q :=
  round12 (series 24
             (fun k => - (x * x) / inject_Z ((2 * k - 1) * (2 * k))) 1 1 1).

(** [ln x = 2 atanh ((x - 1) / (x + 1))] for [x > 0]. *)
Definition log (x : Q) : Q :=
  let z := roundTo 18 ((x - 1) / (x + 1)) in
  round12 (2 * series 40
                 (fun k => z * z * inject_Z (2 * k - 1) / inject_Z (2 * k + 1))
                 1 z z).

Definition pow (x y : Q) : Q := exp (y * log x).

Definition lib : MathLib :=
  {| Math_exp := exp; Math_log := log; Math_cos := cos; Math_pow := pow;
     Math_PI := 3.141592653589 |}.
End SampleMath.

Module Samples.
Local Open Scope Q_scope.

Definition signal (symbol : string) (action : Action) (price : Q)
    (timestamp : Z) : TradingSignal.t :=
  {| TradingSignal.symbol := symbol;
     TradingSignal.action := action;
     TradingSignal.confidence := 0.9;
     TradingSignal.strategy := "trend_following";
     TradingSignal.price := price;
     TradingSignal.timestamp := timestamp;
     TradingSignal.reasoning := "" |}.

Definition engine0 : ProfitLockingEngine.t :=
  ProfitLockingEngine.new ProfitLockingEngine.defaultTradingConfig.

(** One long position on BTCUSDT, entered at 100 with size 1 at time 1000. *)
Definition engine1 : ProfitLockingEngine.t :=
  afterAdd engine0 (signal "BTCUSDT" buy 100 1000) 1 None 1000.

(** Three positions on BTCUSDT, entered at times 1000, 1001 and 1002. *)
Definition engine3 : ProfitLockingEngine.t :=
  fold_left
    (fun e now => afterAdd e (signal "BTCUSDT" buy 100 now) 1 None now)
    [1000; 1001; 1002]%Z engine0.

(** The price goes to 110, then to 95, within the first ten seconds. *)
Definition ticks : list Tick :=
  [ ({["BTCUSDT" := 110]}, 2000%Z); ({["BTCUSDT" := 95]}, 3000%Z) ].

Definition ticker (symbol : string) (price : Q) : TickerData.t :=
  {| TickerData.symbol := symbol; TickerData.price := price;
     TickerData.change24h := 0; TickerData.volume := 1;
     TickerData.timestamp := 0 |}.

Definition tickerUpdate (symbol : string) (price : Q) : MarketData.t :=
  {| MarketData.tickers := [(symbol, ticker symbol price)];
     MarketData.orderBooks := [];
     MarketData.lastUpdate := 0 |}.

Definition orderBook (symbol : string) : OrderBookData.t :=
  {| OrderBookData.symbol := symbol;
     OrderBookData.bids := [(99, 2)]; OrderBookData.asks := [(101, 3)];
     OrderBookData.timestamp := 0 |}.

(** An order-book snapshot that arrives before any ticker of its symbol. *)
Definition orderBookUpdate (symbol : string) : MarketData.t :=
  {| MarketData.tickers := [];
     MarketData.orderBooks := [(symbol, orderBook symbol)];
     MarketData.lastUpdate := 0 |}.

(** A feature engine fed one ticker update per price. *)
Definition feed (symbol : string) (prices : list Q) : FeatureEngine.t :=
  fold_left
    (fun fe price => (FeatureEngine.updateData fe (tickerUpdate symbol price)).1)
    prices FeatureEngine.new.

(** Ten ticks of a price that alternates between 1 and 4. *)
Definition swinging : FeatureEngine.t :=
  feed "ETHUSDT" [1; 4; 1; 4; 1; 4; 1; 4; 1; 4].

(** Ten ticks of the same price. *)
Definition flat : FeatureEngine.t :=
  feed "BTCUSDT" [100; 100; 100; 100; 100; 100; 100; 100; 100; 100].

Definition features : FeatureSet.t :=
  {| FeatureSet.vvix := 0; FeatureSet.ofi := 0.5; FeatureSet.vpin := 0;
     FeatureSet.correlation := 0; FeatureSet.liquidity := 0.8;
     FeatureSet.volatility := 0.1; FeatureSet.momentum := 0.01;
     FeatureSet.meanReversion := 0.1; FeatureSet.trend := 0.05;
     FeatureSet.timestamp := 0 |}.

Definition regime : MarketRegime.t := FeatureEngine.classify features.

Definition orchestrator : AIOrchestrator.t :=
  AIOrchestrator.new AIOrchestrator.defaultConfig.

(** A source of draws that repeats 1/2, 1/4, 1/10. *)
Definition draws (n : nat) : Q :=
  match (n mod 3)%nat with
  | O => 1 # 2
  | S O => 1 # 4
  | _ => 1 # 10
  end.

Definition failingSave : AIOrchestrator.SaveSignal := fun _ _ _ => None.
Definition workingSave : AIOrchestrator.SaveSignal := fun _ _ _ => Some "sig-1".

(** The orchestrator after one accepted and persisted signal. *)
Definition orchestratorLater : AIOrchestrator.t :=
  (AIOrchestrator.acceptSignal orchestrator workingSave "BTCUSDT"
     (signal "BTCUSDT" buy 100 100000) features regime 100000).1.
End Samples.

(** * Further vocabulary and sample inputs *)

Section ExitVocabulary.
Context {math : MathLib}.
Import ProfitLockingEngine.

(** What it is for an exit of [p] to be recorded in the effects [effs] of a
    tick over the positions [all], which left the engine [e]. *)
Definition closedBy (c : TradingConfig.t) (all : list (string * Position.t))
    (prices : gmap string Q) (now : Z) (e : ProfitLockingEngine.t)
    (effs : list Effect) (p : Position.t) (reason : string) : Prop :=
  getPosition e (Position.id p) = None
  /\ signalIdMap e !! Position.id p = None
  /\ ClosePosition p reason ∈ effs
  /\ ExitCallbacks p reason ∈ effs
  /\ checkExitConditions c p now = Some reason
  /\ exists q price,
      (Position.id p, q) ∈ all
      /\ freshPrice prices (Position.symbol q) = Some price
      /\ p = updatePosition c q price now.
End ExitVocabulary.

Section RewardVocabulary.
Local Open Scope Q_scope.

(** Number of profitable closes among the first [n] of a sequence. *)
Fixpoint profitableCount (n : nat) (profits : nat -> Q) : nat :=
  match n with
  | O => O
  | S n' =>
      ((if (profits n' >? 0)%js then 1 else 0) + profitableCount n' profits)%nat
  end.

(** The counters of an arm agree with each other: it is stored under its
    own id, its wins are its alpha, and alpha and beta count the trials. *)
Definition armOk (id : string) (arm : BanditArm.t) : Prop :=
  BanditArm.strategyId arm = id
  /\ BanditArm.wins arm = BanditArm.alpha arm
  /\ BanditArm.alpha arm + BanditArm.beta arm == BanditArm.trials arm + 1
  /\ 1 <= BanditArm.alpha arm
  /\ 1 <= BanditArm.beta arm.
End RewardVocabulary.

Section SamplingVocabulary.
(** A computation that does not raise a [TypeError], whatever the draws. *)
Definition neverRaises {A} (m : Rand.t A) : Prop :=
  forall draws cursor, m draws cursor <> Rand.TypeErr.

(** The contract of [Math.random()]: every draw is in [0, 1). *)
Definition unitDraws (draws : nat -> Q) : Prop :=
  forall n, (0 <= draws n)%Q /\ (draws n < 1)%Q.
End SamplingVocabulary.

Section FeatureWindowVocabulary.
(** The price samples the engine holds for a symbol, oldest first. *)
Definition pricesOf (fe : FeatureEngine.t) (symbol : string) : list Q :=
  default [] (FeatureEngine.priceHistory fe !! symbol).
End FeatureWindowVocabulary.

(** Further sample inputs. *)
Module MoreSamples.
Local Open Scope Q_scope.

(** A long position on BTCUSDT entered at 100, with its stop at 97 and its
    target at 105. *)
Definition longPosition : Position.t :=
  {| Position.id := "BTCUSDT_1000";
     Position.symbol := "BTCUSDT";
     Position.side := long;
     Position.size := 2;
     Position.entryPrice := 100;
     Position.currentPrice := 100;
     Position.unrealizedPnL := 0;
     Position.unrealizedPnLPct := 0;
     Position.trailingStopPrice := 97;
     Position.takeProfitPrice := 105;
     Position.profitLockMethod := volatility_adaptive_trailing_stop;
     Position.timeHeld := "0m";
     Position.entryTime := 1000;
     Position.edgeDecayScore := 1;
     Position.maxDrawdownFromPeak := 0;
     Position.peakPnL := 0;
     Position.atrValue := 0.01;
     Position.originalSignal := Samples.signal "BTCUSDT" buy 100 1000 |}.

(** A [hold] signal of a strategy whose id names a property of
    [Object.prototype]. *)
Definition inheritedSignal : TradingSignal.t :=
  {| TradingSignal.symbol := "BTCUSDT";
     TradingSignal.action := hold;
     TradingSignal.confidence := 0.9;
     TradingSignal.strategy := "toString";
     TradingSignal.price := 100;
     TradingSignal.timestamp := 1000;
     TradingSignal.reasoning := "" |}.

(** One position entered with a persisted signal. *)
Definition engineSaved : ProfitLockingEngine.t :=
  afterAdd Samples.engine0 (Samples.signal "BTCUSDT" buy 100 1000) 1
    (Some "sig-1") 1000.

(** Twenty seconds after the entry the price is at 90, below the stop. *)
Definition crash : Tick := ({["BTCUSDT" := 90]}, 21000%Z).

(** The profits of three closes: a win, a loss, a win. *)
Definition profits (n : nat) : Q :=
  match n with
  | 1%nat => -2
  | _ => 5
  end.

(** The sample orchestrator after the three closes of [profits], all of
    the trend-following strategy. *)
Definition orchestratorRewarded : AIOrchestrator.t :=
  rewardTimes 3 Samples.orchestrator (Samples.signal "BTCUSDT" buy 100 1000)
    profits.
End MoreSamples.

(** * Properties *)

(** ** Comparisons and maps *)

Section Basics.
Local Open Scope Q_scope.

Lemma ltb_lt (x y : Q) : JS.ltb x y = true <-> x < y.
Proof.
  unfold JS.ltb. rewrite negb_true_iff. split.
  - intros Hb. apply Qnot_le_lt. intros Hle.
    apply Qle_bool_iff in Hle. congruence.
  - intros Hlt. destruct (Qle_bool y x) eqn:Hb; [|reflexivity].
    apply Qle_bool_iff in Hb. lra.
Qed.

Lemma ltb_ge (x y : Q) : JS.ltb x y = false <-> y <= x.
Proof.
  unfold JS.ltb. rewrite negb_false_iff. apply Qle_bool_iff.
Qed.

Lemma leb_le (x y : Q) : JS.leb x y = true <-> x <= y.
Proof. apply Qle_bool_iff. Qed.

Lemma leb_gt (x y : Q) : JS.leb x y = false <-> y < x.
Proof.
  unfold JS.leb. split.
  - intros Hb. apply Qnot_le_lt. intros Hle.
    apply Qle_bool_iff in Hle. congruence.
  - intros Hlt. destruct (Qle_bool x y) eqn:Hb; [|reflexivity].
    apply Qle_bool_iff in Hb. lra.
Qed.

Lemma gtb_gt (x y : Q) : JS.gtb x y = true <-> y < x.
Proof. apply ltb_lt. Qed.

Lemma gtb_le (x y : Q) : JS.gtb x y = false <-> x <= y.
Proof. apply ltb_ge. Qed.

Lemma geb_ge (x y : Q) : JS.geb x y = true <-> y <= x.
Proof. apply leb_le. Qed.

Lemma geb_lt (x y : Q) : JS.geb x y = false <-> x < y.
Proof. apply leb_gt. Qed.

Context {V : Type}.
Implicit Types (m : list (string * V)) (k : string) (v : V).

Lemma Map_get_set_eq m k v : Map_get (Map_set m k v) k = Some v.
Proof.
  induction m as [|[k' v'] m IH]; simpl.
  - rewrite decide_True; done.
  - destruct (decide (k' = k)); simpl.
    + rewrite decide_True; done.
    + rewrite decide_False; done.
Qed.

Lemma Map_get_set_ne m k k' v :
  k ≠ k' -> Map_get (Map_set m k v) k' = Map_get m k'.
Proof.
  intros Hne. induction m as [|[k0 v0] m IH]; simpl.
  - rewrite decide_False; done.
  - destruct (decide (k0 = k)) as [->|]; simpl.
    + rewrite !decide_False; done.
    + destruct (decide (k0 = k')); done.
Qed.

Lemma Map_get_delete_eq m k : Map_get (Map_delete m k) k = None.
Proof.
  induction m as [|[k' v'] m IH]; simpl; [done|].
  destruct (decide (k' = k)); simpl; [done|].
  rewrite decide_False; done.
Qed.

Lemma Map_get_delete_ne m k k' :
  k ≠ k' -> Map_get (Map_delete m k) k' = Map_get m k'.
Proof.
  intros Hne. induction m as [|[k0 v0] m IH]; simpl; [done|].
  destruct (decide (k0 = k)) as [->|]; simpl.
  - rewrite decide_False; done.
  - destruct (decide (k0 = k')); done.
Qed.

Lemma Map_get_Some_elem m k v : Map_get m k = Some v -> (k, v) ∈ m.
Proof.
  induction m as [|[k' v'] m IH]; simpl; [done|].
  destruct (decide (k' = k)) as [->|].
  - intros [= ->]. left.
  - intros Hm. right. auto.
Qed.

Lemma Map_get_None_keys m k : Map_get m k = None <-> k ∉ m.*1.
Proof.
  induction m as [|[k' v'] m IH]; simpl.
  - split; [intros _; apply not_elem_of_nil | done].
  - destruct (decide (k' = k)) as [->|].
    + split; [done|]. intros Hn. exfalso. apply Hn. left.
    + rewrite IH, not_elem_of_cons. naive_solver.
Qed.

Lemma Map_set_keys_elem m k v k' :
  k' ∈ (Map_set m k v).*1 <-> k' = k ∨ k' ∈ m.*1.
Proof.
  induction m as [|[k0 v0] m IH]; simpl.
  - rewrite list_elem_of_singleton, elem_of_nil. naive_solver.
  - destruct (decide (k0 = k)) as [->|]; simpl.
    + rewrite !elem_of_cons. naive_solver.
    + rewrite !elem_of_cons, IH. naive_solver.
Qed.

Lemma Map_set_NoDup m k v : NoDup m.*1 -> NoDup (Map_set m k v).*1.
Proof.
  induction m as [|[k0 v0] m IH]; simpl; intros Hnd.
  - apply NoDup_singleton.
  - apply NoDup_cons in Hnd as [Hni Hnd].
    destruct (decide (k0 = k)) as [->|]; simpl.
    + apply NoDup_cons; done.
    + apply NoDup_cons. split; [|auto].
      rewrite Map_set_keys_elem. naive_solver.
Qed.

Lemma Map_set_elem m k v k' v' :
  (k', v') ∈ Map_set m k v -> (k', v') = (k, v) ∨ (k', v') ∈ m.
Proof.
  induction m as [|[k0 v0] m IH]; simpl.
  - rewrite list_elem_of_singleton. auto.
  - destruct (decide (k0 = k)) as [->|]; rewrite !elem_of_cons; naive_solver.
Qed.

Lemma Map_delete_elem m k k' v' :
  (k', v') ∈ Map_delete m k -> (k', v') ∈ m.
Proof.
  induction m as [|[k0 v0] m IH]; simpl; [done|].
  destruct (decide (k0 = k)) as [->|]; rewrite ?elem_of_cons; naive_solver.
Qed.

Lemma Map_delete_NoDup m k : NoDup m.*1 -> NoDup (Map_delete m k).*1.
Proof.
  induction m as [|[k0 v0] m IH]; simpl; intros Hnd; [done|].
  apply NoDup_cons in Hnd as [Hni Hnd].
  destruct (decide (k0 = k)) as [->|]; simpl; [auto|].
  apply NoDup_cons. split; [|auto].
  intros Hin. apply Hni.
  apply list_elem_of_fmap in Hin as [[k1 v1] [-> Hin]].
  apply Map_delete_elem in Hin.
  apply list_elem_of_fmap. exists (k1, v1). done.
Qed.
End Basics.

(** ** The profit-locking engine: bookkeeping of the live map *)

Section EngineFrame.
Context {math : MathLib}.
Import ProfitLockingEngine.
Local Open Scope Q_scope.

Implicit Types (e : ProfitLockingEngine.t) (q p : Position.t)
  (prices : gmap string Q) (now : Z) (effs : list Effect).

(** One visit, by whether the symbol has a fresh price. *)
Lemma visitPosition_eq prices now e effs k q :
  visitPosition prices now (e, effs) (k, q) =
  match freshPrice prices (Position.symbol q) with
  | Some price =>
      let updated := updatePosition (config e) q price now in
      let e1 :=
        {| positions := Map_set (positions e) k updated;
           priceHistory := recordPrice e (Position.symbol q) price;
           signalIdMap := signalIdMap e;
           config := config e |} in
      match checkExitConditions (config e) updated now with
      | Some reason =>
          ((exitPosition e1 updated reason).1,
           effs ++ [UpdatePosition updated] ++ (exitPosition e1 updated reason).2)
      | None => (e1, effs ++ [UpdatePosition updated])
      end
  | None => (e, effs)
  end.
Proof.
  unfold visitPosition, freshPrice.
  destruct (prices !! Position.symbol q) as [price|]; [|reflexivity].
  destruct (truthy price); [|reflexivity].
  simpl. destruct (checkExitConditions _ _ _); reflexivity.
Qed.

Lemma updatePosition_id c q price now :
  Position.id (updatePosition c q price now) = Position.id q.
Proof. reflexivity. Qed.

Lemma updatePosition_symbol c q price now :
  Position.symbol (updatePosition c q price now) = Position.symbol q.
Proof. reflexivity. Qed.

Lemma visitPosition_config prices now e effs k q :
  config (visitPosition prices now (e, effs) (k, q)).1 = config e.
Proof.
  rewrite visitPosition_eq.
  destruct (freshPrice _ _); [|reflexivity].
  simpl. destruct (checkExitConditions _ _ _); reflexivity.
Qed.

Lemma visitPosition_other prices now e effs k q id :
  Position.id q = k -> id ≠ k ->
  getPosition (visitPosition prices now (e, effs) (k, q)).1 id
  = getPosition e id.
Proof.
  intros Hid Hne. rewrite visitPosition_eq.
  destruct (freshPrice _ _) as [price|]; [|reflexivity].
  simpl. destruct (checkExitConditions _ _ _); unfold getPosition; simpl.
  - rewrite Hid, Map_get_delete_ne by done.
    apply Map_get_set_ne. done.
  - apply Map_get_set_ne. done.
Qed.

Lemma visitPosition_self prices now e effs k q :
  Position.id q = k ->
  getPosition (visitPosition prices now (e, effs) (k, q)).1 k
  = match freshPrice prices (Position.symbol q) with
    | Some price => afterTick (config e) q price now
    | None => getPosition e k
    end.
Proof.
  intros Hid. rewrite visitPosition_eq. unfold afterTick.
  destruct (freshPrice _ _) as [price|]; [|reflexivity].
  simpl. destruct (checkExitConditions _ _ _); unfold getPosition; simpl.
  - rewrite Hid. apply Map_get_delete_eq.
  - apply Map_get_set_eq.
Qed.

(** The whole [forEach], for one id. *)
Lemma visitAll_lookup prices now todo : forall e effs id,
  NoDup todo.*1 ->
  (forall k q, (k, q) ∈ todo -> Position.id q = k) ->
  getPosition (fold_left (visitPosition prices now) todo (e, effs)).1 id
  = match Map_get todo id with
    | Some q =>
        match freshPrice prices (Position.symbol q) with
        | Some price => afterTick (config e) q price now
        | None => getPosition e id
        end
    | None => getPosition e id
    end.
Proof.
  induction todo as [|[k q] todo IH]; intros e effs id Hnd Hids; [reflexivity|].
  simpl in Hnd. apply NoDup_cons in Hnd as [Hfresh Hnd].
  assert (Hk : Position.id q = k) by (apply Hids; left).
  assert (Hids' : forall k' q', (k', q') ∈ todo -> Position.id q' = k')
    by (intros; apply Hids; right; done).
  cbn [fold_left].
  destruct (visitPosition prices now (e, effs) (k, q)) as [e1 effs1] eqn:Hv.
  rewrite (IH e1 effs1 id Hnd Hids').
  assert (Hc : config e1 = config e).
  { change e1 with (e1, effs1).1. rewrite <- Hv. apply visitPosition_config. }
  simpl Map_get. destruct (decide (k = id)) as [->|Hne].
  - apply Map_get_None_keys in Hfresh. rewrite Hfresh.
    change e1 with (e1, effs1).1. rewrite <- Hv.
    apply visitPosition_self. done.
  - assert (Ho : getPosition e1 id = getPosition e id).
    { change e1 with (e1, effs1).1. rewrite <- Hv.
      apply visitPosition_other; done. }
    rewrite Ho, Hc. reflexivity.
Qed.

Lemma updatePositions_lookup e prices now id q :
  liveMapOk e ->
  getPosition e id = Some q ->
  getPosition (updatePositions e prices now).1 id
  = match freshPrice prices (Position.symbol q) with
    | Some price => afterTick (config e) q price now
    | None => Some q
    end.
Proof.
  intros [Hnd Hids] Hq. unfold updatePositions.
  rewrite visitAll_lookup by done.
  unfold getPosition in Hq. rewrite Hq.
  destruct (freshPrice _ _); [reflexivity|done].
Qed.

Lemma updatePositions_lookup_None e prices now id :
  liveMapOk e ->
  getPosition e id = None ->
  getPosition (updatePositions e prices now).1 id = None.
Proof.
  intros [Hnd Hids] Hq. unfold updatePositions.
  rewrite visitAll_lookup by done.
  unfold getPosition in Hq. rewrite Hq. done.
Qed.

(** The live map stays a map. *)
Lemma visitPosition_ok prices now e effs k q :
  liveMapOk e -> Position.id q = k ->
  liveMapOk (visitPosition prices now (e, effs) (k, q)).1.
Proof.
  intros [Hnd Hids] Hk. rewrite visitPosition_eq.
  destruct (freshPrice _ _) as [price|]; [|done].
  assert (Hset : liveMapOk
    {| positions := Map_set (positions e) k (updatePosition (config e) q price now);
       priceHistory := recordPrice e (Position.symbol q) price;
       signalIdMap := signalIdMap e;
       config := config e |}).
  { split; simpl.
    - apply Map_set_NoDup. done.
    - intros k' p' Hin. apply Map_set_elem in Hin as [[= -> ->]|Hin]; auto. }
  simpl. destruct (checkExitConditions _ _ _); [|exact Hset].
  destruct Hset as [Hnd' Hids']. split; simpl in *.
  - apply Map_delete_NoDup. done.
  - intros k' p' Hin. apply Map_delete_elem in Hin. auto.
Qed.

Lemma visitAll_ok prices now todo : forall e effs,
  liveMapOk e ->
  (forall k q, (k, q) ∈ todo -> Position.id q = k) ->
  liveMapOk (fold_left (visitPosition prices now) todo (e, effs)).1.
Proof.
  induction todo as [|[k q] todo IH]; intros e effs Hok Hids; [done|].
  cbn [fold_left].
  destruct (visitPosition prices now (e, effs) (k, q)) as [e1 effs1] eqn:Hv.
  apply IH.
  - change e1 with (e1, effs1).1. rewrite <- Hv.
    apply visitPosition_ok; [done|]. apply Hids. left.
  - intros. apply Hids. right. done.
Qed.

Lemma updatePositions_ok e prices now :
  liveMapOk e -> liveMapOk (updatePositions e prices now).1.
Proof.
  intros Hok. apply visitAll_ok; [done|]. apply Hok.
Qed.

Lemma visitAll_config prices now todo : forall e effs,
  config (fold_left (visitPosition prices now) todo (e, effs)).1 = config e.
Proof.
  induction todo as [|[k q] todo IH]; intros e effs; [done|].
  cbn [fold_left].
  destruct (visitPosition prices now (e, effs) (k, q)) as [e1 effs1] eqn:Hv.
  rewrite IH. change e1 with (e1, effs1).1. rewrite <- Hv.
  apply visitPosition_config.
Qed.

Lemma updatePositions_config e prices now :
  config (updatePositions e prices now).1 = config e.
Proof. apply visitAll_config. Qed.

(** A call of [addPosition] leaves the engine as it was (a rejection or a
    [TypeError]), or stores the position it has built. *)
Lemma afterAdd_cases e signal size signalId now :
  afterAdd e signal size signalId now = e
  ∨ exists method,
      selectProfitLockMethod signal = Some method
      ∧ ofNat (length (positions e)) < TradingConfig.maxPositions (config e)
      ∧ (liveCount e (TradingSignal.symbol signal) < 3)%nat
      ∧ positions (afterAdd e signal size signalId now)
        = Map_set (positions e)
            (TradingSignal.symbol signal +:+ "_" +:+ pretty now)
            (entryPosition e signal size method now)
      ∧ config (afterAdd e signal size signalId now) = config e
      ∧ (signalIdMap (afterAdd e signal size signalId now) = signalIdMap e
         ∨ exists sid,
             signalIdMap (afterAdd e signal size signalId now)
             = <[TradingSignal.symbol signal +:+ "_" +:+ pretty now := sid]>
                 (signalIdMap e)).
Proof.
  unfold afterAdd, addPosition, liveCount.
  destruct (_ >=? _)%js eqn:Hglobal; [left; done|]. apply geb_lt in Hglobal.
  destruct (3 <=? _)%nat eqn:Hsym; [left; done|]. apply Nat.leb_gt in Hsym.
  destruct (selectProfitLockMethod signal) as [method|]; [|left; done].
  right. exists method. simpl. repeat split; try done.
  destruct signalId as [sid|]; [|left; done].
  destruct (decide (sid = "")); [left; done|right; eauto].
Qed.

Lemma addPosition_ok e signal size signalId now :
  liveMapOk e -> liveMapOk (afterAdd e signal size signalId now).
Proof.
  intros [Hnd Hids].
  destruct (afterAdd_cases e signal size signalId now)
    as [->|(method & _ & _ & _ & Hpos & _)]; [done|].
  split; rewrite Hpos.
  - apply Map_set_NoDup. done.
  - intros k p Hin. apply Map_set_elem in Hin as [[= -> ->]|Hin]; auto.
Qed.

Lemma removePosition_ok e id : liveMapOk e -> liveMapOk (removePosition e id).
Proof.
  intros [Hnd Hids]. split; simpl.
  - apply Map_delete_NoDup. done.
  - intros k p Hin. apply Map_delete_elem in Hin. auto.
Qed.

Lemma engineReachable_ok e : engineReachable e -> liveMapOk e.
Proof.
  induction 1.
  - split; simpl; [apply NoDup_nil_2|]. intros k p Hin.
    apply elem_of_nil in Hin. done.
  - apply addPosition_ok. done.
  - apply updatePositions_ok. done.
  - apply removePosition_ok. done.
  - done.
Qed.

Lemma runTicks_ok ticks : forall e, liveMapOk e -> liveMapOk (runTicks e ticks).
Proof.
  induction ticks as [|tick ticks IH]; intros e Hok; [done|].
  apply IH. apply updatePositions_ok. done.
Qed.

Lemma runTicks_lookup_None ticks : forall e id,
  liveMapOk e -> getPosition e id = None ->
  getPosition (runTicks e ticks) id = None.
Proof.
  induction ticks as [|tick ticks IH]; intros e id Hok Hq; [done|].
  apply IH.
  - apply updatePositions_ok. done.
  - apply updatePositions_lookup_None; done.
Qed.
End EngineFrame.

(** ** The profit-locking engine: positions under price updates *)

Section EngineTicks.
Context {math : MathLib}.
Import ProfitLockingEngine.
Local Open Scope Q_scope.

Implicit Types (e : ProfitLockingEngine.t) (q p : Position.t)
  (prices : gmap string Q) (now : Z) (effs : list Effect).

Lemma Map_get_elem_NoDup {V} (m : list (string * V)) k v :
  NoDup m.*1 -> (k, v) ∈ m -> Map_get m k = Some v.
Proof.
  induction m as [|[k' v'] m IH]; simpl; intros Hnd Hin.
  - apply elem_of_nil in Hin. done.
  - apply NoDup_cons in Hnd as [Hni Hnd].
    apply elem_of_cons in Hin as [[= -> ->]|Hin].
    + rewrite decide_True; done.
    + destruct (decide (k' = k)) as [->|]; [|auto].
      exfalso. apply Hni. apply list_elem_of_fmap. exists (k, v). done.
Qed.

(** A position that is live after a tick was live before it, and is either
    untouched or the update of what it was. *)
Lemma updatePositions_cases e prices now id p' :
  liveMapOk e ->
  getPosition (updatePositions e prices now).1 id = Some p' ->
  exists q, getPosition e id = Some q
    ∧ (p' = q
       ∨ exists price, freshPrice prices (Position.symbol q) = Some price
           ∧ p' = updatePosition (config e) q price now).
Proof.
  intros Hok Hp'. destruct (getPosition e id) as [q|] eqn:Hq.
  - exists q. split; [done|].
    rewrite (updatePositions_lookup e prices now id q Hok Hq) in Hp'.
    destruct (freshPrice _ _) as [price|]; [|left; congruence].
    right. exists price. split; [done|].
    unfold afterTick in Hp'.
    destruct (checkExitConditions _ _ _); congruence.
  - rewrite updatePositions_lookup_None in Hp'; done.
Qed.

Lemma updatePosition_drawdown c q price now :
  Position.maxDrawdownFromPeak q
    <= Position.maxDrawdownFromPeak (updatePosition c q price now)
  ∧ (Position.maxDrawdownFromPeak q <= 5 ->
     Position.maxDrawdownFromPeak (updatePosition c q price now) <= 5).
Proof.
  simpl. unfold Math_max, Math_min. split.
  - apply Q.le_max_l.
  - intros Hb. apply Q.max_lub; [done|].
    eapply Qle_trans; [apply Q.le_min_r|]. lra.
Qed.

Lemma updatePosition_drawdown_nonneg c q price now :
  0 <= Position.maxDrawdownFromPeak q ->
  0 <= Position.maxDrawdownFromPeak (updatePosition c q price now).
Proof.
  intros Hb. pose proof (updatePosition_drawdown c q price now) as [Hm _]. lra.
Qed.

Lemma runTicks_drawdown id p' ticks : forall e p,
  liveMapOk e ->
  getPosition e id = Some p ->
  getPosition (runTicks e ticks) id = Some p' ->
  Position.maxDrawdownFromPeak p <= Position.maxDrawdownFromPeak p'
  ∧ (Position.maxDrawdownFromPeak p <= 5 ->
     Position.maxDrawdownFromPeak p' <= 5).
Proof.
  induction ticks as [|[prices now] ticks IH]; intros e p Hok Hp Hp'.
  - simpl in Hp'. assert (p' = p) as -> by congruence. split; [lra|done].
  - change (runTicks e ((prices, now) :: ticks))
      with (runTicks (updatePositions e prices now).1 ticks) in Hp'.
    pose proof (updatePositions_ok e prices now Hok) as Hok1.
    destruct (getPosition (updatePositions e prices now).1 id) as [p1|] eqn:Hp1.
    + destruct (IH _ p1 Hok1 Hp1 Hp') as [Hmono Hcap].
      apply updatePositions_cases in Hp1 as (q & Hq & Hcase); [|done].
      assert (q = p) as -> by congruence.
      destruct Hcase as [->|(price & _ & ->)]; [done|].
      pose proof (updatePosition_drawdown (config e) p price now) as [Hm Hc].
      split; [lra|auto].
    + rewrite runTicks_lookup_None in Hp'; done.
Qed.

(** Every live position of an engine built by the public operations has
    its recorded drawdown within [0, 5]. *)
Lemma engineReachable_drawdown e :
  engineReachable e ->
  forall k p, (k, p) ∈ positions e ->
    0 <= Position.maxDrawdownFromPeak p <= 5.
Proof.
  induction 1 as [c|e signal size signalId now Hr IH
                 |e prices now Hr IH|e id Hr IH|e c Hr IH]; intros k p Hin.
  - apply elem_of_nil in Hin. done.
  - destruct (afterAdd_cases e signal size signalId now)
      as [Hsame|(method & _ & _ & _ & Hpos & _)].
    + rewrite Hsame in Hin. eapply IH. done.
    + rewrite Hpos in Hin. apply Map_set_elem in Hin as [[= -> ->]|Hin].
      * simpl. lra.
      * eapply IH. done.
  - pose proof (engineReachable_ok e Hr) as Hok.
    pose proof (updatePositions_ok e prices now Hok) as [Hnd _].
    apply (Map_get_elem_NoDup _ _ _ Hnd) in Hin.
    apply updatePositions_cases in Hin as (q & Hq & Hcase); [|done].
    apply Map_get_Some_elem in Hq. apply IH in Hq.
    destruct Hcase as [->|(price & _ & ->)]; [done|].
    pose proof (updatePosition_drawdown (config e) q price now) as [Hm Hc].
    split; [lra|apply Hc; lra].
  - simpl in Hin. apply Map_delete_elem in Hin. eapply IH. done.
  - eapply IH. done.
Qed.

(** C1. Over any sequence of price updates applied by [updatePositions] to
    an engine built by the public operations, the [maxDrawdownFromPeak] of
    a position that is live before and after never decreases, and it never
    exceeds 5. *)
Theorem maxDrawdown_monotone_clamped e ticks id p p' :
  engineReachable e ->
  getPosition e id = Some p ->
  getPosition (runTicks e ticks) id = Some p' ->
  Position.maxDrawdownFromPeak p <= Position.maxDrawdownFromPeak p'
  ∧ Position.maxDrawdownFromPeak p' <= 5.
Proof.
  intros Hr Hp Hp'.
  pose proof (engineReachable_ok e Hr) as Hok.
  destruct (runTicks_drawdown id p' ticks e p Hok Hp Hp') as [Hmono Hcap].
  split; [done|]. apply Hcap.
  apply Map_get_Some_elem in Hp.
  apply (engineReachable_drawdown e Hr) in Hp. lra.
Qed.

Lemma updateTrailingStop_ratchet c method side price stop :
  match side with
  | long => stop <= updateTrailingStop c method side price stop
  | short => updateTrailingStop c method side price stop <= stop
  end.
Proof.
  unfold updateTrailingStop. destruct side.
  - destruct (_ >? _)%js eqn:Hb; [|lra].
    apply gtb_gt in Hb. lra.
  - destruct (_ <? _)%js eqn:Hb; [|lra].
    apply ltb_lt in Hb. lra.
Qed.

(** C2. One call of [updatePositions] never lowers the trailing stop of a
    long position and never raises that of a short position; the side
    itself is unchanged. *)
Theorem trailingStop_ratchets e prices now id p p' :
  liveMapOk e ->
  getPosition e id = Some p ->
  getPosition (updatePositions e prices now).1 id = Some p' ->
  Position.side p' = Position.side p
  ∧ match Position.side p with
    | long => Position.trailingStopPrice p <= Position.trailingStopPrice p'
    | short => Position.trailingStopPrice p' <= Position.trailingStopPrice p
    end.
Proof.
  intros Hok Hp Hp'.
  apply updatePositions_cases in Hp' as (q & Hq & Hcase); [|done].
  assert (q = p) as -> by congruence.
  destruct Hcase as [->|(price & _ & ->)].
  - split; [done|]. destruct (Position.side p); lra.
  - split; [done|]. simpl.
    apply (updateTrailingStop_ratchet (config e)
             (Position.profitLockMethod p) (Position.side p) price
             (Position.trailingStopPrice p)).
Qed.

(** Every effect of a tick concerns a position whose symbol has a fresh
    price. *)
Lemma visitAll_effects prices now todo : forall e effs,
  (forall eff, eff ∈ effs ->
     is_Some (freshPrice prices (Position.symbol (effectPosition eff)))) ->
  forall eff, eff ∈ (fold_left (visitPosition prices now) todo (e, effs)).2 ->
    is_Some (freshPrice prices (Position.symbol (effectPosition eff))).
Proof.
  induction todo as [|[k q] todo IH]; intros e effs Hpre; [done|].
  cbn [fold_left].
  destruct (visitPosition prices now (e, effs) (k, q)) as [e1 effs1] eqn:Hv.
  apply IH. rewrite visitPosition_eq in Hv.
  destruct (freshPrice prices (Position.symbol q)) as [price|] eqn:Hf.
  - simpl in Hv.
    destruct (checkExitConditions _ _ _); injection Hv as <- <-;
      intros eff Hin; rewrite !elem_of_app in Hin;
      repeat (rewrite ?elem_of_cons, ?elem_of_nil in Hin);
      destruct Hin as [Hin|Hin]; auto;
      repeat (destruct Hin as [->|Hin]; [simpl; rewrite Hf; done|]);
      done.
  - injection Hv as <- <-. done.
Qed.

(** C10. A live position whose symbol has no entry in [currentPrices], or
    the entry [0], is the same after [updatePositions] and still live, and
    no effect of the call (update, close, exit callback) concerns a
    position of its symbol. *)
Theorem updatePositions_skips_unpriced e prices now id p :
  liveMapOk e ->
  getPosition e id = Some p ->
  (prices !! Position.symbol p = None
   ∨ exists price, prices !! Position.symbol p = Some price ∧ price == 0) ->
  getPosition (updatePositions e prices now).1 id = Some p
  ∧ forall eff, eff ∈ (updatePositions e prices now).2 ->
      Position.symbol (effectPosition eff) ≠ Position.symbol p.
Proof.
  intros Hok Hp Hprice.
  assert (Hf : freshPrice prices (Position.symbol p) = None).
  { unfold freshPrice. destruct Hprice as [->|(price & -> & Hz)]; [done|].
    unfold truthy. apply Qeq_bool_iff in Hz. rewrite Hz. done. }
  split.
  - rewrite (updatePositions_lookup e prices now id p Hok Hp), Hf. done.
  - intros eff Hin Hsym.
    apply (visitAll_effects prices now (positions e) e []) in Hin.
    + rewrite Hsym, Hf in Hin. destruct Hin as [? [=]].
    + intros eff' Hin'. apply elem_of_nil in Hin'. done.
Qed.
End EngineTicks.

(** ** The profit-locking engine: opening positions *)

Section EngineEntry.
Import ProfitLockingEngine.
Local Open Scope Q_scope.

Implicit Types (e : ProfitLockingEngine.t) (signal : TradingSignal.t).

(** C4. When the symbol of the signal already has three (or more) live
    positions, or the number of live positions has reached
    [maxPositions], [addPosition] returns (it does not raise) the empty
    id, makes no persistence call and leaves the engine as it was; in
    particular the live count of the symbol is unchanged. *)
Theorem addPosition_rejects_at_cap e signal size signalId now :
  (3 <= liveCount e (TradingSignal.symbol signal))%nat
  ∨ TradingConfig.maxPositions (config e) <= ofNat (length (positions e)) ->
  addPosition e signal size signalId now = Some (e, "", [])
  ∧ liveCount (afterAdd e signal size signalId now)
      (TradingSignal.symbol signal)
    = liveCount e (TradingSignal.symbol signal).
Proof.
  intros Hcap.
  assert (Hrej : addPosition e signal size signalId now = Some (e, "", [])).
  { unfold addPosition.
    destruct (_ >=? _)%js eqn:Hglobal; [reflexivity|].
    apply geb_lt in Hglobal.
    destruct Hcap as [Hsym|Hmax]; [|lra].
    unfold liveCount in Hsym.
    apply Nat.leb_le in Hsym. rewrite Hsym. reflexivity. }
  unfold afterAdd. rewrite Hrej. done.
Qed.

Lemma positionId_nonempty (symbol : string) (now : Z) : symbol +:+ "_" +:+ pretty now ≠ "".
Proof.
  destruct symbol; simpl; discriminate.
Qed.

(** What an accepted call stores under the returned id. *)
Lemma addPosition_accepted e signal size signalId now e' id effs :
  addPosition e signal size signalId now = Some (e', id, effs) ->
  id ≠ "" ->
  exists p, getPosition e' id = Some p
    ∧ Position.symbol p = TradingSignal.symbol signal
    ∧ Position.side p
      = match TradingSignal.action signal with buy => long | _ => short end
    ∧ Position.maxDrawdownFromPeak p = 0
    ∧ Position.originalSignal p = signal.
Proof.
  unfold addPosition.
  destruct (_ >=? _)%js; [intros [= <- <- <-]; done|].
  destruct (3 <=? _)%nat; [intros [= <- <- <-]; done|].
  destruct (selectProfitLockMethod signal) as [method|]; [|done].
  intros [= <- <- <-] _. eexists. split.
  - unfold getPosition. simpl. apply Map_get_set_eq.
  - done.
Qed.

(** The lookup of the method finds an inherited member exactly under the
    names of the properties of [Object.prototype]. *)
Lemma selectProfitLockMethod_None signal :
  selectProfitLockMethod signal = None
  <-> TradingSignal.strategy signal ∈ objectPrototypeKeys.
Proof.
  unfold selectProfitLockMethod.
  repeat (destruct (decide (TradingSignal.strategy signal = _)) as [->|?];
          [split; [discriminate|]; intros Hin;
           match type of Hin with
           | ?x ∈ ?keys =>
               assert (Hnot : bool_decide (x ∈ keys) = false)
                 by (vm_compute; reflexivity);
               apply bool_decide_eq_false in Hnot; done
           end|]).
  destruct (decide (_ ∈ _)); split; done.
Qed.

(** C9. For a signal whose action is not [buy] (so also for [hold]): a
    call of [addPosition] raises a [TypeError] exactly when neither cap is
    reached and the strategy of the signal names a property of
    [Object.prototype]; it returns an id, accepting the signal whatever
    its action, exactly when neither cap is reached and the strategy names
    none; and the position stored under a returned id is short. *)
Theorem addPosition_non_buy_is_short e signal size signalId now :
  TradingSignal.action signal ≠ buy ->
  let room :=
    (liveCount e (TradingSignal.symbol signal) < 3)%nat
    ∧ ofNat (length (positions e)) < TradingConfig.maxPositions (config e) in
  match addPosition e signal size signalId now with
  | None => room ∧ TradingSignal.strategy signal ∈ objectPrototypeKeys
  | Some (e', id, _) =>
      (id ≠ ""
       <-> room ∧ TradingSignal.strategy signal ∉ objectPrototypeKeys)
      ∧ (id ≠ "" ->
         exists p, getPosition e' id = Some p ∧ Position.side p = short)
  end.
Proof.
  intros Haction room.
  pose proof (selectProfitLockMethod_None signal) as Hinherited.
  destruct (addPosition e signal size signalId now) as [[[e' id] effs]|]
    eqn:Hadd.
  - split.
    + revert Hadd. unfold addPosition, room, liveCount.
      destruct (_ >=? _)%js eqn:Hglobal.
      * intros [= <- <- <-]. apply geb_ge in Hglobal.
        split; [done|]. intros [[_ Hlt] _]. lra.
      * apply geb_lt in Hglobal.
        destruct (3 <=? _)%nat eqn:Hsym.
        -- intros [= <- <- <-]. apply Nat.leb_le in Hsym.
           split; [done|]. intros [[Hlt _] _]. lia.
        -- apply Nat.leb_gt in Hsym.
           destruct (selectProfitLockMethod signal) as [method|]; [|done].
           intros [= <- <- <-].
           split; [|intros _; apply positionId_nonempty].
           intros _. split; [done|].
           intros Hin. apply Hinherited in Hin. done.
    + intros Hid.
      destruct (addPosition_accepted _ _ _ _ _ _ _ _ Hadd Hid)
        as (p & Hp & _ & Hside & _).
      exists p. split; [done|]. rewrite Hside.
      destruct (TradingSignal.action signal); done.
  - revert Hadd. unfold addPosition, room, liveCount.
    destruct (_ >=? _)%js eqn:Hglobal; [done|]. apply geb_lt in Hglobal.
    destruct (3 <=? _)%nat eqn:Hsym; [done|]. apply Nat.leb_gt in Hsym.
    destruct (selectProfitLockMethod signal) as [method|]; [done|].
    intros _. split; [done|]. apply Hinherited. done.
Qed.
End EngineEntry.

(** ** The profit-locking engine on the sample position *)

Section EngineSamples.
Import ProfitLockingEngine.
Local Open Scope Q_scope.

Lemma engine1_reachable : engineReachable (math := SampleMath.lib) Samples.engine1.
Proof. unfold Samples.engine1, Samples.engine0. apply reach_addPosition, reach_new. Qed.

(** Entered at 100, the price goes to 110 and then to 95: the peak stays
    at 10 and the drawdown from the peak is recorded as 1.5. *)
Example scenario_drawdown :
  (fun p => (Position.unrealizedPnL p, Position.peakPnL p,
             Position.maxDrawdownFromPeak p))
    <$> getPosition (runTicks (math := SampleMath.lib) Samples.engine1 Samples.ticks)
          "BTCUSDT_1000"
  = Some (-5, 10, 1.5).
Proof. vm_compute. reflexivity. Qed.

Lemma maxDrawdown_monotone_clamped_witness :
  exists p p',
    getPosition Samples.engine1 "BTCUSDT_1000" = Some p
    ∧ getPosition (runTicks (math := SampleMath.lib) Samples.engine1 Samples.ticks)
        "BTCUSDT_1000" = Some p'
    ∧ Position.maxDrawdownFromPeak p <= Position.maxDrawdownFromPeak p'
    ∧ Position.maxDrawdownFromPeak p' <= 5.
Proof.
  eexists _, _. split; [vm_compute; reflexivity|].
  split; [vm_compute; reflexivity|].
  apply (maxDrawdown_monotone_clamped (math := SampleMath.lib)
           Samples.engine1 Samples.ticks "BTCUSDT_1000").
  - apply engine1_reachable.
  - vm_compute. reflexivity.
  - vm_compute. reflexivity.
Defined.

Lemma trailingStop_ratchets_witness :
  exists p p',
    getPosition Samples.engine1 "BTCUSDT_1000" = Some p
    ∧ getPosition
        (updatePositions (math := SampleMath.lib) Samples.engine1
           {["BTCUSDT" := 110]} 2000).1 "BTCUSDT_1000" = Some p'
    ∧ Position.side p' = Position.side p
    ∧ Position.side p = long
    ∧ Position.trailingStopPrice p <= Position.trailingStopPrice p'.
Proof.
  eexists _, _. split; [vm_compute; reflexivity|].
  split; [vm_compute; reflexivity|].
  pose proof (trailingStop_ratchets (math := SampleMath.lib)
                Samples.engine1 {["BTCUSDT" := 110]} 2000 "BTCUSDT_1000") as Hthm.
  edestruct Hthm as [Hside Hstop].
  - apply (engineReachable_ok (math := SampleMath.lib)), engine1_reachable.
  - vm_compute. reflexivity.
  - vm_compute. reflexivity.
  - split; [exact Hside|]. split; [reflexivity|]. exact Hstop.
Defined.

Lemma updatePositions_skips_unpriced_witness :
  exists p,
    getPosition Samples.engine1 "BTCUSDT_1000" = Some p
    ∧ getPosition
        (updatePositions (math := SampleMath.lib) Samples.engine1
           {["ETHUSDT" := 2000; "BTCUSDT" := 0]} 20000).1 "BTCUSDT_1000" = Some p.
Proof.
  eexists. split; [vm_compute; reflexivity|].
  eapply (updatePositions_skips_unpriced (math := SampleMath.lib)
            Samples.engine1 _ 20000 "BTCUSDT_1000").
  - apply (engineReachable_ok (math := SampleMath.lib)), engine1_reachable.
  - vm_compute. reflexivity.
  - right. exists 0. split; [vm_compute; reflexivity|reflexivity].
Defined.

Lemma addPosition_rejects_at_cap_witness :
  liveCount Samples.engine3 "BTCUSDT" = 3%nat
  ∧ addPosition Samples.engine3 (Samples.signal "BTCUSDT" buy 100 1003) 1 None 1003
    = Some (Samples.engine3, "", []).
Proof.
  split; [vm_compute; reflexivity|].
  apply (addPosition_rejects_at_cap Samples.engine3
           (Samples.signal "BTCUSDT" buy 100 1003) 1 None 1003).
  left. vm_compute. apply le_n.
Defined.

(** A [hold] signal on an empty engine is accepted and opens a short. *)
Example hold_opens_short :
  exists e',
    addPosition Samples.engine0 (Samples.signal "BTCUSDT" hold 100 1000) 1
      None 1000 = Some (e', "BTCUSDT_1000", [])
    ∧ Position.side <$> getPosition e' "BTCUSDT_1000" = Some short.
Proof. vm_compute. eexists. split; reflexivity. Qed.

(** A signal of a strategy called [toString] is neither accepted nor
    rejected: the call raises. *)
Example inherited_strategy_raises :
  addPosition Samples.engine0 MoreSamples.inheritedSignal 1 None 1000 = None.
Proof. vm_compute. reflexivity. Qed.

Lemma addPosition_non_buy_is_short_witness :
  exists e',
    addPosition Samples.engine0 (Samples.signal "BTCUSDT" hold 100 1000) 1
      None 1000 = Some (e', "BTCUSDT_1000", [])
    ∧ exists p,
        getPosition e' "BTCUSDT_1000" = Some p ∧ Position.side p = short.
Proof.
  destruct hold_opens_short as (e' & Hadd & _).
  exists e'. split; [exact Hadd|].
  pose proof (addPosition_non_buy_is_short Samples.engine0
                (Samples.signal "BTCUSDT" hold 100 1000) 1 None 1000) as Hshort.
  rewrite Hadd in Hshort. apply Hshort; discriminate.
Defined.
End EngineSamples.

(** ** The feature engine: history buffers *)

Section FeatureBuffers.
Import FeatureEngine.

Implicit Types (fe : FeatureEngine.t) (symbol : string).

Lemma new_aligned : buffersAligned FeatureEngine.new.
Proof. intros symbol [prices Hp]. simpl in Hp. rewrite lookup_empty in Hp. done. Qed.

(** The ticker path creates the buffers of an unknown symbol and never
    raises on aligned buffers. *)
Lemma recordTicker_aligned fe entry :
  buffersAligned fe ->
  (recordTicker fe entry).2 = Normal
  ∧ buffersAligned (recordTicker fe entry).1
  ∧ is_Some (priceHistory (recordTicker fe entry).1 !! entry.1).
Proof.
  intros Hal. destruct entry as [symbol ticker]. unfold recordTicker.
  destruct (priceHistory fe !! symbol) as [prices|] eqn:Hp; simpl.
  - destruct (Hal symbol) as [[volumes Hv] [books Hb]]; [eauto|].
    rewrite Hv.
    destruct (_ <? _)%nat; simpl; (split; [done|]); (split;
      [ intros s Hs; simpl in *;
        destruct (decide (s = symbol)) as [->|Hne];
          [ rewrite ?lookup_insert_eq; eauto
          | rewrite ?lookup_insert_ne in * by done; auto ]
      | rewrite ?lookup_insert_eq; eauto ]).
  - rewrite lookup_insert_eq.
    destruct (_ <? _)%nat; simpl; (split; [done|]); (split;
      [ intros s Hs; simpl in *;
        destruct (decide (s = symbol)) as [->|Hne];
          [ rewrite ?lookup_insert_eq; eauto
          | rewrite ?lookup_insert_ne in * by done; auto ]
      | rewrite ?lookup_insert_eq; eauto ]).
Qed.

Lemma recordOrderBook_aligned fe entry :
  buffersAligned fe -> buffersAligned (recordOrderBook fe entry).1.
Proof.
  intros Hal. destruct entry as [symbol book]. unfold recordOrderBook.
  destruct (orderBookHistory fe !! symbol) as [books|] eqn:Hb; [|done].
  intros s Hs. simpl in *. destruct (Hal s Hs) as [Hv Ho]. split; [done|].
  destruct (decide (s = symbol)) as [->|Hne].
  - rewrite lookup_insert_eq. eauto.
  - rewrite lookup_insert_ne by done. done.
Qed.

(** The order-book path raises exactly on a symbol without a buffer. *)
Lemma recordOrderBook_raises fe symbol book :
  (recordOrderBook fe (symbol, book)).2 = Raised
  <-> orderBookHistory fe !! symbol = None.
Proof.
  unfold recordOrderBook.
  destruct (orderBookHistory fe !! symbol); simpl; split; done.
Qed.

Lemma forEach_invariant {S A} (P : S -> Prop) (f : S -> A -> S * completion) xs :
  (forall s x, P s -> P (f s x).1) ->
  forall s, P s -> P (forEach f s xs).1.
Proof.
  intros Hstep. induction xs as [|x xs IH]; intros s Hs; [done|].
  simpl. pose proof (Hstep s x Hs) as Hs'.
  destruct (f s x) as [s' []]; simpl in *; auto.
Qed.

Lemma updateData_aligned fe marketData :
  buffersAligned fe -> buffersAligned (updateData fe marketData).1.
Proof.
  intros Hal. unfold updateData.
  pose proof (forEach_invariant buffersAligned recordTicker
                (MarketData.tickers marketData)
                (fun s x Hs => proj1 (proj2 (recordTicker_aligned s x Hs)))
                fe Hal) as Hticks.
  destruct (forEach recordTicker fe _) as [fe' []]; simpl in *; [|done].
  apply forEach_invariant; [|done].
  intros s x Hs. apply recordOrderBook_aligned. done.
Qed.

(** The order-book buffers after the ticker loop: those there before, and
    those of the symbols of the tickers. *)
Lemma recordTicker_books fe entry symbol :
  buffersAligned fe ->
  is_Some (orderBookHistory (recordTicker fe entry).1 !! symbol)
  <-> is_Some (orderBookHistory fe !! symbol) ∨ symbol = entry.1.
Proof.
  intros Hal. destruct entry as [other ticker]. unfold recordTicker. simpl.
  destruct (priceHistory fe !! other) as [prices|] eqn:Hp; simpl.
  - destruct (Hal other) as [[volumes Hv] Hb]; [eauto|]. rewrite Hv.
    destruct (_ <? _)%nat; simpl; (split; [auto|]);
      (intros [Hs| ->]; [done|done]).
  - rewrite lookup_insert_eq.
    destruct (_ <? _)%nat; simpl;
      (destruct (decide (symbol = other)) as [->|Hne];
       [ rewrite lookup_insert_eq; split; eauto
       | rewrite lookup_insert_ne by done; split; [auto|];
         intros [Hs|Hs]; done ]).
Qed.

Lemma forEach_recordTicker_books entries : forall fe symbol,
  buffersAligned fe ->
  (forEach recordTicker fe entries).2 = Normal
  ∧ (is_Some (orderBookHistory (forEach recordTicker fe entries).1 !! symbol)
     <-> is_Some (orderBookHistory fe !! symbol) ∨ symbol ∈ entries.*1).
Proof.
  induction entries as [|entry entries IH]; intros fe symbol Hal.
  - simpl. split; [done|]. rewrite elem_of_nil. tauto.
  - simpl. destruct (recordTicker_aligned fe entry Hal) as (Hn & Hal' & _).
    pose proof (recordTicker_books fe entry symbol Hal) as Hstep.
    destruct (recordTicker fe entry) as [fe' c]. simpl in *. subst c.
    destruct (IH fe' symbol Hal') as [Hnorm Hbooks].
    split; [done|]. rewrite Hbooks, Hstep, elem_of_cons. tauto.
Qed.

Lemma recordOrderBook_books fe entry symbol :
  orderBookHistory (recordOrderBook fe entry).1 !! symbol = None
  <-> orderBookHistory fe !! symbol = None.
Proof.
  destruct entry as [other book]. unfold recordOrderBook.
  destruct (orderBookHistory fe !! other) as [books|] eqn:Hb; simpl; [|done].
  destruct (decide (symbol = other)) as [->|Hne].
  - rewrite lookup_insert_eq, Hb. done.
  - rewrite lookup_insert_ne by done. done.
Qed.

Lemma forEach_recordOrderBook_raises entries : forall fe,
  (forEach recordOrderBook fe entries).2 = Raised
  <-> exists entry, entry ∈ entries ∧ orderBookHistory fe !! entry.1 = None.
Proof.
  induction entries as [|[symbol book] entries IH]; intros fe.
  - simpl. split; [done|]. intros (entry & Hin & _).
    apply elem_of_nil in Hin. done.
  - cbn [forEach].
    pose proof (recordOrderBook_raises fe symbol book) as Hraise.
    pose proof (fun s => recordOrderBook_books fe (symbol, book) s) as Hkeep.
    destruct (recordOrderBook fe (symbol, book)) as [fe' []]; simpl in *.
    + rewrite IH. split.
      * intros (entry & Hin & Hnone). exists entry.
        split; [right; done|]. apply Hkeep. done.
      * intros (entry & Hin & Hnone).
        apply elem_of_cons in Hin as [->|Hin].
        -- simpl in Hnone. apply Hraise in Hnone. done.
        -- exists entry. split; [done|]. apply Hkeep. done.
    + split; [|done]. intros _. exists (symbol, book).
      split; [left|]. apply Hraise. done.
Qed.

(** [updateData] raises exactly when it carries an order book of a symbol
    that has no order-book buffer yet and no ticker in the same update. *)
Lemma updateData_raises_iff fe marketData :
  buffersAligned fe ->
  (updateData fe marketData).2 = Raised
  <-> exists entry,
        entry ∈ MarketData.orderBooks marketData
        ∧ orderBookHistory fe !! entry.1 = None
        ∧ entry.1 ∉ (MarketData.tickers marketData).*1.
Proof.
  intros Hal. unfold updateData.
  pose proof (fun s => forEach_recordTicker_books
                         (MarketData.tickers marketData) fe s Hal) as Hticks.
  destruct (forEach recordTicker fe (MarketData.tickers marketData))
    as [fe' c] eqn:Hrun. simpl in Hticks.
  assert (c = Normal) as -> by (apply (Hticks ""); done).
  rewrite forEach_recordOrderBook_raises.
  split; intros (entry & Hin & Hnone).
  - exists entry. split; [done|].
    destruct (Hticks entry.1) as [_ Hbooks].
    rewrite <- not_eq_None_Some in Hbooks.
    split.
    + destruct (orderBookHistory fe !! entry.1) eqn:Hb; [|done].
      exfalso. apply Hbooks; [|done]. left. eauto.
    + intros Hkey. apply Hbooks; [|done]. right. done.
  - destruct Hnone as [Hnone Hkey]. exists entry. split; [done|].
    destruct (Hticks entry.1) as [_ Hbooks].
    destruct (orderBookHistory fe' !! entry.1) eqn:Hb'; [|done].
    exfalso. destruct Hbooks as [Hbooks _].
    destruct Hbooks as [[books Hb]|Hkey']; [eauto|congruence|done].
Qed.

Lemma cleanupOldSymbols_aligned fe activeSymbols :
  buffersAligned fe -> buffersAligned (cleanupOldSymbols fe activeSymbols).
Proof.
  intros Hal symbol [prices Hp]. simpl in *.
  apply map_lookup_filter_Some in Hp as [Hp Hact]. simpl in Hact.
  destruct (Hal symbol) as [[volumes Hv] [books Hb]]; [eauto|].
  split.
  - exists volumes. apply map_lookup_filter_Some. done.
  - exists books. apply map_lookup_filter_Some. done.
Qed.

Lemma featureReachable_aligned fe : featureReachable fe -> buffersAligned fe.
Proof.
  induction 1.
  - apply new_aligned.
  - apply updateData_aligned. done.
  - apply cleanupOldSymbols_aligned. done.
Qed.

Lemma feed_reachable symbol prices : featureReachable (Samples.feed symbol prices).
Proof.
  unfold Samples.feed. generalize FeatureEngine.new, freach_new.
  induction prices as [|price prices IH]; intros fe Hfe; [done|].
  simpl. apply IH. apply freach_updateData. done.
Qed.
End FeatureBuffers.

(** ** The feature engine: extraction and regime *)

Section FeatureExtraction.
Import FeatureEngine.
Local Open Scope Q_scope.

Implicit Types (fe : FeatureEngine.t) (symbol : string).

Lemma calculateOFI_defined fe symbol :
  is_Some (orderBookHistory fe !! symbol) -> is_Some (calculateOFI fe symbol).
Proof.
  intros [books Hb]. unfold calculateOFI. rewrite Hb.
  destruct (rev books) as [|latest [|previous rest]]; eauto.
Qed.

Lemma calculateVPIN_defined fe symbol :
  is_Some (volumeHistory fe !! symbol) -> is_Some (priceHistory fe !! symbol) ->
  is_Some (calculateVPIN fe symbol).
Proof.
  intros [volumes Hv] [prices Hp]. unfold calculateVPIN. rewrite Hv, Hp.
  destruct (_ || _); [eauto|].
  destruct prices, volumes; try destruct (vpinLoop _ _ _ _ _); eauto.
Qed.

(** What [extractFeatures] returns, by the number of samples held. *)
Lemma extractFeatures_few fe symbol now :
  (priceSamples fe symbol < 10)%nat -> extractFeatures fe symbol now = Some None.
Proof.
  unfold priceSamples, extractFeatures.
  destruct (priceHistory fe !! symbol) as [prices|]; simpl; [|done].
  intros Hlt. apply Nat.ltb_lt in Hlt. rewrite Hlt. done.
Qed.

Lemma extractFeatures_enough fe symbol now :
  buffersAligned fe -> (10 <= priceSamples fe symbol)%nat ->
  exists ofi vpin,
    calculateOFI fe symbol = Some ofi ∧ calculateVPIN fe symbol = Some vpin
    ∧ extractFeatures fe symbol now = Some (Some
        {| FeatureSet.vvix := calculateVVIX fe symbol;
           FeatureSet.ofi := ofi;
           FeatureSet.vpin := vpin;
           FeatureSet.correlation := calculateCorrelation fe symbol;
           FeatureSet.liquidity := calculateLiquidity fe symbol;
           FeatureSet.volatility := calculateVolatility fe symbol;
           FeatureSet.momentum := calculateMomentum fe symbol;
           FeatureSet.meanReversion := calculateMeanReversion fe symbol;
           FeatureSet.trend := calculateTrend fe symbol;
           FeatureSet.timestamp := now |}).
Proof.
  intros Hal. unfold priceSamples, extractFeatures.
  destruct (priceHistory fe !! symbol) as [prices|] eqn:Hp; simpl; [|lia].
  intros Hge. apply Nat.ltb_ge in Hge. rewrite Hge.
  destruct (Hal symbol) as [Hv Hb]; [eauto|].
  destruct (calculateOFI_defined fe symbol Hb) as [ofi Hofi].
  destruct (calculateVPIN_defined fe symbol Hv) as [vpin Hvpin]; [eauto|].
  exists ofi, vpin. rewrite Hofi, Hvpin. done.
Qed.

Lemma extractFeatures_by_samples fe symbol now :
  buffersAligned fe ->
  (extractFeatures fe symbol now = Some None
   <-> (priceSamples fe symbol < 10)%nat)
  ∧ ((10 <= priceSamples fe symbol)%nat ->
     exists featureSet, extractFeatures fe symbol now = Some (Some featureSet)).
Proof.
  intros Hal. split.
  - split; [|apply extractFeatures_few].
    intros Hnone. destruct (Nat.lt_ge_cases (priceSamples fe symbol) 10)
      as [Hlt|Hge]; [done|].
    destruct (extractFeatures_enough fe symbol now Hal Hge)
      as (ofi & vpin & _ & _ & Hsome). congruence.
  - intros Hge.
    destruct (extractFeatures_enough fe symbol now Hal Hge)
      as (ofi & vpin & _ & _ & Hsome). eauto.
Qed.

(** C3. On a feature engine built by the public operations,
    [extractFeatures] returns [null] exactly when the engine holds fewer
    than 10 price samples of the symbol, and a feature set when it holds 10
    or more; it never raises. *)
Theorem extractFeatures_none_iff fe symbol now :
  featureReachable fe ->
  (extractFeatures fe symbol now = Some None
   <-> (priceSamples fe symbol < 10)%nat)
  ∧ ((10 <= priceSamples fe symbol)%nat ->
     exists featureSet, extractFeatures fe symbol now = Some (Some featureSet)).
Proof.
  intros Hr. apply extractFeatures_by_samples.
  apply featureReachable_aligned. done.
Qed.

Lemma extractFeatures_none_iff_witness :
  (10 <= priceSamples Samples.swinging "ETHUSDT")%nat
  ∧ exists featureSet,
      extractFeatures Samples.swinging "ETHUSDT" 0 = Some (Some featureSet).
Proof.
  split; [vm_compute; lia|].
  apply (extractFeatures_none_iff Samples.swinging "ETHUSDT" 0).
  - apply feed_reachable.
  - vm_compute. lia.
Defined.

(** *** Samples recorded by a run of [updateData] calls *)

Lemma length_tail_pred {A} (l : list A) : length (tail l) = pred (length l).
Proof. destruct l; done. Qed.

Lemma recordTicker_samples fe symbol ticker :
  buffersAligned fe -> (priceSamples fe symbol <= maxHistoryLength)%nat ->
  priceSamples (recordTicker fe (symbol, ticker)).1 symbol
  = Nat.min (S (priceSamples fe symbol)) maxHistoryLength.
Proof.
  intros Hal. unfold priceSamples, recordTicker.
  destruct (priceHistory fe !! symbol) as [prices|] eqn:Hp; simpl.
  - destruct (Hal symbol) as [[volumes Hv] _]; [eauto|]. rewrite Hv.
    rewrite Hp. simpl. rewrite length_app. simpl.
    intros Hle.
    destruct (_ <? _)%nat eqn:Hcap; simpl; rewrite lookup_insert_eq; simpl.
    + apply Nat.ltb_lt in Hcap.
      rewrite length_tail_pred, length_app. simpl.
      unfold maxHistoryLength in *. lia.
    + apply Nat.ltb_ge in Hcap. rewrite length_app. simpl.
      unfold maxHistoryLength in *. lia.
  - rewrite !lookup_insert_eq. simpl. intros _.
    rewrite lookup_insert_eq. simpl. unfold maxHistoryLength. lia.
Qed.

Lemma recordTicker_samples_other fe symbol entry :
  entry.1 ≠ symbol ->
  priceSamples (recordTicker fe entry).1 symbol = priceSamples fe symbol.
Proof.
  destruct entry as [other ticker]. simpl. intros Hne.
  unfold priceSamples, recordTicker.
  destruct (priceHistory fe !! other) as [prices|] eqn:Hp; simpl.
  - destruct (volumeHistory fe !! other); simpl;
      [destruct (_ <? _)%nat; simpl|];
      rewrite ?lookup_insert_ne by done; done.
  - rewrite lookup_insert_eq.
    destruct (_ <? _)%nat; simpl; rewrite ?lookup_insert_ne by done; done.
Qed.

Lemma recordOrderBook_samples fe symbol entry :
  priceSamples (recordOrderBook fe entry).1 symbol = priceSamples fe symbol.
Proof.
  destruct entry as [other book]. unfold priceSamples, recordOrderBook.
  destruct (orderBookHistory fe !! other); done.
Qed.

Lemma forEach_recordTicker_samples symbol entries : forall fe,
  buffersAligned fe -> (priceSamples fe symbol <= maxHistoryLength)%nat ->
  (forEach recordTicker fe entries).2 = Normal
  ∧ priceSamples (forEach recordTicker fe entries).1 symbol
    = Nat.min (priceSamples fe symbol
               + length (filter (fun entry => entry.1 = symbol) entries))
              maxHistoryLength.
Proof.
  induction entries as [|entry entries IH]; intros fe Hal Hle.
  - simpl. split; [done|]. lia.
  - simpl. destruct (recordTicker_aligned fe entry Hal) as (Hn & Hal' & _).
    destruct (recordTicker fe entry) as [fe' c] eqn:Hrt. simpl in *. subst c.
    assert (Hs : priceSamples fe' symbol
                 = if decide (entry.1 = symbol)
                   then Nat.min (S (priceSamples fe symbol)) maxHistoryLength
                   else priceSamples fe symbol).
    { change fe' with (fe', Normal).1. rewrite <- Hrt.
      destruct (decide (entry.1 = symbol)) as [Heq|Hne].
      - destruct entry as [s ticker]. simpl in Heq. subst s.
        apply recordTicker_samples; done.
      - apply recordTicker_samples_other. done. }
    destruct (IH fe' Hal') as [Hnorm Hcount].
    { rewrite Hs. unfold maxHistoryLength in *. destruct (decide _); lia. }
    split; [done|]. rewrite Hcount, Hs.
    rewrite filter_cons. unfold maxHistoryLength in *.
    destruct (decide (entry.1 = symbol)); simpl; lia.
Qed.

Lemma forEach_recordOrderBook_samples symbol entries : forall fe,
  priceSamples (forEach recordOrderBook fe entries).1 symbol
  = priceSamples fe symbol.
Proof.
  induction entries as [|entry entries IH]; intros fe; [done|].
  simpl. pose proof (recordOrderBook_samples fe symbol entry) as Hs.
  destruct (recordOrderBook fe entry) as [fe' []]; simpl in *.
  - rewrite IH. done.
  - done.
Qed.

(** After any run of [updateData] calls on a new engine, whether or not
    some of them raised, the engine holds as many samples of a symbol as
    ticker entries were delivered for it, up to the cap of 200. *)
Lemma runUpdates_samples symbol updates : forall fe,
  buffersAligned fe -> (priceSamples fe symbol <= maxHistoryLength)%nat ->
  priceSamples (runUpdates fe updates) symbol
  = Nat.min (priceSamples fe symbol + tickerCount symbol updates)
            maxHistoryLength.
Proof.
  unfold tickerCount.
  induction updates as [|marketData updates IH]; intros fe Hal Hle.
  - simpl. lia.
  - simpl. rewrite IH.
    + assert (Hs : priceSamples (updateData fe marketData).1 symbol
                   = Nat.min (priceSamples fe symbol
                        + length (filter (fun entry => entry.1 = symbol)
                                    (MarketData.tickers marketData)))
                       maxHistoryLength).
      { unfold updateData.
        destruct (forEach_recordTicker_samples symbol
                    (MarketData.tickers marketData) fe Hal Hle) as [Hn Hc].
        destruct (forEach recordTicker fe _) as [fe' c]. simpl in *. subst c.
        rewrite forEach_recordOrderBook_samples. done. }
      rewrite Hs, filter_app, length_app.
      set (later := length (filter _ (list_bind _ _ _ updates))).
      change (length (filter _ (updates ≫= MarketData.tickers))) with later.
      lia.
    + apply updateData_aligned. done.
    + unfold updateData.
      destruct (forEach_recordTicker_samples symbol
                  (MarketData.tickers marketData) fe Hal Hle) as [Hn Hc].
      destruct (forEach recordTicker fe _) as [fe' c]. simpl in *. subst c.
      rewrite forEach_recordOrderBook_samples, Hc. lia.
Qed.

(** [extractFeatures] after a run of updates of a new engine: [null]
    exactly when fewer than 10 ticker entries of the symbol were
    delivered. *)
Lemma extractFeatures_after_updates symbol updates now :
  extractFeatures (runUpdates FeatureEngine.new updates) symbol now = Some None
  <-> (tickerCount symbol updates < 10)%nat.
Proof.
  assert (Hr : featureReachable (runUpdates FeatureEngine.new updates)).
  { unfold runUpdates. generalize FeatureEngine.new, freach_new.
    induction updates as [|md updates IH]; intros fe Hfe; [done|].
    simpl. apply IH. apply freach_updateData. done. }
  destruct (extractFeatures_by_samples _ symbol now
              (featureReachable_aligned _ Hr)) as [Hiff _].
  rewrite Hiff, runUpdates_samples.
  - unfold priceSamples, maxHistoryLength. simpl. rewrite lookup_empty. simpl. lia.
  - apply new_aligned.
  - unfold priceSamples. simpl. rewrite lookup_empty. simpl. lia.
Qed.
End FeatureExtraction.

Section FeatureRegime.
Import FeatureEngine.
Local Open Scope Q_scope.

Implicit Types (fe : FeatureEngine.t) (symbol : string).

Lemma calculateMeanReversion_le_1 fe symbol : calculateMeanReversion fe symbol <= 1.
Proof.
  unfold calculateMeanReversion.
  destruct (priceHistory fe !! symbol) as [prices|]; [|lra].
  destruct (_ <? _)%nat; [lra|]. apply Q.le_min_r.
Qed.

Lemma extractFeatures_meanReversion fe symbol now featureSet :
  extractFeatures fe symbol now = Some (Some featureSet) ->
  FeatureSet.meanReversion featureSet = calculateMeanReversion fe symbol.
Proof.
  unfold extractFeatures.
  destruct (priceHistory fe !! symbol) as [prices|]; [|done].
  destruct (_ <? _)%nat; [done|].
  destruct (calculateOFI fe symbol) as [ofi|]; [|done].
  destruct (calculateVPIN fe symbol) as [vpin|]; [|done].
  simpl. intros [= <-]. done.
Qed.

Lemma detectRegime_classify fe symbol now regime :
  detectRegime fe symbol now = Some (Some regime) ->
  exists featureSet,
    extractFeatures fe symbol now = Some (Some featureSet)
    ∧ regime = classify featureSet.
Proof.
  unfold detectRegime.
  destruct (extractFeatures fe symbol now) as [[featureSet|]|]; [|done..].
  intros [= <-]. eauto.
Qed.

(** Ten ticks of one price: no volatility, no trend, a [stable] regime. *)
Example scenario_flat :
  (fun r => (MarketRegime.type r,
             FeatureSet.volatility (MarketRegime.features r),
             FeatureSet.trend (MarketRegime.features r)))
    <$> default None (detectRegime Samples.flat "BTCUSDT" 0)
  = Some (stable, 0, 0 # 825000).
Proof. vm_compute. reflexivity. Qed.

(** A price that alternates between 1 and 4: the regime is [volatile] and
    its confidence, the volatility, is above 1. *)
Example swinging_regime :
  exists regime,
    detectRegime Samples.swinging "ETHUSDT" 0 = Some (Some regime)
    ∧ MarketRegime.type regime = volatile
    ∧ Qle_bool (MarketRegime.confidence regime) 1 = false.
Proof. vm_compute. eexists. repeat split; reflexivity. Qed.

Lemma swinging_reachable : featureReachable Samples.swinging.
Proof. exact (feed_reachable _ _). Qed.

(** C6, as stated, fails: a regime is returned whose confidence is not in
    [0, 1]. *)
Lemma detectRegime_confidence_not_unit_interval :
  ¬ (forall fe symbol now regime,
       featureReachable fe ->
       detectRegime fe symbol now = Some (Some regime) ->
       0 <= MarketRegime.confidence regime <= 1).
Proof.
  intros Hclaim.
  destruct swinging_regime as (regime & Hregime & _ & Hconf).
  destruct (Hclaim Samples.swinging "ETHUSDT" 0%Z regime
              swinging_reachable Hregime) as [_ Hle].
  apply Qle_bool_iff in Hle. congruence.
Qed.

(** C6, amended. The confidence of a returned regime follows the decision
    list: the volatility, above 0.7, for [volatile]; [|trend|], above 0.6,
    for [trending]; the mean-reversion score, above 0.6 and at most 1, for
    [ranging]; 0.5 for [stable].  It is at least 0.5, and it is at most 1
    whenever the volatility and [|trend|] are. *)
Theorem detectRegime_confidence_by_branch fe symbol now regime :
  detectRegime fe symbol now = Some (Some regime) ->
  let featureSet := MarketRegime.features regime in
  let confidence := MarketRegime.confidence regime in
  match MarketRegime.type regime with
  | volatile =>
      confidence = FeatureSet.volatility featureSet ∧ 0.7 < confidence
  | trending =>
      confidence = Math_abs (FeatureSet.trend featureSet) ∧ 0.6 < confidence
  | ranging =>
      confidence = FeatureSet.meanReversion featureSet
      ∧ 0.6 < confidence ∧ confidence <= 1
  | stable => confidence = 0.5
  end
  ∧ 0.5 <= confidence
  ∧ (FeatureSet.volatility featureSet <= 1 ->
     Math_abs (FeatureSet.trend featureSet) <= 1 -> confidence <= 1).
Proof.
  intros Hregime.
  apply detectRegime_classify in Hregime as (featureSet & Hfs & ->).
  pose proof (calculateMeanReversion_le_1 fe symbol) as Hmr.
  rewrite <- (extractFeatures_meanReversion _ _ _ _ Hfs) in Hmr.
  unfold classify.
  destruct (FeatureSet.volatility featureSet >? 0.7)%js eqn:Hvol.
  { simpl. apply gtb_gt in Hvol.
    split; [split; [done|lra]|]. split; [lra|]. intros; lra. }
  destruct (Math_abs (FeatureSet.trend featureSet) >? 0.6)%js eqn:Htrend.
  { simpl. apply gtb_gt in Htrend.
    split; [split; [done|lra]|]. split; [lra|]. intros; lra. }
  destruct (FeatureSet.meanReversion featureSet >? 0.6)%js eqn:Hrange.
  { simpl. apply gtb_gt in Hrange.
    split; [split; [done|lra]|]. split; [lra|]. intros; lra. }
  simpl. split; [done|]. split; [lra|]. intros; lra.
Qed.

Lemma detectRegime_confidence_by_branch_witness :
  exists regime,
    detectRegime Samples.swinging "ETHUSDT" 0 = Some (Some regime)
    ∧ MarketRegime.type regime = volatile
    ∧ 0.5 <= MarketRegime.confidence regime.
Proof.
  destruct swinging_regime as (regime & Hregime & Htype & _).
  exists regime. split; [exact Hregime|]. split; [exact Htype|].
  apply (detectRegime_confidence_by_branch
           Samples.swinging "ETHUSDT" 0 regime Hregime).
Defined.

(** C7, on the order-book path: a snapshot for a symbol that has no buffers
    yet raises, and no buffer is created. *)
Theorem updateData_orderBook_before_ticker_raises :
  updateData FeatureEngine.new (Samples.orderBookUpdate "ETHUSDT")
  = (FeatureEngine.new, Raised).
Proof. reflexivity. Qed.

(** The ticker path does create the three buffers of a new symbol. *)
Example updateData_ticker_creates_buffers :
  let '(fe, completion) :=
    updateData FeatureEngine.new (Samples.tickerUpdate "ETHUSDT" 100) in
  completion = Normal
  ∧ priceHistory fe !! "ETHUSDT" = Some [100]
  ∧ volumeHistory fe !! "ETHUSDT" = Some [1]
  ∧ orderBookHistory fe !! "ETHUSDT" = Some [].
Proof. vm_compute. repeat split; reflexivity. Qed.
End FeatureRegime.

(** ** The orchestrator: sampling *)

Section SamplingFacts.
Context {math : MathLib}.
Import AIOrchestrator.
Local Open Scope Q_scope.

Lemma bind_Value {A B} (m : Rand.t A) (k : A -> Rand.t B) draws cursor b cursor'' :
  Rand.bind m k draws cursor = Rand.Value b cursor''
  <-> exists a cursor',
        m draws cursor = Rand.Value a cursor'
        ∧ k a draws cursor' = Rand.Value b cursor''.
Proof.
  unfold Rand.bind. destruct (m draws cursor) as [a cursor'| |]; split.
  - eauto.
  - intros (a' & c' & [= <- <-] & Hk). done.
  - done.
  - intros (a' & c' & [=] & _).
  - done.
  - intros (a' & c' & [=] & _).
Qed.

Lemma drawCandidate_mono c : fuelMonotone (fun fuel => drawCandidate fuel c).
Proof.
  intros fuel. induction fuel as [|fuel IH];
    intros fuel' draws cursor a cursor' Hle Hrun; [done|].
  destruct fuel' as [|fuel']; [lia|].
  simpl in *. apply bind_Value in Hrun as (x & c1 & Hx & Hk).
  apply bind_Value. exists x, c1. split; [done|].
  destruct (_ <=? _)%js; [|done]. apply IH; [lia|done].
Qed.

Lemma squeeze_mono d c : fuelMonotone (fun fuel => squeeze fuel d c).
Proof.
  intros fuel. induction fuel as [|fuel IH];
    intros fuel' draws cursor a cursor' Hle Hrun; [done|].
  destruct fuel' as [|fuel']; [lia|].
  simpl in *. apply bind_Value in Hrun as (xv & c1 & Hxv & Hk).
  apply bind_Value. exists xv, c1. split.
  - apply (drawCandidate_mono c fuel); [lia|done].
  - apply bind_Value in Hk as (u & c2 & Hu & Hk).
    apply bind_Value. exists u, c2. split; [done|].
    destruct (_ <? _)%js; [done|].
    destruct (_ <? _)%js; [done|].
    apply IH; [lia|done].
Qed.

Lemma gammaSample_mono : forall shape,
  fuelMonotone (fun fuel => gammaSample fuel shape).
Proof.
  intros shape fuel. revert shape. induction fuel as [|fuel IH];
    intros shape fuel' draws cursor a cursor' Hle Hrun; [done|].
  destruct fuel' as [|fuel']; [lia|].
  simpl in *. destruct (_ <? _)%js.
  - apply bind_Value in Hrun as (g & c1 & Hg & Hk).
    apply bind_Value. exists g, c1. split; [|done].
    apply (IH (shape + 1)); [lia|done].
  - apply (squeeze_mono _ _ fuel); [lia|done].
Qed.

Lemma betaSample_mono alpha beta :
  fuelMonotone (fun fuel => betaSample fuel alpha beta).
Proof.
  intros fuel fuel' draws cursor a cursor' Hle Hrun. unfold betaSample in *.
  apply bind_Value in Hrun as (g1 & c1 & Hg1 & Hk).
  apply bind_Value in Hk as (g2 & c2 & Hg2 & Hk).
  apply bind_Value. exists g1, c1. split.
  - apply (gammaSample_mono alpha fuel); done.
  - apply bind_Value. exists g2, c2. split; [|done].
    apply (gammaSample_mono beta fuel); done.
Qed.

Lemma drawSamples_mono arms features regime :
  fuelMonotone (fun fuel => drawSamples fuel arms features regime).
Proof.
  induction arms as [|[strategyId arm] arms IH];
    intros fuel fuel' draws cursor a cursor' Hle Hrun; [done|].
  simpl in *.
  apply bind_Value in Hrun as (sample & c1 & Hsample & Hk).
  apply bind_Value in Hk as (samples & c2 & Hsamples & Hk).
  apply bind_Value. exists sample, c1. split.
  - apply (betaSample_mono _ _ fuel); done.
  - apply bind_Value. exists samples, c2. split; [|done].
    apply (IH fuel); done.
Qed.

(** With the samples drawn, the choice depends on the exploration rate and
    on the draws only. *)
Lemma selectStrategy_Value fuel o features regime draws cursor id cursor' :
  selectStrategy fuel o features regime draws cursor = Rand.Value id cursor' ->
  exists samples0 c0,
    drawSamples fuel (banditArms o) features regime draws cursor
      = Rand.Value samples0 c0
    ∧ (r <~ Rand.random ;;
       if (r <? explorationRate (config o))%js then
         r' <~ Rand.random ;;
         let randomIndex :=
           Math_floor (r' * ofNat (length (sortDesc samples0))) in
         if (randomIndex <? 0)%Z then Rand.throw
         else
           match sortDesc samples0 !! Z.to_nat randomIndex with
           | Some s => Rand.ret s.1
           | None => Rand.throw
           end
       else
         match sortDesc samples0 with
         | s :: _ => Rand.ret s.1
         | [] => Rand.throw
         end) draws c0 = Rand.Value id cursor'.
Proof.
  unfold selectStrategy. intros Hrun.
  apply bind_Value in Hrun as (samples0 & c0 & Hs & Hk). eauto.
Qed.
End SamplingFacts.

Section SamplingSamples.
Import AIOrchestrator.
Local Open Scope Q_scope.

(** On the sample draws every arm's rejection loop accepts at once; the
    best adjusted sample is that of [scalping], after 49 draws. *)
Example selectStrategy_sample :
  selectStrategy (math := SampleMath.lib) 5 Samples.orchestrator
    Samples.features Samples.regime Samples.draws 0%nat
  = Rand.Value "scalping" 49%nat.
Proof. vm_compute. reflexivity. Qed.
End SamplingSamples.

(** ** The orchestrator: signals and persistence *)

Section SignalFacts.
Context {math : MathLib}.
Import AIOrchestrator.
Local Open Scope Q_scope.

(** A signal whose persistence fails (a [null] or an empty id) is dropped
    and the orchestrator is left as it was. *)
Lemma acceptSignal_not_persisted o saveSignal symbol signal features regime now :
  saveSignal signal features regime = None
  ∨ saveSignal signal features regime = Some "" ->
  acceptSignal o saveSignal symbol signal features regime now = (o, None).
Proof.
  intros Hfail. unfold acceptSignal.
  destruct (_ >=? _)%js; [|done].
  destruct Hfail as [->| ->]; [done|]. rewrite decide_True; done.
Qed.

(** [generateSignal] ends the way [selectStrategy] does when it gets to
    it, and normally when a rate limit stops it before. *)
Lemma generateSignal_cases fuel o saveSignal symbol price features regime now
    draws cursor :
  generateSignal fuel o saveSignal symbol price features regime now draws cursor
  = Rand.Value (o, None) cursor
  ∨ generateSignal fuel o saveSignal symbol price features regime now draws cursor
    = match selectStrategy fuel o features regime draws cursor with
      | Rand.Value selectedStrategy cursor' =>
          Rand.Value
            (acceptSignal o saveSignal symbol
               (executeStrategy selectedStrategy symbol price features regime now)
               features regime now) cursor'
      | Rand.TypeErr => Rand.TypeErr
      | Rand.OutOfFuel => Rand.OutOfFuel
      end.
Proof.
  unfold generateSignal.
  destruct (_ <? _)%js; [left; done|].
  destruct (_ >=? _)%js; [left; done|].
  right. unfold Rand.bind.
  destruct (selectStrategy fuel o features regime draws cursor); done.
Qed.

(** C5. When the persistence of the signal of the selected strategy fails
    (the collaborator returns [null] or an empty id), [generateSignal]
    returns no signal and leaves the orchestrator (the recent-signals buffer
    and the last-signal times with it) unchanged; it ends otherwise only
    when the strategy selection itself does not return. *)
Theorem generateSignal_persistence_failure fuel o saveSignal symbol price
    features regime now draws cursor :
  (forall selectedStrategy cursor',
     selectStrategy fuel o features regime draws cursor
       = Rand.Value selectedStrategy cursor' ->
     let signal :=
       executeStrategy selectedStrategy symbol price features regime now in
     saveSignal signal features regime = None
     ∨ saveSignal signal features regime = Some "") ->
  match generateSignal fuel o saveSignal symbol price features regime now
          draws cursor with
  | Rand.Value (o', result) _ => result = None ∧ o' = o
  | Rand.TypeErr =>
      selectStrategy fuel o features regime draws cursor = Rand.TypeErr
  | Rand.OutOfFuel =>
      selectStrategy fuel o features regime draws cursor = Rand.OutOfFuel
  end.
Proof.
  intros Hfail.
  destruct (generateSignal_cases fuel o saveSignal symbol price features
              regime now draws cursor) as [-> | ->]; [done|].
  destruct (selectStrategy fuel o features regime draws cursor)
    as [selectedStrategy cursor'| |]; [|done..].
  rewrite acceptSignal_not_persisted; [done|].
  apply (Hfail selectedStrategy cursor'). reflexivity.
Qed.
End SignalFacts.

Section SignalSamples.
Import AIOrchestrator.
Local Open Scope Q_scope.

(** The sample run reaches the persistence call: with a working
    collaborator the [scalping] signal is returned and recorded. *)
Example generateSignal_persisted :
  match generateSignal (math := SampleMath.lib) 5 Samples.orchestrator
          Samples.workingSave "BTCUSDT" 100 Samples.features Samples.regime
          100000 Samples.draws 0%nat with
  | Rand.Value (o', Some (signal, signalId)) _ =>
      TradingSignal.strategy signal = "scalping"
      ∧ TradingSignal.action signal = buy
      ∧ signalId = "sig-1"
      ∧ recentSignals o' = [signal]
      ∧ lastSignalTime o' !! "BTCUSDT" = Some 100000%Z
  | _ => False
  end.
Proof. vm_compute. repeat split; reflexivity. Qed.

(** With a failing collaborator the same run returns as well. *)
Example generateSignal_failing_run_returns :
  exists o' result cursor',
    generateSignal (math := SampleMath.lib) 5 Samples.orchestrator
      Samples.failingSave "BTCUSDT" 100 Samples.features Samples.regime
      100000 Samples.draws 0%nat
    = Rand.Value (o', result) cursor'.
Proof. vm_compute. eexists _, _, _. reflexivity. Qed.

Lemma generateSignal_persistence_failure_witness :
  exists cursor',
    generateSignal (math := SampleMath.lib) 5 Samples.orchestrator
      Samples.failingSave "BTCUSDT" 100 Samples.features Samples.regime
      100000 Samples.draws 0%nat
    = Rand.Value (Samples.orchestrator, None) cursor'.
Proof.
  destruct generateSignal_failing_run_returns as (o' & result & cursor' & Hrun).
  pose proof (generateSignal_persistence_failure (math := SampleMath.lib)
                5 Samples.orchestrator Samples.failingSave "BTCUSDT" 100
                Samples.features Samples.regime 100000 Samples.draws 0%nat
                (fun _ _ _ => or_introl eq_refl)) as Hthm.
  rewrite Hrun in Hthm. destruct Hthm as [-> ->].
  exists cursor'. exact Hrun.
Defined.
End SignalSamples.

(** * Further properties *)

(** ** The profit-locking engine: what a run of ticks keeps *)

Section EngineRuns.
Context {math : MathLib}.
Import ProfitLockingEngine.
Local Open Scope Q_scope.

Implicit Types (e : ProfitLockingEngine.t) (q p : Position.t)
  (prices : gmap string Q) (now : Z) (effs : list Effect).

(** A relation between the states of a position that every single update
    establishes holds between its states before and after a run of ticks. *)
Lemma runTicks_related (R : Position.t -> Position.t -> Prop) :
  (forall p, R p p) ->
  (forall p q r, R p q -> R q r -> R p r) ->
  (forall c p price now, R p (updatePosition c p price now)) ->
  forall id ticks e p p',
    liveMapOk e ->
    getPosition e id = Some p ->
    getPosition (runTicks e ticks) id = Some p' ->
    R p p'.
Proof.
  intros Hrefl Htrans Hstep id ticks.
  induction ticks as [|[prices now] ticks IH]; intros e p p' Hok Hp Hp'.
  - simpl in Hp'. assert (p' = p) as -> by congruence. apply Hrefl.
  - change (runTicks e ((prices, now) :: ticks))
      with (runTicks (updatePositions e prices now).1 ticks) in Hp'.
    pose proof (updatePositions_ok e prices now Hok) as Hok1.
    destruct (getPosition (updatePositions e prices now).1 id) as [p1|] eqn:Hp1.
    + pose proof (IH _ p1 p' Hok1 Hp1 Hp') as Hrest.
      apply updatePositions_cases in Hp1 as (q & Hq & Hcase); [|done].
      assert (q = p) as -> by congruence.
      destruct Hcase as [->|(price & _ & ->)]; [done|].
      eapply Htrans; [apply Hstep|exact Hrest].
    + rewrite runTicks_lookup_None in Hp'; done.
Qed.

Lemma runTicks_reachable ticks : forall e,
  engineReachable e -> engineReachable (runTicks e ticks).
Proof.
  induction ticks as [|[prices now] ticks IH]; intros e Hr; [done|].
  apply IH. apply reach_updatePositions. done.
Qed.

(** X1. The entry-time snapshot of a position is fixed: over any run of
    ticks its id, symbol, side, size, entry price, take-profit price,
    profit-lock method, entry time, ATR value and original signal stay as
    they were. *)
Theorem entry_snapshot_fixed e ticks id p p' :
  liveMapOk e ->
  getPosition e id = Some p ->
  getPosition (runTicks e ticks) id = Some p' ->
  Position.id p' = Position.id p
  ∧ Position.symbol p' = Position.symbol p
  ∧ Position.side p' = Position.side p
  ∧ Position.size p' = Position.size p
  ∧ Position.entryPrice p' = Position.entryPrice p
  ∧ Position.takeProfitPrice p' = Position.takeProfitPrice p
  ∧ Position.profitLockMethod p' = Position.profitLockMethod p
  ∧ Position.entryTime p' = Position.entryTime p
  ∧ Position.atrValue p' = Position.atrValue p
  ∧ Position.originalSignal p' = Position.originalSignal p.
Proof.
  apply (runTicks_related
    (fun p p' =>
       Position.id p' = Position.id p
       ∧ Position.symbol p' = Position.symbol p
       ∧ Position.side p' = Position.side p
       ∧ Position.size p' = Position.size p
       ∧ Position.entryPrice p' = Position.entryPrice p
       ∧ Position.takeProfitPrice p' = Position.takeProfitPrice p
       ∧ Position.profitLockMethod p' = Position.profitLockMethod p
       ∧ Position.entryTime p' = Position.entryTime p
       ∧ Position.atrValue p' = Position.atrValue p
       ∧ Position.originalSignal p' = Position.originalSignal p)).
  - intros. repeat split.
  - intros a b c (?&?&?&?&?&?&?&?&?&?) (?&?&?&?&?&?&?&?&?&?).
    repeat split; congruence.
  - intros. repeat split.
Qed.

Lemma updatePosition_peak c q price now :
  Position.peakPnL q <= Position.peakPnL (updatePosition c q price now)
  ∧ Position.unrealizedPnL (updatePosition c q price now)
    <= Position.peakPnL (updatePosition c q price now).
Proof.
  simpl. destruct (_ >? _)%js eqn:Hb.
  - apply gtb_gt in Hb. lra.
  - apply gtb_le in Hb. lra.
Qed.

(** Every live position of an engine built by the public operations has a
    non-negative peak that is at least its current PnL. *)
Lemma engineReachable_peak e :
  engineReachable e ->
  forall k p, (k, p) ∈ positions e ->
    0 <= Position.peakPnL p ∧ Position.unrealizedPnL p <= Position.peakPnL p.
Proof.
  induction 1 as [c|e signal size signalId now Hr IH
                 |e prices now Hr IH|e id Hr IH|e c Hr IH]; intros k p Hin.
  - apply elem_of_nil in Hin. done.
  - destruct (afterAdd_cases e signal size signalId now)
      as [Hsame|(method & _ & _ & _ & Hpos & _)].
    + rewrite Hsame in Hin. eapply IH. done.
    + rewrite Hpos in Hin. apply Map_set_elem in Hin as [[= -> ->]|Hin].
      * simpl. lra.
      * eapply IH. done.
  - pose proof (engineReachable_ok e Hr) as Hok.
    pose proof (updatePositions_ok e prices now Hok) as [Hnd _].
    apply (Map_get_elem_NoDup _ _ _ Hnd) in Hin.
    apply updatePositions_cases in Hin as (q & Hq & Hcase); [|done].
    apply Map_get_Some_elem in Hq. apply IH in Hq.
    destruct Hcase as [->|(price & _ & ->)]; [done|].
    pose proof (updatePosition_peak (config e) q price now) as [Hm Hc].
    split; [lra|done].
  - simpl in Hin. apply Map_delete_elem in Hin. eapply IH. done.
  - eapply IH. done.
Qed.

(** X2. Over any run of ticks on an engine built by the public operations,
    the peak PnL of a position never decreases, is never negative and is
    never below the current unrealized PnL. *)
Theorem peakPnL_running_maximum e ticks id p p' :
  engineReachable e ->
  getPosition e id = Some p ->
  getPosition (runTicks e ticks) id = Some p' ->
  Position.peakPnL p <= Position.peakPnL p'
  ∧ 0 <= Position.peakPnL p'
  ∧ Position.unrealizedPnL p' <= Position.peakPnL p'.
Proof.
  intros Hr Hp Hp'. split.
  - apply (runTicks_related
             (fun p p' => Position.peakPnL p <= Position.peakPnL p'))
      with (id := id) (ticks := ticks) (e := e); try done.
    + intros. lra.
    + intros a b c Hab Hbc. lra.
    + intros. apply updatePosition_peak.
    + apply engineReachable_ok. done.
  - apply Map_get_Some_elem in Hp'.
    apply (engineReachable_peak _ (runTicks_reachable ticks e Hr)) in Hp'.
    done.
Qed.
End EngineRuns.

Section EngineRunsSamples.
Import ProfitLockingEngine.
Local Open Scope Q_scope.

Lemma entry_snapshot_fixed_witness :
  exists p p',
    getPosition Samples.engine1 "BTCUSDT_1000" = Some p
    ∧ getPosition (runTicks (math := SampleMath.lib) Samples.engine1 Samples.ticks)
        "BTCUSDT_1000" = Some p'
    ∧ Position.entryPrice p' = Position.entryPrice p
    ∧ Position.takeProfitPrice p' = Position.takeProfitPrice p.
Proof.
  eexists _, _. split; [vm_compute; reflexivity|].
  split; [vm_compute; reflexivity|].
  edestruct (entry_snapshot_fixed (math := SampleMath.lib)
               Samples.engine1 Samples.ticks "BTCUSDT_1000")
    as (_ & _ & _ & _ & Hentry & Htarget & _).
  - apply (engineReachable_ok (math := SampleMath.lib)), engine1_reachable.
  - vm_compute. reflexivity.
  - vm_compute. reflexivity.
  - split; [exact Hentry|exact Htarget].
Defined.

Lemma peakPnL_running_maximum_witness :
  exists p p',
    getPosition Samples.engine1 "BTCUSDT_1000" = Some p
    ∧ getPosition (runTicks (math := SampleMath.lib) Samples.engine1 Samples.ticks)
        "BTCUSDT_1000" = Some p'
    ∧ Position.peakPnL p <= Position.peakPnL p'
    ∧ 0 <= Position.peakPnL p'
    ∧ Position.unrealizedPnL p' <= Position.peakPnL p'.
Proof.
  eexists _, _. split; [vm_compute; reflexivity|].
  split; [vm_compute; reflexivity|].
  apply (peakPnL_running_maximum (math := SampleMath.lib)
           Samples.engine1 Samples.ticks "BTCUSDT_1000").
  - apply engine1_reachable.
  - vm_compute. reflexivity.
  - vm_compute. reflexivity.
Defined.
End EngineRunsSamples.

(** ** The profit-locking engine: caps *)

Section EngineCaps.
Context {math : MathLib}.
Import ProfitLockingEngine.
Local Open Scope Q_scope.

Implicit Types (e : ProfitLockingEngine.t) (q p : Position.t)
  (prices : gmap string Q) (now : Z) (effs : list Effect).

(** A map whose selected entries all have a counterpart, under the same
    key, among the selected entries of another map has no more of them. *)
Lemma selected_le_by_keys {V} (P : string * V -> Prop)
    `{!forall x, Decision (P x)} (m m' : list (string * V)) :
  NoDup m'.*1 ->
  (forall k v', (k, v') ∈ m' -> P (k, v') -> exists v, (k, v) ∈ m ∧ P (k, v)) ->
  (length (filter P m') <= length (filter P m))%nat.
Proof.
  intros Hnd Hsub.
  rewrite <- (length_fmap fst (filter P m')), <- (length_fmap fst (filter P m)).
  apply submseteq_length, NoDup_submseteq.
  - eapply sublist_NoDup; [exact Hnd|]. apply fmap_sublist, sublist_filter.
  - intros k Hin. apply list_elem_of_fmap in Hin as [[k' v'] [-> Hin]].
    apply list_elem_of_filter in Hin as [HP Hin].
    destruct (Hsub k' v' Hin HP) as (v & Hv & HPv).
    apply list_elem_of_fmap. exists (k', v). split; [done|].
    apply list_elem_of_filter. done.
Qed.

Lemma selected_Map_set_le {V} (P : string * V -> Prop)
    `{!forall x, Decision (P x)} (m : list (string * V)) k v :
  (length (filter P (Map_set m k v))
   <= length (filter P m) + (if decide (P (k, v)) then 1 else 0))%nat.
Proof.
  induction m as [|[k' v'] m IH]; simpl.
  - rewrite filter_cons, filter_nil. destruct (decide (P (k, v))); simpl; lia.
  - destruct (decide (k' = k)) as [->|].
    + rewrite !filter_cons.
      destruct (decide (P (k, v))), (decide (P (k, v'))); simpl; lia.
    + rewrite !filter_cons. destruct (decide (P (k', v'))); simpl; lia.
Qed.

Lemma length_Map_set_le {V} (m : list (string * V)) k v :
  (length (Map_set m k v) <= S (length m))%nat.
Proof.
  induction m as [|[k' v'] m IH]; simpl; [lia|].
  destruct (decide (k' = k)); simpl; lia.
Qed.

Lemma length_le_by_keys {V} (m m' : list (string * V)) :
  NoDup m'.*1 -> (forall k, k ∈ m'.*1 -> k ∈ m.*1) ->
  (length m' <= length m)%nat.
Proof.
  intros Hnd Hsub.
  rewrite <- (length_fmap fst m'), <- (length_fmap fst m).
  apply submseteq_length, NoDup_submseteq; done.
Qed.

(** The live entries after a tick come from live entries before it, under
    the same key and with the same symbol. *)
Lemma updatePositions_origin e prices now k p' :
  liveMapOk e ->
  (k, p') ∈ positions (updatePositions e prices now).1 ->
  exists q, (k, q) ∈ positions e ∧ Position.symbol q = Position.symbol p'.
Proof.
  intros Hok Hin.
  pose proof (updatePositions_ok e prices now Hok) as [Hnd _].
  apply (Map_get_elem_NoDup _ _ _ Hnd) in Hin.
  apply updatePositions_cases in Hin as (q & Hq & Hcase); [|done].
  exists q. split; [apply Map_get_Some_elem; done|].
  destruct Hcase as [->|(price & _ & ->)]; done.
Qed.

(** X3. At no time does an engine built by the public operations hold more
    than three live positions of one symbol. *)
Theorem liveCount_at_most_3 e symbol :
  engineReachable e -> (liveCount e symbol <= 3)%nat.
Proof.
  induction 1 as [c|e signal size signalId now Hr IH
                 |e prices now Hr IH|e id Hr IH|e c Hr IH].
  - unfold liveCount. simpl. lia.
  - destruct (afterAdd_cases e signal size signalId now)
      as [->|(method & _ & _ & Hsym & Hpos & _)]; [apply IH|].
    unfold liveCount in *. rewrite Hpos.
    etrans; [apply selected_Map_set_le|].
    destruct (decide _) as [Heq|Hne]; simpl in *; [|lia].
    rewrite <- Heq in IH. rewrite Heq in Hsym. lia.
  - pose proof (engineReachable_ok e Hr) as Hok.
    etrans; [|exact IH]. unfold liveCount.
    apply selected_le_by_keys.
    + apply (updatePositions_ok e prices now Hok).
    + intros k p' Hin Hsym. simpl in *.
      destruct (updatePositions_origin e prices now k p' Hok Hin) as (q & Hq & Hs).
      exists q. split; [done|]. simpl. congruence.
  - etrans; [|exact IH]. unfold liveCount.
    apply selected_le_by_keys.
    + apply Map_delete_NoDup, (engineReachable_ok e Hr).
    + intros k p' Hin Hsym. simpl in Hin. apply Map_delete_elem in Hin. eauto.
  - exact IH.
Qed.

(** X4. With a whole number for [maxPositions], an engine that is within
    the cap stays within it under [addPosition]; and [updatePositions]
    never raises the number of live positions. *)
Theorem live_positions_within_cap e (cap : Z) :
  liveMapOk e ->
  TradingConfig.maxPositions (config e) == ofZ cap ->
  (Z.of_nat (length (positions e)) <= cap)%Z ->
  (forall signal size signalId now,
     (Z.of_nat (length (positions (afterAdd e signal size signalId now)))
      <= cap)%Z)
  ∧ (forall prices now,
       (length (positions (updatePositions e prices now).1)
        <= length (positions e))%nat).
Proof.
  intros Hok Hcap Hlen. split.
  - intros signal size signalId now.
    destruct (afterAdd_cases e signal size signalId now)
      as [->|(method & _ & Hglobal & _ & Hpos & _)]; [done|].
    rewrite Hpos. rewrite Hcap in Hglobal.
    unfold ofNat, ofZ in Hglobal. rewrite <- Zlt_Qlt in Hglobal.
    pose proof (length_Map_set_le (positions e)
                  (TradingSignal.symbol signal +:+ "_" +:+ pretty now)
                  (entryPosition e signal size method now)) as Hset.
    lia.
  - intros prices now. apply length_le_by_keys.
    + apply (updatePositions_ok e prices now Hok).
    + intros k Hin. apply list_elem_of_fmap in Hin as [[k' p'] [-> Hin]].
      destruct (updatePositions_origin e prices now k' p' Hok Hin) as (q & Hq & _).
      apply list_elem_of_fmap. exists (k', q). done.
Qed.
End EngineCaps.

Section EngineCapsSamples.
Import ProfitLockingEngine.
Local Open Scope Q_scope.

Lemma engine3_reachable : engineReachable (math := SampleMath.lib) Samples.engine3.
Proof.
  unfold Samples.engine3. cbn [fold_left].
  do 3 apply reach_addPosition. apply reach_new.
Qed.

Lemma liveCount_at_most_3_witness :
  (liveCount Samples.engine3 "BTCUSDT" <= 3)%nat.
Proof.
  apply (liveCount_at_most_3 (math := SampleMath.lib) Samples.engine3 "BTCUSDT").
  apply engine3_reachable.
Defined.

Lemma live_positions_within_cap_witness :
  (Z.of_nat (length (positions
     (afterAdd Samples.engine3 (Samples.signal "ETHUSDT" sell 50 2000) 2
        None 2000))) <= 250)%Z.
Proof.
  apply (live_positions_within_cap (math := SampleMath.lib) Samples.engine3 250).
  - apply (engineReachable_ok (math := SampleMath.lib)), engine3_reachable.
  - reflexivity.
  - vm_compute. discriminate.
Defined.
End EngineCapsSamples.

(** ** The profit-locking engine: exits *)

Section EngineExits.
Context {math : MathLib}.
Import ProfitLockingEngine.
Local Open Scope Q_scope.

Implicit Types (e : ProfitLockingEngine.t) (q p : Position.t)
  (prices : gmap string Q) (now : Z) (effs : list Effect).

(** X5. During the first ten seconds after its entry a position is never
    closed: whatever the prices, it is still live after [updatePositions]. *)
Theorem young_position_stays_open e prices now id p :
  liveMapOk e ->
  getPosition e id = Some p ->
  (now - Position.entryTime p < 10000)%Z ->
  is_Some (getPosition (updatePositions e prices now).1 id).
Proof.
  intros Hok Hp Hyoung.
  rewrite (updatePositions_lookup e prices now id p Hok Hp).
  destruct (freshPrice _ _) as [price|]; [|eauto].
  unfold afterTick, checkExitConditions. simpl.
  apply Z.ltb_lt in Hyoung. rewrite Hyoung. eauto.
Qed.

Lemma visitAll_closed c all prices now todo : forall e effs,
  config e = c ->
  NoDup todo.*1 ->
  (forall k q, (k, q) ∈ todo -> Position.id q = k ∧ (k, q) ∈ all) ->
  (forall p reason,
     ClosePosition p reason ∈ effs ∨ ExitCallbacks p reason ∈ effs ->
     closedBy c all prices now e effs p reason
     ∧ Position.id p ∉ todo.*1) ->
  forall p reason,
    ClosePosition p reason
      ∈ (fold_left (visitPosition prices now) todo (e, effs)).2
    ∨ ExitCallbacks p reason
      ∈ (fold_left (visitPosition prices now) todo (e, effs)).2 ->
    closedBy c all prices now
      (fold_left (visitPosition prices now) todo (e, effs)).1
      (fold_left (visitPosition prices now) todo (e, effs)).2 p reason.
Proof.
  induction todo as [|[k q] todo IH]; intros e effs Hc Hnd Hids Hinv.
  { intros p reason Hin. apply Hinv. exact Hin. }
  cbn [fold_left].
  simpl in Hnd. apply NoDup_cons in Hnd as [Hfresh Hnd].
  destruct (Hids k q) as [Hk Hall]; [left|].
  pose proof (visitPosition_eq prices now e effs k q) as Hv.
  destruct (visitPosition prices now (e, effs) (k, q)) as [e1 effs1].
  assert (Hold : forall p reason,
            ClosePosition p reason ∈ effs ∨ ExitCallbacks p reason ∈ effs ->
            forall e' effs',
              (forall i, i ≠ k -> getPosition e' i = getPosition e i) ->
              (forall i, signalIdMap e !! i = None -> signalIdMap e' !! i = None) ->
              (forall eff, eff ∈ effs -> eff ∈ effs') ->
              closedBy c all prices now e' effs' p reason
              ∧ Position.id p ∉ todo.*1).
  { intros p reason Hin e' effs' Hpos Hsig Heffs.
    destruct (Hinv p reason Hin)
      as [(Hgone & Hnosig & Hclose & Hexit & Hcheck & Horigin) Hnot].
    simpl in Hnot. apply not_elem_of_cons in Hnot as [Hne Hnot].
    split; [|done]. repeat split; auto.
    rewrite Hpos; done. }
  apply IH.
  - destruct (freshPrice _ _); [|injection Hv as -> ->; done].
    simpl in Hv. destruct (checkExitConditions _ _ _);
      injection Hv as -> ->; done.
  - done.
  - intros k' q' Hin. apply Hids. right. done.
  - intros p reason Hin.
    destruct (freshPrice prices (Position.symbol q)) as [price|] eqn:Hf.
    2:{ injection Hv as -> ->. apply (Hold p reason Hin); auto. }
    simpl in Hv. rewrite Hc in Hv.
    destruct (checkExitConditions c (updatePosition c q price now) now)
      as [reason0|] eqn:Hcheck; injection Hv as -> ->.
    + assert (Hcases :
        (ClosePosition p reason ∈ effs ∨ ExitCallbacks p reason ∈ effs)
        ∨ (p = updatePosition c q price now ∧ reason = reason0)).
      { destruct Hin as [Hin|Hin]; rewrite !elem_of_app in Hin;
          repeat (rewrite ?elem_of_cons, ?elem_of_nil in Hin);
          destruct Hin as [Hin|Hin]; auto;
          destruct Hin as [Hin|[Hin|[Hin|[]]]]; try discriminate;
          injection Hin as -> ->; auto. }
      destruct Hcases as [Hin'|[-> ->]].
      * apply (Hold p reason Hin'); simpl.
        -- intros i Hne. unfold getPosition. simpl. rewrite Hk.
           rewrite Map_get_delete_ne by done. apply Map_get_set_ne. done.
        -- intros i Hnone. rewrite Hk.
           destruct (decide (i = k)) as [->|Hne];
             [apply lookup_delete_eq|rewrite lookup_delete_ne by done; done].
        -- intros eff Heff. apply elem_of_app. left. done.
      * split; [|simpl; rewrite Hk; done].
        unfold closedBy. simpl. rewrite Hk.
        split; [unfold getPosition; simpl; apply Map_get_delete_eq|].
        split; [apply lookup_delete_eq|].
        split; [rewrite !elem_of_app, !elem_of_cons; auto|].
        split; [rewrite !elem_of_app, !elem_of_cons; auto|].
        split; [done|]. exists q, price. done.
    + assert (Hin' : ClosePosition p reason ∈ effs
                     ∨ ExitCallbacks p reason ∈ effs).
      { destruct Hin as [Hin|Hin]; rewrite elem_of_app in Hin;
          rewrite ?elem_of_cons, ?elem_of_nil in Hin;
          destruct Hin as [Hin|Hin]; auto;
          destruct Hin as [Hin|[]]; discriminate. }
      apply (Hold p reason Hin'); simpl.
      * intros i Hne. unfold getPosition. simpl. apply Map_get_set_ne. done.
      * done.
      * intros eff Heff. apply elem_of_app. left. done.
Qed.

(** X6. An exit is complete and happens once. Whenever the effects of
    [updatePositions] hold a close of a position, or a notification of the
    exit callbacks for it, they hold both, with the same reason; the
    position is then neither in the live map nor in the signal-id map; and
    it is the update, by a fresh price, of a position that was live, on
    which [checkExitConditions] gave that reason. *)
Theorem exit_is_complete e prices now p reason :
  liveMapOk e ->
  ClosePosition p reason ∈ (updatePositions e prices now).2
  ∨ ExitCallbacks p reason ∈ (updatePositions e prices now).2 ->
  getPosition (updatePositions e prices now).1 (Position.id p) = None
  ∧ signalIdMap (updatePositions e prices now).1 !! Position.id p = None
  ∧ ClosePosition p reason ∈ (updatePositions e prices now).2
  ∧ ExitCallbacks p reason ∈ (updatePositions e prices now).2
  ∧ checkExitConditions (config e) p now = Some reason
  ∧ exists q price,
      getPosition e (Position.id p) = Some q
      ∧ freshPrice prices (Position.symbol q) = Some price
      ∧ p = updatePosition (config e) q price now.
Proof.
  intros [Hnd Hids] Hin.
  destruct (visitAll_closed (config e) (positions e) prices now (positions e)
              e [] eq_refl Hnd) with (p := p) (reason := reason)
    as (Hgone & Hnosig & Hclose & Hexit & Hcheck & q & price & Hq & Hf & ->).
  - intros k q Hq. split; [apply Hids|]; done.
  - intros p0 reason0 [Hnil|Hnil]; apply elem_of_nil in Hnil; done.
  - exact Hin.
  - repeat split; try done. exists q, price. split; [|done].
    apply Map_get_elem_NoDup; done.
Qed.
End EngineExits.

Section EngineExitsSamples.
Import ProfitLockingEngine.
Local Open Scope Q_scope.

Lemma young_position_stays_open_witness :
  is_Some (getPosition
             (updatePositions (math := SampleMath.lib) Samples.engine1
                {["BTCUSDT" := 1]} 5000).1 "BTCUSDT_1000").
Proof.
  eapply (young_position_stays_open (math := SampleMath.lib) Samples.engine1
            {["BTCUSDT" := 1]} 5000 "BTCUSDT_1000").
  - apply (engineReachable_ok (math := SampleMath.lib)), engine1_reachable.
  - vm_compute. reflexivity.
  - vm_compute. reflexivity.
Defined.

Lemma engineSaved_reachable :
  engineReachable (math := SampleMath.lib) MoreSamples.engineSaved.
Proof.
  unfold MoreSamples.engineSaved, Samples.engine0.
  apply reach_addPosition, reach_new.
Qed.

(** Twenty seconds after the entry the price falls through the stop: the
    position is closed with the reason of the trailing stop. *)
Example crash_closes_position :
  exists p,
    (updatePositions (math := SampleMath.lib) MoreSamples.engineSaved
       MoreSamples.crash.1 MoreSamples.crash.2).2
    = [UpdatePosition p; ClosePosition p "Trailing stop triggered";
       ExitCallbacks p "Trailing stop triggered"]
    ∧ Position.id p = "BTCUSDT_1000".
Proof. vm_compute. eexists. split; reflexivity. Qed.

Lemma exit_is_complete_witness :
  exists p,
    ClosePosition p "Trailing stop triggered"
      ∈ (updatePositions (math := SampleMath.lib) MoreSamples.engineSaved
           MoreSamples.crash.1 MoreSamples.crash.2).2
    ∧ getPosition
        (updatePositions (math := SampleMath.lib) MoreSamples.engineSaved
           MoreSamples.crash.1 MoreSamples.crash.2).1 (Position.id p) = None
    ∧ signalIdMap
        (updatePositions (math := SampleMath.lib) MoreSamples.engineSaved
           MoreSamples.crash.1 MoreSamples.crash.2).1 !! Position.id p = None.
Proof.
  destruct crash_closes_position as (p & Heffs & _).
  assert (Hin : ClosePosition p "Trailing stop triggered"
                  ∈ (updatePositions (math := SampleMath.lib)
                       MoreSamples.engineSaved
                       MoreSamples.crash.1 MoreSamples.crash.2).2).
  { rewrite Heffs. right. left. }
  exists p. split; [exact Hin|].
  destruct (exit_is_complete (math := SampleMath.lib) MoreSamples.engineSaved
              MoreSamples.crash.1 MoreSamples.crash.2 p
              "Trailing stop triggered"
              (engineReachable_ok _ engineSaved_reachable) (or_introl Hin))
    as (Hgone & Hnosig & _).
  split; [exact Hgone|exact Hnosig].
Defined.
End EngineExitsSamples.

(** ** The profit-locking engine: stops, targets and the clock *)

Section EngineStops.
Context {math : MathLib}.
Import ProfitLockingEngine.
Local Open Scope Q_scope.

Implicit Types (e : ProfitLockingEngine.t) (q p : Position.t)
  (prices : gmap string Q) (now : Z) (effs : list Effect).





(** The effects of a visit extend those of before. *)
Lemma visitPosition_effects_grow prices now e effs k q eff :
  eff ∈ effs -> eff ∈ (visitPosition prices now (e, effs) (k, q)).2.
Proof.
  intros Hin. rewrite visitPosition_eq.
  destruct (freshPrice _ _); [|done].
  simpl. destruct (checkExitConditions _ _ _); simpl;
    apply elem_of_app; auto.
Qed.

Lemma visitAll_effects_grow prices now todo : forall e effs eff,
  eff ∈ effs ->
  eff ∈ (fold_left (visitPosition prices now) todo (e, effs)).2.
Proof.
  induction todo as [|[k q] todo IH]; intros e effs eff Hin; [done|].
  cbn [fold_left].
  pose proof (visitPosition_effects_grow prices now e effs k q eff Hin) as H1.
  destruct (visitPosition prices now (e, effs) (k, q)) as [e1 effs1].
  apply IH. done.
Qed.

(** Every visited position with a fresh price is written back, and when an
    exit condition holds of its update it is closed. *)
Lemma visitAll_emits prices now todo : forall e effs k q price,
  (k, q) ∈ todo ->
  freshPrice prices (Position.symbol q) = Some price ->
  UpdatePosition (updatePosition (config e) q price now)
    ∈ (fold_left (visitPosition prices now) todo (e, effs)).2
  ∧ forall reason,
      checkExitConditions (config e)
        (updatePosition (config e) q price now) now = Some reason ->
      ClosePosition (updatePosition (config e) q price now) reason
        ∈ (fold_left (visitPosition prices now) todo (e, effs)).2
      ∧ ExitCallbacks (updatePosition (config e) q price now) reason
        ∈ (fold_left (visitPosition prices now) todo (e, effs)).2.
Proof.
  induction todo as [|[k0 q0] todo IH]; intros e effs k q price Hin Hf.
  { apply elem_of_nil in Hin. done. }
  cbn [fold_left].
  apply elem_of_cons in Hin as [[= <- <-]|Hin].
  - pose proof (visitPosition_eq prices now e effs k q) as Hv.
    destruct (visitPosition prices now (e, effs) (k, q)) as [e1 effs1].
    rewrite Hf in Hv. simpl in Hv.
    destruct (checkExitConditions _ _ _) as [reason0|];
      injection Hv as -> ->.
    + split.
      * apply visitAll_effects_grow.
        rewrite !elem_of_app, !elem_of_cons. auto.
      * intros reason [= <-].
        split; apply visitAll_effects_grow;
          rewrite !elem_of_app, !elem_of_cons; auto.
    + split; [|done].
      apply visitAll_effects_grow.
      rewrite !elem_of_app, !elem_of_cons. auto.
  - pose proof (visitPosition_config prices now e effs k0 q0) as Hc.
    destruct (visitPosition prices now (e, effs) (k0, q0)) as [e1 effs1].
    simpl in Hc. rewrite <- Hc. apply (IH e1 effs1 k q price); done.
Qed.

(** X8. Every tick writes back every priced position: for a live position
    whose symbol has a fresh price, the effects of [updatePositions] hold
    the persistence of its update. *)
Theorem tick_persists_priced_positions e prices now id p price :
  getPosition e id = Some p ->
  freshPrice prices (Position.symbol p) = Some price ->
  UpdatePosition (updatePosition (config e) p price now)
    ∈ (updatePositions e prices now).2.
Proof.
  intros Hp Hf. apply Map_get_Some_elem in Hp.
  apply (visitAll_emits prices now (positions e) e [] id p price Hp Hf).
Qed.

Lemma reasons_nonempty (b1 b2 b3 b4 b5 : bool) (r1 r2 r3 r4 r5 : string) :
  b1 = true ∨ b2 = true ->
  (0 <? length ((if b1 then [r1] else []) ++ (if b2 then [r2] else [])
                ++ (if b3 then [r3] else []) ++ (if b4 then [r4] else [])
                ++ (if b5 then [r5] else [])))%nat = true.
Proof. destruct b1, b2, b3, b4, b5; simpl; intros [?|?]; done. Qed.

Lemma checkExitConditions_stop_or_target c p price now :
  (10000 <= now - Position.entryTime p)%Z ->
  match Position.side p with
  | long => price <= Position.trailingStopPrice p
            ∨ Position.takeProfitPrice p <= price
  | short => Position.trailingStopPrice p <= price
             ∨ price <= Position.takeProfitPrice p
  end ->
  is_Some (checkExitConditions c (updatePosition c p price now) now).
Proof.
  intros Hage Hhit. unfold checkExitConditions.
  change (Position.entryTime (updatePosition c p price now))
    with (Position.entryTime p).
  apply Z.ltb_ge in Hage. rewrite Hage.
  rewrite reasons_nonempty; [eauto|].
  unfold isTrailingStopTriggered, isTakeProfitTriggered. simpl.
  pose proof (updateTrailingStop_ratchet c (Position.profitLockMethod p)
                (Position.side p) price (Position.trailingStopPrice p)) as Hr.
  destruct (Position.side p); destruct Hhit as [Hs|Ht].
  - left. apply leb_le. lra.
  - right. apply geb_ge. lra.
  - left. apply geb_ge. lra.
  - right. apply leb_le. lra.
Qed.

(** X9. Stops and targets are honoured. Once a position is ten seconds
    old, a tick whose fresh price is at or beyond the stop of before the
    tick, or at or beyond the take-profit price, closes it: it is no longer
    live, and the effects hold its close and the notification of the exit
    callbacks. *)
Theorem stop_or_target_closes e prices now id p price :
  liveMapOk e ->
  getPosition e id = Some p ->
  freshPrice prices (Position.symbol p) = Some price ->
  (10000 <= now - Position.entryTime p)%Z ->
  match Position.side p with
  | long => price <= Position.trailingStopPrice p
            ∨ Position.takeProfitPrice p <= price
  | short => Position.trailingStopPrice p <= price
             ∨ price <= Position.takeProfitPrice p
  end ->
  getPosition (updatePositions e prices now).1 id = None
  ∧ exists reason,
      ClosePosition (updatePosition (config e) p price now) reason
        ∈ (updatePositions e prices now).2
      ∧ ExitCallbacks (updatePosition (config e) p price now) reason
        ∈ (updatePositions e prices now).2.
Proof.
  intros Hok Hp Hf Hage Hhit.
  destruct (checkExitConditions_stop_or_target (config e) p price now
              Hage Hhit) as [reason Hcheck].
  split.
  - rewrite (updatePositions_lookup e prices now id p Hok Hp), Hf.
    unfold afterTick. simpl. rewrite Hcheck. done.
  - exists reason. apply Map_get_Some_elem in Hp.
    destruct (visitAll_emits prices now (positions e) e [] id p price Hp Hf)
      as [_ Hclose].
    apply Hclose. done.
Qed.

Lemma trailingPercent_positive c method :
  0 < TradingConfig.trailingStopPercent c ->
  0 < ProfitLockConfig.trailingPercent (defaultConfigs c method).
Proof. intros Hpos. destruct method; simpl; lra. Qed.

(** X10. Trailing never closes by itself. With a positive trailing
    percentage and a positive price, the stop that [updatePosition] has
    moved is triggered exactly when the price reached the stop of before
    the update: the stop is moved to a level strictly on the safe side of
    the price. *)
Theorem trailing_never_triggers_itself c p price now :
  0 < TradingConfig.trailingStopPercent c ->
  0 < price ->
  isTrailingStopTriggered (updatePosition c p price now)
  = match Position.side p with
    | long => (price <=? Position.trailingStopPrice p)%js
    | short => (price >=? Position.trailingStopPrice p)%js
    end.
Proof.
  intros Hts Hprice.
  pose proof (trailingPercent_positive c (Position.profitLockMethod p) Hts)
    as Hpct.
  unfold isTrailingStopTriggered. simpl. unfold updateTrailingStop.
  set (pct := ProfitLockConfig.trailingPercent _) in *.
  assert (Hmove : 0 < price * pct) by (apply Qmult_lt_0_compat; done).
  destruct (Position.side p).
  - destruct (_ >? _)%js eqn:Hb; [|done].
    apply gtb_gt in Hb.
    transitivity false; [apply leb_gt; lra|symmetry; apply leb_gt; lra].
  - destruct (_ <? _)%js eqn:Hb; [|done].
    apply ltb_lt in Hb.
    transitivity false; [apply geb_lt; lra|symmetry; apply geb_lt; lra].
Qed.

Lemma visitAll_signalIds prices now todo : forall e effs,
  (forall i, is_Some (signalIdMap e !! i) -> is_Some (getPosition e i)) ->
  forall i,
    is_Some (signalIdMap
               (fold_left (visitPosition prices now) todo (e, effs)).1 !! i) ->
    is_Some (getPosition
               (fold_left (visitPosition prices now) todo (e, effs)).1 i).
Proof.
  induction todo as [|[k q] todo IH]; intros e effs Hinv; [done|].
  cbn [fold_left].
  pose proof (visitPosition_eq prices now e effs k q) as Hv.
  destruct (visitPosition prices now (e, effs) (k, q)) as [e1 effs1].
  apply IH.
  destruct (freshPrice _ _); [|injection Hv as -> ->; done].
  simpl in Hv. destruct (checkExitConditions _ _ _);
    injection Hv as -> ->; intros i; unfold getPosition; simpl.
  - destruct (decide (i = Position.id (updatePosition (config e) q q0 now)))
      as [->|Hne].
    + rewrite lookup_delete_eq. intros [? [=]].
    + rewrite lookup_delete_ne by done. intros Hsig.
      rewrite Map_get_delete_ne by done.
      destruct (decide (k = i)) as [->|Hki].
      * rewrite Map_get_set_eq. eauto.
      * rewrite Map_get_set_ne by done. apply Hinv. done.
  - intros Hsig. destruct (decide (k = i)) as [->|Hki].
    + rewrite Map_get_set_eq. eauto.
    + rewrite Map_get_set_ne by done. apply Hinv. done.
Qed.

(** X11. The signal-id map does not leak: in an engine built by the public
    operations every position id that has a database signal id is the id
    of a live position. *)
Theorem signalIdMap_only_live e id sid :
  engineReachable e ->
  signalIdMap e !! id = Some sid ->
  is_Some (getPosition e id).
Proof.
  intros Hr Hsid.
  assert (Hinv : forall i, is_Some (signalIdMap e !! i) ->
                   is_Some (getPosition e i)); [|apply Hinv; eauto].
  clear id sid Hsid.
  induction Hr as [c|e signal size signalId now Hr IH
                  |e prices now Hr IH|e id Hr IH|e c Hr IH]; intros i.
  - simpl. rewrite lookup_empty. intros [? [=]].
  - destruct (afterAdd_cases e signal size signalId now)
      as [->|(method & _ & _ & _ & Hpos & _ & Hsig)]; [apply IH|].
    unfold getPosition. rewrite Hpos.
    set (k := TradingSignal.symbol signal +:+ "_" +:+ pretty now) in *.
    destruct (decide (k = i)) as [->|Hne].
    + rewrite Map_get_set_eq. eauto.
    + rewrite Map_get_set_ne by done.
      destruct Hsig as [->|[sid ->]];
        rewrite ?lookup_insert_ne by done; apply IH.
  - apply visitAll_signalIds. done.
  - unfold getPosition. simpl.
    destruct (decide (id = i)) as [->|Hne].
    + rewrite lookup_delete_eq. intros [? [=]].
    + rewrite lookup_delete_ne, Map_get_delete_ne by done. apply IH.
  - apply IH.
Qed.
End EngineStops.

Section EngineStopsSamples.
Import ProfitLockingEngine.
Local Open Scope Q_scope.


Lemma tick_persists_priced_positions_witness :
  exists p,
    UpdatePosition p
      ∈ (updatePositions (math := SampleMath.lib) Samples.engine1
           {["BTCUSDT" := 110]} 2000).2
    ∧ Position.currentPrice p = 110.
Proof.
  eexists. split.
  - eapply (tick_persists_priced_positions (math := SampleMath.lib)
              Samples.engine1 {["BTCUSDT" := 110]} 2000 "BTCUSDT_1000").
    + vm_compute. reflexivity.
    + vm_compute. reflexivity.
  - reflexivity.
Defined.

Lemma stop_or_target_closes_witness :
  getPosition
    (updatePositions (math := SampleMath.lib) MoreSamples.engineSaved
       MoreSamples.crash.1 MoreSamples.crash.2).1 "BTCUSDT_1000" = None.
Proof.
  eapply (stop_or_target_closes (math := SampleMath.lib)
            MoreSamples.engineSaved MoreSamples.crash.1 MoreSamples.crash.2
            "BTCUSDT_1000" _ 90).
  - apply (engineReachable_ok (math := SampleMath.lib)), engineSaved_reachable.
  - vm_compute. reflexivity.
  - vm_compute. reflexivity.
  - vm_compute. discriminate.
  - simpl. left. vm_compute. discriminate.
Defined.

Lemma trailing_never_triggers_itself_witness :
  isTrailingStopTriggered
    (updatePosition (math := SampleMath.lib) defaultTradingConfig
       MoreSamples.longPosition 101 2000)
  = (101 <=? 97)%js.
Proof.
  apply (trailing_never_triggers_itself (math := SampleMath.lib)
           defaultTradingConfig MoreSamples.longPosition 101 2000).
  - vm_compute. reflexivity.
  - vm_compute. reflexivity.
Defined.

Lemma signalIdMap_only_live_witness :
  is_Some (getPosition MoreSamples.engineSaved "BTCUSDT_1000").
Proof.
  apply (signalIdMap_only_live (math := SampleMath.lib)
           MoreSamples.engineSaved "BTCUSDT_1000" "sig-1").
  - apply engineSaved_reachable.
  - vm_compute. reflexivity.
Defined.
End EngineStopsSamples.

(** ** The orchestrator: arms and rewards *)

Section OrchestratorArms.
Import AIOrchestrator.
Local Open Scope Q_scope.

Implicit Types (o : AIOrchestrator.t) (arm : BanditArm.t).

Lemma Map_set_keys_same {V} (m : list (string * V)) k v :
  k ∈ m.*1 -> (Map_set m k v).*1 = m.*1.
Proof.
  induction m as [|[k0 v0] m IH]; simpl; intros Hin.
  - apply elem_of_nil in Hin. done.
  - destruct (decide (k0 = k)) as [->|Hne]; simpl; [done|].
    apply elem_of_cons in Hin as [->|Hin]; [done|].
    f_equal. apply IH. done.
Qed.

Lemma Map_get_Some_keys {V} (m : list (string * V)) k v :
  Map_get m k = Some v -> k ∈ m.*1.
Proof.
  intros Hget. apply Map_get_Some_elem in Hget.
  apply list_elem_of_fmap. exists (k, v). done.
Qed.

Lemma new_arms c k arm :
  (k, arm) ∈ banditArms (AIOrchestrator.new c) ->
  arm = {| BanditArm.strategyId := k; BanditArm.wins := 1;
           BanditArm.trials := 1; BanditArm.alpha := 1; BanditArm.beta := 1 |}.
Proof.
  intros Hin. vm_compute in Hin.
  repeat (apply elem_of_cons in Hin as [[= -> ->]|Hin]; [reflexivity|]).
  apply elem_of_nil in Hin. done.
Qed.

Lemma new_strategies c k s :
  (k, s) ∈ strategies (AIOrchestrator.new c) ->
  Strategy.id s = k ∧ Strategy.performance s = [].
Proof.
  intros Hin. vm_compute in Hin.
  repeat (apply elem_of_cons in Hin as [[= -> ->]|Hin]; [done|]).
  apply elem_of_nil in Hin. done.
Qed.

Lemma length_shift {A} (cap : nat) (buffer : list A) (x : A) :
  (length buffer <= cap)%nat ->
  (length (if (cap <? length (buffer ++ [x]))%nat
           then tail (buffer ++ [x]) else buffer ++ [x]) <= cap)%nat.
Proof.
  intros Hle. destruct (_ <? _)%nat eqn:Hb.
  - rewrite length_tail_pred, length_app. simpl. lia.
  - apply Nat.ltb_ge in Hb. done.
Qed.

(** What every orchestrator built by the public operations satisfies. *)
Lemma orchestratorReachable_inv o :
  orchestratorReachable o ->
  (banditArms o).*1 = strategyConfigs.*1
  ∧ (strategies o).*1 = strategyConfigs.*1
  ∧ (forall k arm, (k, arm) ∈ banditArms o -> armOk k arm)
  ∧ (forall k s, (k, s) ∈ strategies o ->
       Strategy.id s = k ∧ (length (Strategy.performance s) <= 50)%nat)
  ∧ (length (recentSignals o) <= 100)%nat.
Proof.
  induction 1 as [c|o signal profit Hr IH
                 |o saveSignal symbol signal features regime now Hr IH
                 |o c Hr IH].
  - split; [reflexivity|]. split; [reflexivity|].
    split; [|split].
    + intros k arm Hin. apply new_arms in Hin as ->.
      repeat split; simpl; lra.
    + intros k s Hin. apply new_strategies in Hin as [-> ->].
      split; [done|]. simpl. lia.
    + simpl. lia.
  - destruct IH as (Harms & Hstrats & Hok & Hperf & Hrecent).
    unfold updateReward.
    destruct (Map_get (banditArms o) _) as [arm|] eqn:Harm; [|done].
    cbn [banditArms strategies recentSignals].
    split; [|split; [|split; [|split]]].
    + rewrite Map_set_keys_same; [done|]. eapply Map_get_Some_keys. done.
    + destruct (Map_get (strategies o) _) as [s|] eqn:Hs; [|done].
      rewrite Map_set_keys_same; [done|]. eapply Map_get_Some_keys. done.
    + intros k arm' Hin. apply Map_set_elem in Hin as [[= -> ->]|Hin]; [|auto].
      apply Map_get_Some_elem in Harm.
      destruct (Hok _ _ Harm) as (Hid & Hw & Hsum & Ha & Hb).
      unfold armOk. simpl. destruct (_ >? _)%js.
      * repeat split; [done|congruence|lra..].
      * repeat split; [done|congruence|lra..].
    + intros k s Hin.
      destruct (Map_get (strategies o) _) as [s0|] eqn:Hs; [|auto].
      apply Map_set_elem in Hin as [[= -> ->]|Hin]; [|auto].
      apply Map_get_Some_elem in Hs. destruct (Hperf _ _ Hs) as [Hid Hlen].
      split; [done|]. simpl. apply length_shift. done.
    + done.
  - destruct IH as (Harms & Hstrats & Hok & Hperf & Hrecent).
    unfold acceptSignal.
    destruct (_ >=? _)%js; [|done].
    destruct (saveSignal _ _ _) as [sid|]; [|done].
    destruct (decide (sid = "")); [done|].
    cbn [fst banditArms strategies recentSignals].
    split; [|split; [|split; [|split]]];
      [done|done|done|done|apply length_shift; done].
  - done.
Qed.

(** X12. The counters of every arm stay consistent. In an orchestrator
    built by the public operations an arm is stored under its own strategy
    id, its wins equal its alpha, alpha plus beta is the number of trials
    plus one, and so its win rate [wins / trials] lies in (0, 1]. *)
Theorem arm_counters_consistent o id arm :
  orchestratorReachable o ->
  Map_get (banditArms o) id = Some arm ->
  BanditArm.strategyId arm = id
  ∧ BanditArm.wins arm = BanditArm.alpha arm
  ∧ BanditArm.alpha arm + BanditArm.beta arm == BanditArm.trials arm + 1
  ∧ 1 <= BanditArm.alpha arm
  ∧ 1 <= BanditArm.beta arm
  ∧ 0 < BanditArm.wins arm / BanditArm.trials arm <= 1.
Proof.
  intros Hr Harm. apply Map_get_Some_elem in Harm.
  destruct (orchestratorReachable_inv o Hr) as (_ & _ & Hok & _).
  destruct (Hok _ _ Harm) as (Hid & Hw & Hsum & Ha & Hb).
  repeat split; try done; rewrite Hw.
  - apply Qlt_shift_div_l; lra.
  - apply Qle_shift_div_r; lra.
Qed.

(** X13. The strategies are fixed. No operation adds or removes an arm or
    a strategy: both maps keep the eight ids of [strategyConfigs], in their
    order. *)
Theorem strategies_are_fixed o :
  orchestratorReachable o ->
  (banditArms o).*1 = strategyConfigs.*1
  ∧ (strategies o).*1 = strategyConfigs.*1.
Proof.
  intros Hr. destruct (orchestratorReachable_inv o Hr) as (Ha & Hs & _).
  done.
Qed.

(** X14. The buffers of the orchestrator are bounded: at most 100 recent
    signals, and at most 50 profits in the performance history of every
    strategy. *)
Theorem orchestrator_buffers_bounded o :
  orchestratorReachable o ->
  (length (recentSignals o) <= 100)%nat
  ∧ forall id s, Map_get (strategies o) id = Some s ->
      (length (Strategy.performance s) <= 50)%nat.
Proof.
  intros Hr.
  destruct (orchestratorReachable_inv o Hr) as (_ & _ & _ & Hperf & Hrecent).
  split; [done|]. intros id s Hs. apply Map_get_Some_elem in Hs.
  apply (Hperf _ _ Hs).
Qed.

Lemma ofNat_S (n : nat) : ofNat (S n) == ofNat n + 1.
Proof.
  unfold ofNat. rewrite Nat2Z.inj_succ, <- Z.add_1_r, inject_Z_plus. reflexivity.
Qed.

Lemma ofNat_plus (n m : nat) : ofNat (n + m) == ofNat n + ofNat m.
Proof. unfold ofNat. rewrite Nat2Z.inj_add, inject_Z_plus. reflexivity. Qed.

(** X15. Rewards are counted. After [n] closes of trades of one strategy,
    of which [w] were profitable, the arm of the strategy has gained [w] in
    alpha and in wins, [n - w] in beta and [n] in trials. *)
Theorem rewards_are_counted n o signal profits arm :
  Map_get (banditArms o) (TradingSignal.strategy signal) = Some arm ->
  exists arm',
    Map_get (banditArms (rewardTimes n o signal profits))
      (TradingSignal.strategy signal) = Some arm'
    ∧ BanditArm.alpha arm'
      == BanditArm.alpha arm + ofNat (profitableCount n profits)
    ∧ BanditArm.wins arm'
      == BanditArm.wins arm + ofNat (profitableCount n profits)
    ∧ BanditArm.beta arm'
      == BanditArm.beta arm + (ofNat n - ofNat (profitableCount n profits))
    ∧ BanditArm.trials arm' == BanditArm.trials arm + ofNat n.
Proof.
  intros Harm. induction n as [|n IH].
  - exists arm. split; [done|]. unfold ofNat. simpl. repeat split; ring.
  - destruct IH as (arm1 & Hget & Ha & Hw & Hb & Ht).
    cbn [rewardTimes]. unfold updateReward at 1. rewrite Hget.
    cbn [banditArms]. rewrite Map_get_set_eq. eexists. split; [done|].
    cbn [profitableCount BanditArm.alpha BanditArm.wins BanditArm.beta
         BanditArm.trials].
    rewrite ofNat_S. destruct (_ >? _)%js.
    + rewrite ofNat_plus. change (ofNat 1) with 1.
      rewrite Ha, Hw, Hb, Ht. repeat split; ring.
    + rewrite ofNat_plus. change (ofNat 0) with 0.
      rewrite Ha, Hw, Hb, Ht. repeat split; ring.
Qed.

(** X16. A reward touches one strategy. [updateReward] leaves the recent
    signals, the configuration and the cooldown clock as they are, leaves
    the arm and the history of every other strategy as they are, and does
    nothing at all when the strategy of the signal has no arm. *)
Theorem updateReward_touches_one_strategy o signal profit :
  recentSignals (updateReward o signal profit) = recentSignals o
  ∧ config (updateReward o signal profit) = config o
  ∧ lastSignalTime (updateReward o signal profit) = lastSignalTime o
  ∧ (forall id, id ≠ TradingSignal.strategy signal ->
       Map_get (banditArms (updateReward o signal profit)) id
       = Map_get (banditArms o) id
       ∧ Map_get (strategies (updateReward o signal profit)) id
         = Map_get (strategies o) id)
  ∧ (Map_get (banditArms o) (TradingSignal.strategy signal) = None ->
     updateReward o signal profit = o).
Proof.
  unfold updateReward.
  destruct (Map_get (banditArms o) _) as [arm|]; [|done].
  cbn [recentSignals config lastSignalTime banditArms strategies].
  repeat split; try done.
  - rewrite Map_get_set_ne; done.
  - destruct (Map_get (strategies o) _); [|done].
    rewrite Map_get_set_ne; done.
Qed.

Lemma fold_Map_set_lookup {A V} (f : A -> V) (l : list (string * A)) :
  forall (m0 : list (string * V)) id,
    NoDup l.*1 ->
    Map_get (fold_left (fun m '(k, a) => Map_set m k (f a)) l m0) id
    = match Map_get l id with
      | Some a => Some (f a)
      | None => Map_get m0 id
      end.
Proof.
  induction l as [|[k a] l IH]; intros m0 id Hnd; [done|].
  simpl in Hnd. apply NoDup_cons in Hnd as [Hfresh Hnd].
  cbn [fold_left]. rewrite IH by done. simpl.
  destruct (decide (k = id)) as [->|Hne].
  - apply Map_get_None_keys in Hfresh. rewrite Hfresh.
    apply Map_get_set_eq.
  - destruct (Map_get l id); [done|]. apply Map_get_set_ne. done.
Qed.

(** X17. The reported win rates are rates. For an orchestrator built by
    the public operations, [getStrategyPerformance] has one row for each of
    the arms, with the wins and trials of the arm, and a win rate
    [wins / trials] in (0, 1]. *)
Theorem getStrategyPerformance_rates o id :
  orchestratorReachable o ->
  match Map_get (banditArms o) id with
  | Some arm =>
      exists winRate,
        Map_get (getStrategyPerformance o) id
        = Some (BanditArm.wins arm, BanditArm.trials arm, winRate)
        ∧ winRate == BanditArm.wins arm / BanditArm.trials arm
        ∧ 0 < winRate <= 1
  | None => Map_get (getStrategyPerformance o) id = None
  end.
Proof.
  intros Hr.
  destruct (orchestratorReachable_inv o Hr) as (Hkeys & _ & Hok & _).
  unfold getStrategyPerformance.
  rewrite (fold_Map_set_lookup
             (fun arm => (BanditArm.wins arm, BanditArm.trials arm,
                          if (BanditArm.trials arm >? 0)%js
                          then BanditArm.wins arm / BanditArm.trials arm
                          else 0))).
  2:{ rewrite Hkeys. vm_compute. repeat constructor; set_solver. }
  destruct (Map_get (banditArms o) id) as [arm|] eqn:Harm; [|done].
  apply Map_get_Some_elem in Harm.
  destruct (Hok _ _ Harm) as (Hid & Hw & Hsum & Ha & Hb).
  assert (Htrials : 0 < BanditArm.trials arm) by lra.
  apply gtb_gt in Htrials. rewrite Htrials. apply gtb_gt in Htrials.
  eexists. split; [done|]. split; [reflexivity|]. rewrite Hw. split.
  - apply Qlt_shift_div_l; lra.
  - apply Qle_shift_div_r; lra.
Qed.
End OrchestratorArms.

Section OrchestratorArmsSamples.
Import AIOrchestrator.
Local Open Scope Q_scope.

Lemma rewardTimes_reachable n o signal profits :
  orchestratorReachable o ->
  orchestratorReachable (rewardTimes n o signal profits).
Proof.
  intros Hr. induction n as [|n IH]; [done|].
  cbn [rewardTimes]. apply oreach_updateReward. done.
Qed.

Lemma orchestratorRewarded_reachable :
  orchestratorReachable MoreSamples.orchestratorRewarded.
Proof. apply rewardTimes_reachable, oreach_new. Qed.

Lemma arm_counters_consistent_witness :
  exists arm,
    Map_get (banditArms MoreSamples.orchestratorRewarded) "trend_following"
    = Some arm
    ∧ BanditArm.alpha arm + BanditArm.beta arm == BanditArm.trials arm + 1
    ∧ 0 < BanditArm.wins arm / BanditArm.trials arm <= 1.
Proof.
  eexists. split; [vm_compute; reflexivity|].
  edestruct (arm_counters_consistent MoreSamples.orchestratorRewarded
               "trend_following")
    as (_ & _ & Hsum & _ & _ & Hrate).
  - apply orchestratorRewarded_reachable.
  - vm_compute. reflexivity.
  - split; [exact Hsum|exact Hrate].
Defined.

Lemma strategies_are_fixed_witness :
  (banditArms MoreSamples.orchestratorRewarded).*1 = strategyConfigs.*1.
Proof.
  apply (strategies_are_fixed MoreSamples.orchestratorRewarded).
  apply orchestratorRewarded_reachable.
Defined.

Lemma orchestrator_buffers_bounded_witness :
  (length (recentSignals Samples.orchestratorLater) <= 100)%nat.
Proof.
  apply (orchestrator_buffers_bounded Samples.orchestratorLater).
  unfold Samples.orchestratorLater. apply oreach_acceptSignal, oreach_new.
Defined.

Lemma rewards_are_counted_witness :
  exists arm',
    Map_get (banditArms MoreSamples.orchestratorRewarded) "trend_following"
    = Some arm'
    ∧ BanditArm.alpha arm' == 1 + 2
    ∧ BanditArm.beta arm' == 1 + (3 - 2)
    ∧ BanditArm.trials arm' == 1 + 3.
Proof.
  destruct (rewards_are_counted 3 Samples.orchestrator
              (Samples.signal "BTCUSDT" buy 100 1000) MoreSamples.profits
              {| BanditArm.strategyId := "trend_following";
                 BanditArm.wins := 1; BanditArm.trials := 1;
                 BanditArm.alpha := 1; BanditArm.beta := 1 |})
    as (arm' & Hget & Ha & _ & Hb & Ht).
  - vm_compute. reflexivity.
  - exists arm'. split; [exact Hget|].
    split; [exact Ha|]. split; [exact Hb|exact Ht].
Defined.

Lemma updateReward_touches_one_strategy_witness :
  Map_get (banditArms
             (updateReward Samples.orchestrator
                (Samples.signal "BTCUSDT" buy 100 1000) 5)) "momentum"
  = Map_get (banditArms Samples.orchestrator) "momentum".
Proof.
  apply (updateReward_touches_one_strategy Samples.orchestrator
           (Samples.signal "BTCUSDT" buy 100 1000) 5).
  discriminate.
Defined.

Lemma getStrategyPerformance_rates_witness :
  exists winRate,
    Map_get (getStrategyPerformance MoreSamples.orchestratorRewarded)
      "trend_following" = Some (3, 4, winRate)
    ∧ 0 < winRate <= 1.
Proof.
  destruct (getStrategyPerformance_rates MoreSamples.orchestratorRewarded
              "trend_following" orchestratorRewarded_reachable)
    as (winRate & Hrow & _ & Hrange).
  exists winRate. split; [exact Hrow|exact Hrange].
Defined.
End OrchestratorArmsSamples.

(** ** The orchestrator: the selection of a strategy *)

Section SelectionFacts.
Context {math : MathLib}.
Import AIOrchestrator.
Local Open Scope Q_scope.

Implicit Types (o : AIOrchestrator.t) (samples : list (string * Q)).

Lemma bind_neverRaises {A B} (m : Rand.t A) (k : A -> Rand.t B) :
  neverRaises m -> (forall a, neverRaises (k a)) ->
  neverRaises (Rand.bind m k).
Proof.
  intros Hm Hk draws cursor. unfold Rand.bind.
  pose proof (Hm draws cursor) as Hm'.
  destruct (m draws cursor) as [a c| |]; [apply Hk|done|done].
Qed.

Lemma normalSample_neverRaises : neverRaises normalSample.
Proof.
  unfold normalSample.
  repeat (apply bind_neverRaises; [done|intros ?]). done.
Qed.

Lemma drawCandidate_neverRaises fuel c : neverRaises (drawCandidate fuel c).
Proof.
  induction fuel as [|fuel IH]; [done|]. simpl.
  apply bind_neverRaises; [apply normalSample_neverRaises|intros x].
  destruct (_ <=? _)%js; done.
Qed.

Lemma squeeze_neverRaises fuel d c : neverRaises (squeeze fuel d c).
Proof.
  induction fuel as [|fuel IH]; [done|]. simpl.
  apply bind_neverRaises; [apply drawCandidate_neverRaises|intros xv].
  apply bind_neverRaises; [done|intros u].
  destruct (_ <? _)%js; [done|]. destruct (_ <? _)%js; done.
Qed.

Lemma gammaSample_neverRaises fuel : forall shape,
  neverRaises (gammaSample fuel shape).
Proof.
  induction fuel as [|fuel IH]; intros shape; [done|]. simpl.
  destruct (_ <? _)%js; [|apply squeeze_neverRaises].
  apply bind_neverRaises; [apply IH|intros g].
  apply bind_neverRaises; [done|intros u]. done.
Qed.

Lemma betaSample_neverRaises fuel alpha beta :
  neverRaises (betaSample fuel alpha beta).
Proof.
  unfold betaSample.
  repeat (apply bind_neverRaises; [apply gammaSample_neverRaises|intros ?]).
  done.
Qed.

Lemma drawSamples_neverRaises fuel arms features regime :
  neverRaises (drawSamples fuel arms features regime).
Proof.
  induction arms as [|[strategyId arm] arms IH]; [done|]. simpl.
  apply bind_neverRaises; [apply betaSample_neverRaises|intros sample].
  apply bind_neverRaises; [apply IH|intros samples]. done.
Qed.

(** The samples are those of the arms, in the order of the arms. *)
Lemma drawSamples_ids fuel features regime arms : forall draws cursor samples c',
  drawSamples fuel arms features regime draws cursor = Rand.Value samples c' ->
  samples.*1 = arms.*1.
Proof.
  induction arms as [|[strategyId arm] arms IH];
    intros draws cursor samples c' Hrun.
  - injection Hrun as <- <-. done.
  - simpl in Hrun. apply bind_Value in Hrun as (sample & c1 & _ & Hrun).
    apply bind_Value in Hrun as (rest & c2 & Hrest & Hret).
    injection Hret as <- <-. simpl. f_equal. eapply IH. done.
Qed.

Lemma insertDesc_elem x sorted s :
  s ∈ insertDesc x sorted <-> s = x ∨ s ∈ sorted.
Proof.
  induction sorted as [|y rest IH]; simpl.
  - rewrite list_elem_of_singleton, elem_of_nil. tauto.
  - destruct (_ >? _)%js; rewrite !elem_of_cons; [rewrite IH|]; naive_solver.
Qed.

Lemma sortDesc_elem samples s : s ∈ sortDesc samples <-> s ∈ samples.
Proof.
  induction samples as [|x samples IH]; simpl; [done|].
  rewrite insertDesc_elem, elem_of_cons, IH. tauto.
Qed.

Lemma insertDesc_length x sorted :
  length (insertDesc x sorted) = S (length sorted).
Proof.
  induction sorted as [|y rest IH]; simpl; [done|].
  destruct (_ >? _)%js; simpl; [rewrite IH|]; done.
Qed.

Lemma sortDesc_length samples : length (sortDesc samples) = length samples.
Proof.
  induction samples as [|x samples IH]; simpl; [done|].
  rewrite insertDesc_length, IH. done.
Qed.

(** The first of the sorted samples is a largest one. *)
Lemma sortDesc_head samples best rest :
  sortDesc samples = best :: rest ->
  forall s, s ∈ samples -> s.2 <= best.2.
Proof.
  revert best rest.
  induction samples as [|x samples IH]; intros best rest Hsort s Hin.
  { apply elem_of_nil in Hin. done. }
  simpl in Hsort.
  destruct (sortDesc samples) as [|y sorted] eqn:Hs.
  - assert (samples = []) as ->.
    { apply nil_length_inv. rewrite <- sortDesc_length, Hs. done. }
    injection Hsort as <- <-.
    apply list_elem_of_singleton in Hin as ->. lra.
  - simpl in Hsort. destruct (_ >? _)%js eqn:Hb; injection Hsort as <- <-.
    + apply gtb_gt in Hb.
      apply elem_of_cons in Hin as [->|Hin]; [lra|].
      eapply IH; done.
    + apply gtb_le in Hb.
      apply elem_of_cons in Hin as [->|Hin]; [lra|].
      pose proof (IH y sorted eq_refl s Hin). lra.
Qed.

(** How a run of [selectStrategy] that returns has gone. *)
Lemma selectStrategy_run fuel o features regime draws cursor id cursor' :
  selectStrategy fuel o features regime draws cursor = Rand.Value id cursor' ->
  exists samples c0,
    drawSamples fuel (banditArms o) features regime draws cursor
      = Rand.Value samples c0
    ∧ ((draws c0 < explorationRate (config o)
        ∧ cursor' = S (S c0)
        ∧ exists s, s ∈ samples ∧ s.1 = id)
       ∨ (explorationRate (config o) <= draws c0
          ∧ cursor' = S c0
          ∧ exists best rest,
              sortDesc samples = best :: rest ∧ best.1 = id)).
Proof.
  intros Hrun.
  apply selectStrategy_Value in Hrun as (samples & c0 & Hs & Hk).
  exists samples, c0. split; [done|].
  unfold Rand.bind, Rand.random in Hk.
  destruct (_ <? _)%js eqn:Hb.
  - left. apply ltb_lt in Hb. split; [done|].
    destruct (_ <? _)%Z; [done|].
    destruct (sortDesc samples !! _) as [s|] eqn:Hlook; [|done].
    injection Hk as <- <-. split; [done|].
    exists s. split; [|done].
    apply sortDesc_elem. eapply list_elem_of_lookup_2. done.
  - right. apply ltb_ge in Hb. split; [done|].
    destruct (sortDesc samples) as [|best rest]; [done|].
    injection Hk as <- <-. split; [done|]. eauto.
Qed.

(** X18. [selectStrategy] returns the id of an arm. Whenever a run
    returns, by the exploration step or by the choice of the best sample,
    the strategy id it returns is the key of one of the bandit arms. *)
Theorem selectStrategy_returns_an_arm fuel o features regime draws cursor
    id cursor' :
  selectStrategy fuel o features regime draws cursor = Rand.Value id cursor' ->
  id ∈ (banditArms o).*1.
Proof.
  intros Hrun.
  apply selectStrategy_run in Hrun as (samples & c0 & Hs & Hcase).
  apply drawSamples_ids in Hs. rewrite <- Hs.
  destruct Hcase as [(_ & _ & s & Hin & <-)|(_ & _ & best & rest & Hsort & <-)].
  - apply list_elem_of_fmap. exists s. done.
  - apply list_elem_of_fmap. exists best. split; [done|].
    apply sortDesc_elem. rewrite Hsort. left.
Qed.

(** X19. Without exploration the best sample wins. When the draw that
    decides on exploration is not below the exploration rate,
    [selectStrategy] consumes no further draw and returns a strategy whose
    adjusted sample is the largest of all. *)
Theorem exploitation_selects_best fuel o features regime draws cursor
    id cursor' samples c0 :
  selectStrategy fuel o features regime draws cursor = Rand.Value id cursor' ->
  drawSamples fuel (banditArms o) features regime draws cursor
    = Rand.Value samples c0 ->
  explorationRate (config o) <= draws c0 ->
  cursor' = S c0
  ∧ exists best,
      (id, best) ∈ samples ∧ forall s, s ∈ samples -> s.2 <= best.
Proof.
  intros Hrun Hs Hexploit.
  apply selectStrategy_run in Hrun as (samples' & c0' & Hs' & Hcase).
  rewrite Hs in Hs'. injection Hs' as <- <-.
  destruct Hcase as [(Hlt & _)|(_ & -> & best & rest & Hsort & <-)]; [lra|].
  split; [done|]. exists best.2. split.
  - apply sortDesc_elem. rewrite Hsort. destruct best. left.
  - apply (sortDesc_head samples best rest Hsort).
Qed.

Lemma random_index_in_range (r : Q) (n : nat) :
  0 <= r -> r < 1 -> (0 < n)%nat ->
  (0 <= Math_floor (r * ofNat n))%Z
  ∧ (Z.to_nat (Math_floor (r * ofNat n)) < n)%nat.
Proof.
  intros H0 H1 Hn. unfold Math_floor, ofNat.
  assert (Hpos : 0 < inject_Z (Z.of_nat n)).
  { change 0 with (inject_Z 0). rewrite <- Zlt_Qlt. lia. }
  assert (Hlo : (0 <= Qfloor (r * inject_Z (Z.of_nat n)))%Z).
  { change 0%Z with (Qfloor 0). apply Qfloor_resp_le.
    apply Qmult_le_0_compat; lra. }
  split; [done|].
  assert (Hhi : (Qfloor (r * inject_Z (Z.of_nat n)) < Z.of_nat n)%Z).
  { rewrite Zlt_Qlt.
    eapply Qle_lt_trans; [apply Qfloor_le|]. nra. }
  lia.
Qed.

(** X20. [selectStrategy] raises no [TypeError]. With at least one arm and
    draws in [0, 1), the index of the exploration step is within the
    samples and the sorted samples are not empty: the run returns a
    strategy unless a sampling loop does not end. *)
Theorem selectStrategy_never_raises fuel o features regime draws cursor :
  banditArms o ≠ [] ->
  unitDraws draws ->
  selectStrategy fuel o features regime draws cursor ≠ Rand.TypeErr.
Proof.
  intros Harms Hdraws. unfold selectStrategy, Rand.bind at 1.
  pose proof (drawSamples_neverRaises fuel (banditArms o) features regime
                draws cursor) as Hnr.
  destruct (drawSamples _ _ _ _ _ _) as [samples c0| |] eqn:Hs; [|done..].
  assert (Hlen : (0 < length (sortDesc samples))%nat).
  { rewrite sortDesc_length.
    apply drawSamples_ids in Hs.
    rewrite <- (length_fmap fst), Hs, length_fmap.
    destruct (banditArms o); [done|]. simpl. lia. }
  unfold Rand.bind, Rand.random.
  destruct (_ <? _)%js.
  - destruct (Hdraws (S c0)) as [H0 H1].
    destruct (random_index_in_range (draws (S c0))
                (length (sortDesc samples)) H0 H1 Hlen) as [Hlo Hhi].
    apply Z.ltb_ge in Hlo. rewrite Hlo.
    apply lookup_lt_is_Some_2 in Hhi as [s ->]. done.
  - destruct (sortDesc samples); [simpl in Hlen; lia|done].
Qed.
End SelectionFacts.

Section SelectionSamples.
Import AIOrchestrator.
Local Open Scope Q_scope.

Lemma selectStrategy_returns_an_arm_witness :
  "scalping" ∈ (banditArms Samples.orchestrator).*1.
Proof.
  apply (selectStrategy_returns_an_arm (math := SampleMath.lib) 5
           Samples.orchestrator Samples.features Samples.regime
           Samples.draws 0%nat "scalping" 49%nat).
  vm_compute. reflexivity.
Defined.

(** The samples of the sample run, after 48 draws. *)
Example drawSamples_sample :
  exists samples,
    drawSamples (math := SampleMath.lib) 5 (banditArms Samples.orchestrator)
      Samples.features Samples.regime Samples.draws 0%nat
    = Rand.Value samples 48%nat.
Proof. vm_compute. eexists. reflexivity. Qed.

Lemma exploitation_selects_best_witness :
  exists (samples : list (string * Q)) best,
    ("scalping", best) ∈ samples
    ∧ forall s, s ∈ samples -> s.2 <= best.
Proof.
  destruct drawSamples_sample as [samples Hs]. exists samples.
  apply (exploitation_selects_best (math := SampleMath.lib) 5
           Samples.orchestrator Samples.features Samples.regime
           Samples.draws 0%nat "scalping" 49%nat samples 48%nat).
  - vm_compute. reflexivity.
  - exact Hs.
  - vm_compute. discriminate.
Defined.

Lemma draws_unit : unitDraws Samples.draws.
Proof.
  intros n. unfold Samples.draws.
  destruct (n mod 3)%nat as [|[|?]]; split; vm_compute; congruence.
Qed.

Lemma selectStrategy_never_raises_witness :
  selectStrategy (math := SampleMath.lib) 5 Samples.orchestrator
    Samples.features Samples.regime Samples.draws 0%nat ≠ Rand.TypeErr.
Proof.
  apply (selectStrategy_never_raises (math := SampleMath.lib) 5
           Samples.orchestrator Samples.features Samples.regime
           Samples.draws 0%nat).
  - vm_compute. discriminate.
  - apply draws_unit.
Defined.
End SelectionSamples.

(** ** The orchestrator: the signals it returns *)

Section AcceptedSignals.
Context {math : MathLib}.
Import AIOrchestrator.
Local Open Scope Q_scope.

Implicit Types (o : AIOrchestrator.t) (signal : TradingSignal.t).

Ltac split_ifs :=
  repeat match goal with
         | |- context [if ?b then _ else _] => destruct b
         end.

(** What every strategy leaves of the base signal: a strategy either
    returns it as it is, a [hold] of confidence 0, or sets a [buy] or a
    [sell]. *)
Lemma executeStrategy_base strategyId symbol price features regime now :
  let signal :=
    executeStrategy strategyId symbol price features regime now in
  TradingSignal.symbol signal = symbol
  ∧ TradingSignal.strategy signal = strategyId
  ∧ TradingSignal.price signal = price
  ∧ TradingSignal.timestamp signal = now
  ∧ (TradingSignal.action signal = hold ->
     TradingSignal.confidence signal = 0).
Proof.
  unfold executeStrategy, trendFollowingStrategy, momentumStrategy,
    meanReversionStrategy, breakoutStrategy, scalpingStrategy,
    swingTradingStrategy, statisticalArbitrageStrategy,
    contextualBanditsStrategy, withSignal.
  cbv zeta. split_ifs; simpl; repeat split; done.
Qed.

Lemma acceptSignal_Some o saveSignal symbol signal features regime now o'
    signal' signalId :
  acceptSignal o saveSignal symbol signal features regime now
  = (o', Some (signal', signalId)) ->
  signal' = signal
  ∧ saveSignal signal features regime = Some signalId
  ∧ signalId ≠ ""
  ∧ minConfidenceThreshold (config o) <= TradingSignal.confidence signal
  ∧ lastSignalTime o' !! symbol = Some now
  ∧ last (recentSignals o') = Some signal
  ∧ banditArms o' = banditArms o
  ∧ strategies o' = strategies o
  ∧ config o' = config o.
Proof.
  unfold acceptSignal.
  destruct (_ >=? _)%js eqn:Hconf; [|done]. apply geb_ge in Hconf.
  destruct (saveSignal _ _ _) as [sid|]; [|done].
  destruct (decide (sid = "")); [done|].
  intros [= <- <- <-]. simpl.
  repeat split; try done.
  - apply lookup_insert_eq.
  - destruct (_ <? _)%nat eqn:Hlen; [|apply last_snoc].
    apply Nat.ltb_lt in Hlen.
    destruct (recentSignals o) as [|s0 rest]; [simpl in Hlen; lia|].
    simpl. apply last_snoc.
Qed.

(** X21. What a returned signal guarantees. When [generateSignal] returns
    a signal, the signal is for the requested symbol at the given price and
    time, from a strategy that has an arm; its confidence is at least the
    threshold; the collaborator has stored it under the returned,
    non-empty id; it is the newest of the recent signals and the cooldown
    of the symbol runs from now; arms, strategies and configuration are
    untouched; and with a positive threshold it is never a [hold]. *)
Theorem returned_signal_guarantees fuel o saveSignal symbol price features
    regime now draws cursor o' signal signalId cursor' :
  generateSignal fuel o saveSignal symbol price features regime now
    draws cursor = Rand.Value (o', Some (signal, signalId)) cursor' ->
  TradingSignal.symbol signal = symbol
  ∧ TradingSignal.price signal = price
  ∧ TradingSignal.timestamp signal = now
  ∧ TradingSignal.strategy signal ∈ (banditArms o).*1
  ∧ minConfidenceThreshold (config o) <= TradingSignal.confidence signal
  ∧ saveSignal signal features regime = Some signalId
  ∧ signalId ≠ ""
  ∧ last (recentSignals o') = Some signal
  ∧ lastSignalTime o' !! symbol = Some now
  ∧ banditArms o' = banditArms o
  ∧ strategies o' = strategies o
  ∧ config o' = config o
  ∧ (0 < minConfidenceThreshold (config o) ->
     TradingSignal.action signal ≠ hold).
Proof.
  intros Hrun.
  destruct (generateSignal_cases fuel o saveSignal symbol price features
              regime now draws cursor) as [Hnone|Hsel];
    [rewrite Hnone in Hrun; done|].
  rewrite Hsel in Hrun.
  destruct (selectStrategy fuel o features regime draws cursor)
    as [selected c1| |] eqn:Hselect; [|done..].
  injection Hrun as Haccept <-.
  apply acceptSignal_Some in Haccept
    as (-> & Hsave & Hid & Hconf & Htime & Hlast & Harms & Hstrats & Hcfg).
  destruct (executeStrategy_base selected symbol price features regime now)
    as (Hsym & Hstrat & Hprice & Hstamp & Hhold).
  repeat split; try done.
  - rewrite Hstrat.
    apply selectStrategy_run in Hselect as (samples & c0 & Hs & Hcase).
    apply drawSamples_ids in Hs. rewrite <- Hs.
    destruct Hcase
      as [(_ & _ & s & Hin & <-)|(_ & _ & best & rest & Hsort & <-)].
    + apply list_elem_of_fmap. exists s. done.
    + apply list_elem_of_fmap. exists best. split; [done|].
      apply sortDesc_elem. rewrite Hsort. left.
  - intros Hpos Hact. apply Hhold in Hact. rewrite Hact in Hconf. lra.
Qed.

(** X22. The cooldown holds. After [generateSignal] has returned a signal
    for a symbol at time [now], every call for that symbol at a time less
    than the cooldown later returns no signal, whatever its other
    arguments, without a draw and without changing the orchestrator. *)
Theorem cooldown_blocks_next_signal fuel o saveSignal symbol price features
    regime now draws cursor o' result cursor'
    fuel2 saveSignal2 price2 features2 regime2 now2 draws2 cursor2 :
  generateSignal fuel o saveSignal symbol price features regime now
    draws cursor = Rand.Value (o', Some result) cursor' ->
  ofZ (now2 - now) < signalCooldownMs (config o) ->
  generateSignal fuel2 o' saveSignal2 symbol price2 features2 regime2 now2
    draws2 cursor2 = Rand.Value (o', None) cursor2.
Proof.
  intros Hrun Hsoon.
  destruct (generateSignal_cases fuel o saveSignal symbol price features
              regime now draws cursor) as [Hnone|Hsel];
    [rewrite Hnone in Hrun; done|].
  rewrite Hsel in Hrun.
  destruct (selectStrategy fuel o features regime draws cursor)
    as [selected c1| |]; [|done..].
  injection Hrun as Haccept <-. destruct result as [signal signalId].
  apply acceptSignal_Some in Haccept
    as (_ & _ & _ & _ & Htime & _ & _ & _ & Hcfg).
  unfold generateSignal. rewrite Htime, Hcfg. simpl.
  apply ltb_lt in Hsoon. rewrite Hsoon. done.
Qed.

(** X23. Confidence is at most 1. For features with an order-flow
    imbalance in [-1, 1] and a mean reversion of at most 1, and a regime
    confidence in [0, 1], the signal of every strategy has a confidence of
    at most 1. *)
Theorem executeStrategy_confidence_at_most_1 strategyId symbol price
    features regime now :
  Math_abs (FeatureSet.ofi features) <= 1 ->
  FeatureSet.meanReversion features <= 1 ->
  0 <= MarketRegime.confidence regime <= 1 ->
  TradingSignal.confidence
    (executeStrategy strategyId symbol price features regime now) <= 1.
Proof.
  intros Hofi Hmr [Hc0 Hc1].
  unfold executeStrategy, trendFollowingStrategy, momentumStrategy,
    meanReversionStrategy, breakoutStrategy, scalpingStrategy,
    swingTradingStrategy, statisticalArbitrageStrategy,
    contextualBanditsStrategy, withSignal, Math_min.
  cbv zeta. split_ifs; simpl; try done; try lra;
    try (eapply Qle_trans; [apply Q.le_min_r|lra]).
  - destruct (Qlt_le_dec (FeatureSet.meanReversion features) 0); nra.
  - destruct (Qlt_le_dec (FeatureSet.meanReversion features) 0); nra.
  - pose proof (Q.le_min_r
      (Math_abs (FeatureSet.correlation features)
       + FeatureSet.meanReversion features) 1). lra.
  - pose proof (Q.le_min_r
      (Math_abs (FeatureSet.correlation features)
       + FeatureSet.meanReversion features) 1). lra.
Qed.
End AcceptedSignals.

Section AcceptedSignalsSamples.
Import AIOrchestrator.
Local Open Scope Q_scope.

(** The sample run returns a signal, stored as [sig-1]. *)
Example generateSignal_sample_run :
  exists o' signal cursor',
    generateSignal (math := SampleMath.lib) 5 Samples.orchestrator
      Samples.workingSave "BTCUSDT" 100 Samples.features Samples.regime
      100000 Samples.draws 0%nat
    = Rand.Value (o', Some (signal, "sig-1")) cursor'.
Proof. vm_compute. eexists _, _, _. reflexivity. Qed.

Lemma returned_signal_guarantees_witness :
  exists signal,
    TradingSignal.symbol signal = "BTCUSDT"
    ∧ TradingSignal.strategy signal ∈ (banditArms Samples.orchestrator).*1
    ∧ TradingSignal.action signal ≠ hold.
Proof.
  destruct generateSignal_sample_run as (o' & signal & cursor' & Hrun).
  exists signal.
  destruct (returned_signal_guarantees (math := SampleMath.lib) 5
              Samples.orchestrator Samples.workingSave "BTCUSDT" 100
              Samples.features Samples.regime 100000 Samples.draws 0%nat
              o' signal "sig-1" cursor' Hrun)
    as (Hsym & _ & _ & Harm & _ & _ & _ & _ & _ & _ & _ & _ & Hact).
  split; [exact Hsym|]. split; [exact Harm|].
  apply Hact. vm_compute. reflexivity.
Defined.

Lemma cooldown_blocks_next_signal_witness :
  exists o',
    generateSignal (math := SampleMath.lib) 7 o' Samples.failingSave
      "BTCUSDT" 101 Samples.features Samples.regime 110000 Samples.draws 3%nat
    = Rand.Value (o', None) 3%nat.
Proof.
  destruct generateSignal_sample_run as (o' & signal & cursor' & Hrun).
  exists o'.
  apply (cooldown_blocks_next_signal (math := SampleMath.lib) 5
           Samples.orchestrator Samples.workingSave "BTCUSDT" 100
           Samples.features Samples.regime 100000 Samples.draws 0%nat
           o' (signal, "sig-1") cursor').
  - exact Hrun.
  - vm_compute. reflexivity.
Defined.

Lemma executeStrategy_confidence_at_most_1_witness :
  TradingSignal.confidence
    (executeStrategy "scalping" "BTCUSDT" 100 Samples.features
       Samples.regime 100000) <= 1.
Proof.
  apply (executeStrategy_confidence_at_most_1 "scalping" "BTCUSDT" 100
           Samples.features Samples.regime 100000).
  - vm_compute. discriminate.
  - vm_compute. discriminate.
  - split; vm_compute; discriminate.
Defined.
End AcceptedSignalsSamples.

(** ** The orchestrator: the statistics of the recent signals *)

Section SignalStatistics.
Import AIOrchestrator.
Local Open Scope Q_scope.

Implicit Types (o : AIOrchestrator.t) (signal : TradingSignal.t)
  (stats : list (string * (nat * Q))).

Lemma strategyCount_cons strategy signal signals :
  strategyCount strategy (signal :: signals)
  = ((if decide (TradingSignal.strategy signal = strategy) then 1 else 0)
     + strategyCount strategy signals)%nat.
Proof.
  unfold strategyCount. rewrite filter_cons.
  destruct (decide _); done.
Qed.

Lemma countAll_count signals : forall stats strategy,
  (default (O, 0%Q) (Map_get (fold_left countSignal signals stats) strategy)).1
  = ((default (O, 0%Q) (Map_get stats strategy)).1
     + strategyCount strategy signals)%nat.
Proof.
  induction signals as [|signal signals IH]; intros stats strategy.
  - unfold strategyCount. simpl. lia.
  - cbn [fold_left]. rewrite IH, strategyCount_cons. unfold countSignal.
    destruct (decide (TradingSignal.strategy signal = strategy)) as [->|Hne].
    + rewrite Map_get_set_eq. simpl. lia.
    + rewrite Map_get_set_ne by done. lia.
Qed.

Lemma countAll_positive signals : forall stats,
  (forall k v, (k, v) ∈ stats -> (0 < v.1)%nat) ->
  forall k v, (k, v) ∈ fold_left countSignal signals stats -> (0 < v.1)%nat.
Proof.
  induction signals as [|signal signals IH]; intros stats Hpos; [done|].
  cbn [fold_left]. apply IH. intros k v Hin.
  apply Map_set_elem in Hin as [[= -> ->]|Hin]; [simpl; lia|eauto].
Qed.

Lemma countAll_NoDup signals : forall stats,
  NoDup stats.*1 -> NoDup (fold_left countSignal signals stats).*1.
Proof.
  induction signals as [|signal signals IH]; intros stats Hnd; [done|].
  cbn [fold_left]. apply IH, Map_set_NoDup. done.
Qed.

Lemma insertByCount_elem x sorted row :
  row ∈ insertByCount x sorted <-> row = x ∨ row ∈ sorted.
Proof.
  induction sorted as [|y rest IH]; simpl.
  - rewrite list_elem_of_singleton, elem_of_nil. tauto.
  - destruct (_ <? _)%nat; rewrite !elem_of_cons; [rewrite IH|]; naive_solver.
Qed.

Lemma sortByCount_elem rows row : row ∈ sortByCount rows <-> row ∈ rows.
Proof.
  induction rows as [|x rows IH]; simpl; [done|].
  rewrite insertByCount_elem, elem_of_cons, IH. tauto.
Qed.

Lemma sortByCount_head rows first rest :
  sortByCount rows = first :: rest ->
  forall row, row ∈ rows -> (stat_count row <= stat_count first)%nat.
Proof.
  revert first rest.
  induction rows as [|x rows IH]; intros first rest Hsort row Hin.
  { apply elem_of_nil in Hin. done. }
  simpl in Hsort.
  destruct (sortByCount rows) as [|y sorted] eqn:Hs.
  - assert (rows = []) as ->.
    { destruct rows as [|z rows]; [done|].
      assert (Hz : z ∈ sortByCount (z :: rows))
        by (apply sortByCount_elem; left).
      rewrite Hs in Hz. apply elem_of_nil in Hz. done. }
    injection Hsort as <- <-.
    apply list_elem_of_singleton in Hin as ->. done.
  - simpl in Hsort. destruct (_ <? _)%nat eqn:Hb; injection Hsort as <- <-.
    + apply Nat.ltb_lt in Hb.
      apply elem_of_cons in Hin as [->|Hin]; [lia|].
      eapply IH; done.
    + apply Nat.ltb_ge in Hb.
      apply elem_of_cons in Hin as [->|Hin]; [lia|].
      pose proof (IH y sorted eq_refl row Hin). lia.
Qed.

(** X24. The statistics count the signals. In the result of
    [getSignalStats] the signals of the last 24 hours are at most the
    total; there are at most five top strategies; the count of each of
    their rows is the number of recent signals of its strategy, and is
    positive; and the first row belongs to a strategy with the most recent
    signals. *)
Theorem getSignalStats_counts o now :
  (signalsLast24h (getSignalStats o now)
   <= totalSignals (getSignalStats o now))%nat
  ∧ (length (topStrategies (getSignalStats o now)) <= 5)%nat
  ∧ (forall row, row ∈ topStrategies (getSignalStats o now) ->
       stat_count row = strategyCount (stat_strategy row) (recentSignals o)
       ∧ (0 < stat_count row)%nat)
  ∧ (forall first rest,
       topStrategies (getSignalStats o now) = first :: rest ->
       forall strategy,
         (strategyCount strategy (recentSignals o) <= stat_count first)%nat).
Proof.
  unfold getSignalStats.
  cbn [signalsLast24h totalSignals topStrategies].
  set (stats := fold_left countSignal (recentSignals o) []).
  set (toRow := fun entry : string * (nat * Q) =>
                  {| stat_strategy := entry.1;
                     stat_count := entry.2.1;
                     stat_avgConfidence := entry.2.2 / ofNat entry.2.1 |}).
  assert (Hnd : NoDup stats.*1) by (apply countAll_NoDup, NoDup_nil_2).
  assert (Hcount : forall k v, (k, v) ∈ stats ->
            v.1 = strategyCount k (recentSignals o) ∧ (0 < v.1)%nat).
  { intros k v Hin. split.
    - pose proof (countAll_count (recentSignals o) [] k) as Hc.
      fold stats in Hc.
      rewrite (Map_get_elem_NoDup stats k v Hnd Hin) in Hc. simpl in Hc.
      done.
    - apply (countAll_positive (recentSignals o) []) with (k := k); [|done].
      intros k' v' Hnil. apply elem_of_nil in Hnil. done. }
  split; [apply length_filter|].
  split; [rewrite length_take; lia|].
  split.
  - intros row Hin. apply elem_of_take in Hin as (i & Hin & _).
    apply list_elem_of_lookup_2 in Hin. rewrite sortByCount_elem in Hin.
    apply list_elem_of_fmap in Hin as ([k v] & -> & Hin).
    simpl. apply Hcount. done.
  - intros first rest Htop strategy.
    destruct (sortByCount (toRow <$> stats)) as [|first' sorted] eqn:Hsort;
      [done|].
    injection Htop as -> _.
    pose proof (countAll_count (recentSignals o) [] strategy) as Hc.
    fold stats in Hc. simpl in Hc. rewrite <- Hc.
    destruct (Map_get stats strategy) as [v|] eqn:Hget; [|simpl; lia].
    apply Map_get_Some_elem in Hget.
    apply (sortByCount_head _ _ _ Hsort (toRow (strategy, v))).
    apply list_elem_of_fmap. exists (strategy, v). done.
Qed.
End SignalStatistics.

(** ** The feature engine: the histories as sliding windows *)

Section FeatureWindows.
Import FeatureEngine.
Local Open Scope Q_scope.

Implicit Types (fe : FeatureEngine.t) (symbol : string).

Lemma length_shifted {A} (buffer : list A) (x : A) :
  (length buffer <= maxHistoryLength)%nat ->
  (length (if (maxHistoryLength <? length (buffer ++ [x]))%nat
           then tail (buffer ++ [x]) else buffer ++ [x])
   <= maxHistoryLength)%nat.
Proof.
  intros Hle. destruct (_ <? _)%nat eqn:Hb.
  - rewrite length_tail_pred, length_app. simpl. lia.
  - apply Nat.ltb_ge in Hb. done.
Qed.

Lemma new_capped : buffersCapped FeatureEngine.new.
Proof. split; intros symbol l Hl; simpl in Hl; rewrite lookup_empty in Hl; done. Qed.

Lemma recordTicker_capped fe entry :
  buffersCapped fe -> buffersCapped (recordTicker fe entry).1.
Proof.
  intros [Hprices Hbooks]. destruct entry as [symbol ticker].
  unfold recordTicker.
  destruct (priceHistory fe !! symbol) as [prices|] eqn:Hp; simpl.
  - destruct (Hprices symbol prices Hp) as (Hlen & volumes & Hv & Hsame).
    rewrite Hv, Hp. simpl.
    assert (Hcond : (maxHistoryLength <? length (prices ++ [TickerData.price ticker]))%nat
                    = (maxHistoryLength <? length (volumes ++ [TickerData.volume ticker]))%nat).
    { rewrite !length_app, Hsame. done. }
    pose proof (length_shifted prices (TickerData.price ticker) Hlen) as Hp'.
    assert (Hlenv : (length volumes <= maxHistoryLength)%nat) by lia.
    pose proof (length_shifted volumes (TickerData.volume ticker) Hlenv) as Hv'.
    rewrite <- Hcond in Hv'.
    destruct (_ <? _)%nat eqn:Hb; simpl; split; simpl.
    + intros s l Hl. destruct (decide (s = symbol)) as [->|Hne].
      * rewrite lookup_insert_eq in Hl. injection Hl as <-.
        split; [done|]. rewrite lookup_insert_eq. eexists. split; [done|].
        rewrite !length_tail_pred, !length_app, Hsame. done.
      * rewrite !lookup_insert_ne in Hl by done.
        rewrite lookup_insert_ne by done. auto.
    + done.
    + intros s l Hl. destruct (decide (s = symbol)) as [->|Hne].
      * rewrite lookup_insert_eq in Hl. injection Hl as <-.
        split; [done|]. rewrite lookup_insert_eq. eexists. split; [done|].
        rewrite !length_app, Hsame. done.
      * rewrite !lookup_insert_ne in Hl by done.
        rewrite lookup_insert_ne by done. auto.
    + done.
  - rewrite !lookup_insert_eq. simpl.
    change (maxHistoryLength <? 1)%nat with false. simpl. split; simpl.
    + intros s l Hl. destruct (decide (s = symbol)) as [->|Hne].
      * rewrite lookup_insert_eq in Hl. injection Hl as <-.
        split; [unfold maxHistoryLength; simpl; lia|].
        rewrite lookup_insert_eq. eexists. split; done.
      * rewrite !lookup_insert_ne in Hl by done.
        rewrite !lookup_insert_ne by done. auto.
    + intros s l Hl. destruct (decide (s = symbol)) as [->|Hne].
      * rewrite lookup_insert_eq in Hl. injection Hl as <-. simpl. lia.
      * rewrite lookup_insert_ne in Hl by done. eauto.
Qed.

Lemma recordOrderBook_capped fe entry :
  buffersCapped fe -> buffersCapped (recordOrderBook fe entry).1.
Proof.
  intros [Hprices Hbooks]. destruct entry as [symbol book].
  unfold recordOrderBook.
  destruct (orderBookHistory fe !! symbol) as [books|] eqn:Hb; [|done].
  split; simpl; [done|].
  intros s l Hl. destruct (decide (s = symbol)) as [->|Hne].
  - rewrite lookup_insert_eq in Hl. injection Hl as <-.
    apply length_shifted. eauto.
  - rewrite lookup_insert_ne in Hl by done. eauto.
Qed.

Lemma updateData_capped fe marketData :
  buffersCapped fe -> buffersCapped (updateData fe marketData).1.
Proof.
  intros Hcap. unfold updateData.
  pose proof (forEach_invariant buffersCapped recordTicker
                (MarketData.tickers marketData) recordTicker_capped fe Hcap)
    as Hcap1.
  destruct (forEach recordTicker fe _) as [fe1 []]; [|done].
  apply forEach_invariant; [apply recordOrderBook_capped|done].
Qed.

Lemma lookup_filter_keys {V} (m : gmap string V) (active : list string) s :
  filter (fun kv : string * V => kv.1 ∈ active) m !! s
  = if decide (s ∈ active) then m !! s else None.
Proof.
  apply option_eq. intros v. rewrite map_lookup_filter_Some. simpl.
  destruct (decide (s ∈ active)); naive_solver.
Qed.

Lemma cleanupOldSymbols_capped fe activeSymbols :
  buffersCapped fe -> buffersCapped (cleanupOldSymbols fe activeSymbols).
Proof.
  intros [Hprices Hbooks]. split; simpl; intros s l; rewrite !lookup_filter_keys;
    destruct (decide _); try done; eauto.
Qed.

Lemma featureReachable_capped fe : featureReachable fe -> buffersCapped fe.
Proof.
  induction 1.
  - apply new_capped.
  - apply updateData_capped. done.
  - apply cleanupOldSymbols_capped. done.
Qed.

(** X25. The histories are bounded and in step. In a feature engine built
    by the public operations no history holds more than 200 entries, and
    the price and volume histories of a symbol have the same length. *)
Theorem histories_bounded_and_in_step fe symbol prices :
  featureReachable fe ->
  priceHistory fe !! symbol = Some prices ->
  (length prices <= 200)%nat
  ∧ (exists volumes,
       volumeHistory fe !! symbol = Some volumes
       ∧ length volumes = length prices)
  ∧ (exists books,
       orderBookHistory fe !! symbol = Some books
       ∧ (length books <= 200)%nat).
Proof.
  intros Hr Hp.
  destruct (featureReachable_capped fe Hr) as [Hprices Hbooks].
  destruct (Hprices symbol prices Hp) as [Hlen Hvol].
  split; [done|]. split; [done|].
  destruct (featureReachable_aligned fe Hr symbol) as [_ [books Hb]]; [eauto|].
  exists books. split; [done|]. apply (Hbooks symbol books Hb).
Qed.

Lemma lastN_app_lastN {A} (n : nat) (a b : list A) :
  lastN n (lastN n a ++ b) = lastN n (a ++ b).
Proof.
  unfold lastN. rewrite !length_app, length_drop.
  set (k := (length a - n)%nat).
  transitivity (drop (k + (length a - k + length b - n))
                  ((take k a ++ drop k a) ++ b)).
  - rewrite <- app_assoc. symmetry. apply drop_app_add'.
    rewrite length_take. lia.
  - rewrite take_drop. f_equal. lia.
Qed.

Lemma shift_is_lastN {A} (buffer : list A) (x : A) :
  (length buffer <= maxHistoryLength)%nat ->
  (if (maxHistoryLength <? length (buffer ++ [x]))%nat
   then tail (buffer ++ [x]) else buffer ++ [x])
  = lastN maxHistoryLength (buffer ++ [x]).
Proof.
  intros Hle. unfold lastN. rewrite length_app. simpl.
  destruct (_ <? _)%nat eqn:Hb.
  - apply Nat.ltb_lt in Hb.
    replace (length buffer + 1 - maxHistoryLength)%nat with 1%nat by lia.
    destruct (buffer ++ [x]); done.
  - apply Nat.ltb_ge in Hb.
    replace (length buffer + 1 - maxHistoryLength)%nat with 0%nat by lia.
    done.
Qed.

Lemma recordTicker_prices fe symbol ticker :
  buffersAligned fe -> buffersCapped fe ->
  pricesOf (recordTicker fe (symbol, ticker)).1 symbol
  = lastN maxHistoryLength (pricesOf fe symbol ++ [TickerData.price ticker]).
Proof.
  intros Hal [Hprices _]. unfold pricesOf, recordTicker.
  destruct (priceHistory fe !! symbol) as [prices|] eqn:Hp; simpl.
  - destruct (Hprices symbol prices Hp) as (Hlen & volumes & Hv & _).
    rewrite Hv, Hp. simpl.
    rewrite <- shift_is_lastN by done.
    destruct (_ <? _)%nat; simpl; rewrite lookup_insert_eq; done.
  - rewrite !lookup_insert_eq. simpl.
    change (maxHistoryLength <? 1)%nat with false. simpl.
    rewrite lookup_insert_eq. done.
Qed.

Lemma recordTicker_prices_other fe symbol entry :
  entry.1 ≠ symbol ->
  pricesOf (recordTicker fe entry).1 symbol = pricesOf fe symbol.
Proof.
  destruct entry as [other ticker]. simpl. intros Hne.
  unfold pricesOf, recordTicker.
  destruct (priceHistory fe !! other) as [prices|] eqn:Hp; simpl.
  - destruct (volumeHistory fe !! other); simpl;
      [destruct (_ <? _)%nat; simpl|];
      rewrite ?lookup_insert_ne by done; done.
  - rewrite lookup_insert_eq.
    destruct (_ <? _)%nat; simpl; rewrite ?lookup_insert_ne by done; done.
Qed.

Lemma recordOrderBook_prices fe symbol entry :
  pricesOf (recordOrderBook fe entry).1 symbol = pricesOf fe symbol.
Proof.
  destruct entry as [other book]. unfold pricesOf, recordOrderBook.
  destruct (orderBookHistory fe !! other); done.
Qed.

Lemma forEach_recordTicker_prices symbol entries : forall fe,
  buffersAligned fe -> buffersCapped fe ->
  (forEach recordTicker fe entries).2 = Normal
  ∧ pricesOf (forEach recordTicker fe entries).1 symbol
    = lastN maxHistoryLength
        (pricesOf fe symbol
         ++ ((fun entry : string * TickerData.t => TickerData.price entry.2)
               <$> filter (fun entry => entry.1 = symbol) entries)).
Proof.
  induction entries as [|entry entries IH]; intros fe Hal Hcap.
  - simpl. split; [done|]. rewrite app_nil_r. unfold lastN.
    destruct Hcap as [Hprices _]. unfold pricesOf.
    destruct (priceHistory fe !! symbol) as [prices|] eqn:Hp; [|done].
    simpl. destruct (Hprices symbol prices Hp) as [Hlen _].
    replace (length prices - maxHistoryLength)%nat with 0%nat by lia. done.
  - simpl. destruct (recordTicker_aligned fe entry Hal) as (Hn & Hal' & _).
    pose proof (recordTicker_capped fe entry Hcap) as Hcap'.
    destruct (recordTicker fe entry) as [fe' c] eqn:Hrt. simpl in *. subst c.
    destruct (IH fe' Hal' Hcap') as [Hnorm Hwin].
    split; [done|]. rewrite Hwin. rewrite filter_cons.
    change fe' with (fe', Normal).1. rewrite <- Hrt.
    destruct (decide (entry.1 = symbol)) as [Heq|Hne].
    + destruct entry as [s ticker]. simpl in Heq. subst s.
      rewrite recordTicker_prices by done.
      rewrite lastN_app_lastN, fmap_cons. simpl.
      rewrite <- app_assoc. done.
    + rewrite recordTicker_prices_other by done. done.
Qed.

Lemma forEach_recordOrderBook_prices symbol entries : forall fe,
  pricesOf (forEach recordOrderBook fe entries).1 symbol = pricesOf fe symbol.
Proof.
  induction entries as [|entry entries IH]; intros fe; [done|].
  simpl. pose proof (recordOrderBook_prices fe symbol entry) as Hs.
  destruct (recordOrderBook fe entry) as [fe' []]; simpl in *.
  - rewrite IH. done.
  - done.
Qed.

Lemma updateData_prices fe marketData symbol :
  buffersAligned fe -> buffersCapped fe ->
  pricesOf (updateData fe marketData).1 symbol
  = lastN maxHistoryLength
      (pricesOf fe symbol ++ tickerPrices symbol [marketData]).
Proof.
  intros Hal Hcap. unfold updateData, tickerPrices.
  destruct (forEach_recordTicker_prices symbol
              (MarketData.tickers marketData) fe Hal Hcap) as [Hn Hw].
  destruct (forEach recordTicker fe _) as [fe' c]. simpl in *. subst c.
  rewrite forEach_recordOrderBook_prices, Hw, app_nil_r. done.
Qed.

Lemma tickerPrices_cons symbol marketData updates :
  tickerPrices symbol (marketData :: updates)
  = tickerPrices symbol [marketData] ++ tickerPrices symbol updates.
Proof.
  unfold tickerPrices. simpl. rewrite app_nil_r, filter_app, fmap_app. done.
Qed.

Lemma runUpdates_prices symbol updates : forall fe,
  buffersAligned fe -> buffersCapped fe ->
  pricesOf (runUpdates fe updates) symbol
  = lastN maxHistoryLength (pricesOf fe symbol ++ tickerPrices symbol updates).
Proof.
  induction updates as [|marketData updates IH]; intros fe Hal Hcap.
  - destruct (forEach_recordTicker_prices symbol [] fe Hal Hcap) as [_ Hw].
    exact Hw.
  - change (runUpdates fe (marketData :: updates))
      with (runUpdates (updateData fe marketData).1 updates).
    rewrite (IH _ (updateData_aligned fe marketData Hal)
               (updateData_capped fe marketData Hcap)).
    rewrite updateData_prices by done.
    rewrite lastN_app_lastN, (tickerPrices_cons symbol marketData updates),
      app_assoc. done.
Qed.

(** X26. A history is a sliding window. After any run of [updateData]
    calls on an engine built by the public operations, whether or not some
    of them raised, the price history of a symbol is made of the last 200
    of its prices: those held before, followed by the prices of its
    ticker entries in the order of delivery. *)
Theorem price_history_is_sliding_window fe updates symbol :
  featureReachable fe ->
  pricesOf (runUpdates fe updates) symbol
  = lastN 200 (pricesOf fe symbol ++ tickerPrices symbol updates).
Proof.
  intros Hr. apply runUpdates_prices.
  - apply featureReachable_aligned. done.
  - apply featureReachable_capped. done.
Qed.
End FeatureWindows.

(** ** The feature engine: dropping and listing symbols *)

Section FeatureSymbols.
Import FeatureEngine.
Local Open Scope Q_scope.

Implicit Types (fe : FeatureEngine.t) (symbol : string).

(** X27. Cleaning up keeps the active symbols as they are. After
    [cleanupOldSymbols] on an engine built by the public operations, a
    symbol that is not active has no history and [extractFeatures] returns
    [null] for it; an active symbol keeps its three histories, and its
    features are the same as before provided BTCUSDT, the reference of the
    correlation, is active as well. (In such an engine the three maps have
    the same symbols, which the code relies on when it takes the symbols to
    remove from the price history.) *)
Theorem cleanupOldSymbols_keeps_active fe activeSymbols symbol now :
  featureReachable fe ->
  (symbol ∉ activeSymbols ->
   priceHistory (cleanupOldSymbols fe activeSymbols) !! symbol = None
   ∧ volumeHistory (cleanupOldSymbols fe activeSymbols) !! symbol = None
   ∧ orderBookHistory (cleanupOldSymbols fe activeSymbols) !! symbol = None
   ∧ extractFeatures (cleanupOldSymbols fe activeSymbols) symbol now
     = Some None)
  ∧ (symbol ∈ activeSymbols ->
     priceHistory (cleanupOldSymbols fe activeSymbols) !! symbol
     = priceHistory fe !! symbol
     ∧ volumeHistory (cleanupOldSymbols fe activeSymbols) !! symbol
       = volumeHistory fe !! symbol
     ∧ orderBookHistory (cleanupOldSymbols fe activeSymbols) !! symbol
       = orderBookHistory fe !! symbol
     ∧ ("BTCUSDT" ∈ activeSymbols ->
        extractFeatures (cleanupOldSymbols fe activeSymbols) symbol now
        = extractFeatures fe symbol now)).
Proof.
  intros _. split; intros Hactive.
  - assert (Hp : priceHistory (cleanupOldSymbols fe activeSymbols) !! symbol
                 = None).
    { simpl. rewrite lookup_filter_keys, decide_False; done. }
    repeat split; try done.
    + simpl. rewrite lookup_filter_keys, decide_False; done.
    + simpl. rewrite lookup_filter_keys, decide_False; done.
    + unfold extractFeatures. rewrite Hp. done.
  - assert (Hp : priceHistory (cleanupOldSymbols fe activeSymbols) !! symbol
                 = priceHistory fe !! symbol).
    { simpl. rewrite lookup_filter_keys, decide_True; done. }
    assert (Hv : volumeHistory (cleanupOldSymbols fe activeSymbols) !! symbol
                 = volumeHistory fe !! symbol).
    { simpl. rewrite lookup_filter_keys, decide_True; done. }
    assert (Hb : orderBookHistory (cleanupOldSymbols fe activeSymbols) !! symbol
                 = orderBookHistory fe !! symbol).
    { simpl. rewrite lookup_filter_keys, decide_True; done. }
    repeat split; try done.
    intros Hbtc.
    assert (Hbtcp : priceHistory (cleanupOldSymbols fe activeSymbols)
                      !! "BTCUSDT" = priceHistory fe !! "BTCUSDT").
    { simpl. rewrite lookup_filter_keys, decide_True; done. }
    unfold extractFeatures, calculateVVIX, calculateOFI, calculateVPIN,
      calculateCorrelation, calculateLiquidity, calculateVolatility,
      calculateMomentum, calculateMeanReversion, calculateTrend.
    rewrite Hp, Hv, Hb, Hbtcp. done.
Qed.

(** X28. The supported symbols are those with features. In an engine
    built by the public operations [getSupportedSymbols] lists exactly the
    symbols for which [extractFeatures] returns a feature set. *)
Theorem supported_symbols_have_features fe symbol now :
  featureReachable fe ->
  symbol ∈ getSupportedSymbols fe
  <-> exists featureSet,
        extractFeatures fe symbol now = Some (Some featureSet).
Proof.
  intros Hr.
  destruct (extractFeatures_by_samples fe symbol now
              (featureReachable_aligned fe Hr)) as [Hnull Hsome].
  assert (Hsupp : symbol ∈ getSupportedSymbols fe
                  <-> (10 <= priceSamples fe symbol)%nat).
  { unfold getSupportedSymbols, priceSamples. rewrite list_elem_of_fmap. split.
    - intros ([s prices] & -> & Hin).
      apply elem_of_map_to_list, map_lookup_filter_Some in Hin as [Hp Hlen].
      simpl in *. rewrite Hp. done.
    - intros Hlen.
      destruct (priceHistory fe !! symbol) as [prices|] eqn:Hp;
        [|simpl in Hlen; lia].
      exists (symbol, prices). split; [done|].
      apply elem_of_map_to_list, map_lookup_filter_Some. done. }
  rewrite Hsupp. split; [done|].
  intros [featureSet Hfs].
  destruct (decide (10 <= priceSamples fe symbol)%nat) as [|Hfew]; [done|].
  assert (Hn : extractFeatures fe symbol now = Some None)
    by (apply Hnull; lia).
  congruence.
Qed.
End FeatureSymbols.

Section FeatureWindowsSamples.
Import FeatureEngine.
Local Open Scope Q_scope.

Lemma flat_reachable : featureReachable Samples.flat.
Proof. apply feed_reachable. Qed.

Lemma histories_bounded_and_in_step_witness :
  exists prices,
    priceHistory Samples.flat !! "BTCUSDT" = Some prices
    ∧ (length prices <= 200)%nat.
Proof.
  eexists. split; [vm_compute; reflexivity|].
  eapply (histories_bounded_and_in_step Samples.flat "BTCUSDT").
  - apply flat_reachable.
  - vm_compute. reflexivity.
Defined.

Lemma price_history_is_sliding_window_witness :
  pricesOf (runUpdates Samples.flat [Samples.tickerUpdate "BTCUSDT" 101])
    "BTCUSDT"
  = lastN 200 (pricesOf Samples.flat "BTCUSDT"
               ++ tickerPrices "BTCUSDT" [Samples.tickerUpdate "BTCUSDT" 101]).
Proof.
  apply (price_history_is_sliding_window Samples.flat
           [Samples.tickerUpdate "BTCUSDT" 101] "BTCUSDT").
  apply flat_reachable.
Defined.

Lemma cleanupOldSymbols_keeps_active_witness :
  extractFeatures (cleanupOldSymbols Samples.flat ["ETHUSDT"]) "BTCUSDT" 0
  = Some None.
Proof.
  apply (cleanupOldSymbols_keeps_active Samples.flat ["ETHUSDT"] "BTCUSDT" 0).
  - apply flat_reachable.
  - vm_compute. intros Hin. inversion Hin as [|? ? ? Hnil]; inversion Hnil.
Defined.

(** The flat feed has features. *)
Example flat_has_features :
  exists featureSet,
    extractFeatures Samples.flat "BTCUSDT" 0 = Some (Some featureSet).
Proof. vm_compute. eexists. reflexivity. Qed.

Lemma supported_symbols_have_features_witness :
  "BTCUSDT" ∈ getSupportedSymbols Samples.flat.
Proof.
  apply (supported_symbols_have_features Samples.flat "BTCUSDT" 0).
  - apply flat_reachable.
  - apply flat_has_features.
Defined.
End FeatureWindowsSamples.

(** ** The feature engine: the ranges of the features *)

Section FeatureRanges.
Import FeatureEngine.
Local Open Scope Q_scope.

Implicit Types (fe : FeatureEngine.t) (symbol : string).

Lemma Math_sqrt_nonneg (x : Q) : 0 <= Math_sqrt x.
Proof.
  unfold Math_sqrt. destruct (Qle_bool x 0); [lra|].
  rewrite Qred_correct. unfold Qle. simpl.
  rewrite Z.mul_1_r. apply Z.sqrt_nonneg.
Qed.

Lemma standardDeviation_nonneg (values : list Q) :
  0 <= standardDeviation values.
Proof.
  unfold standardDeviation. destruct values; [lra|].
  apply Math_sqrt_nonneg.
Qed.

Lemma vpinLoop_nonneg prices : forall prev volumes buyVolume sellVolume,
  Forall (Qle 0) volumes -> 0 <= buyVolume -> 0 <= sellVolume ->
  0 <= (vpinLoop prev prices volumes buyVolume sellVolume).1
  ∧ 0 <= (vpinLoop prev prices volumes buyVolume sellVolume).2.
Proof.
  induction prices as [|p prices IH];
    intros prev volumes buyVolume sellVolume Hvol Hb Hs; [done|].
  destruct volumes as [|v volumes]; [done|].
  apply Forall_cons in Hvol as [Hv Hvol]. simpl.
  destruct (_ >? _)%js; apply IH; try done; lra.
Qed.

Lemma calculateVPIN_range fe symbol vpin :
  (forall volumes, volumeHistory fe !! symbol = Some volumes ->
     Forall (Qle 0) volumes) ->
  calculateVPIN fe symbol = Some vpin ->
  0 <= vpin <= 1.
Proof.
  intros Hvol. unfold calculateVPIN.
  destruct (volumeHistory fe !! symbol) as [volumes|] eqn:Hv; [|done].
  destruct (priceHistory fe !! symbol) as [prices|]; [|done].
  specialize (Hvol volumes eq_refl).
  destruct (_ || _); [intros [= <-]; lra|].
  assert (Hloop : exists b s,
            match prices, volumes with
            | p0 :: prices', _ :: volumes' => vpinLoop p0 prices' volumes' 0 0
            | _, _ => (0, 0)
            end = (b, s) ∧ 0 <= b ∧ 0 <= s).
  { destruct prices as [|p0 prices']; [exists 0, 0; repeat split; lra|].
    destruct volumes as [|v0 volumes']; [exists 0, 0; repeat split; lra|].
    apply Forall_cons in Hvol as [_ Hvol].
    destruct (vpinLoop_nonneg prices' p0 volumes' 0 0 Hvol) as [Hb Hs];
      [lra..|].
    destruct (vpinLoop p0 prices' volumes' 0 0) as [b s]. eauto. }
  destruct Hloop as (buyVolume & sellVolume & -> & Hb & Hs).
  destruct (_ >? _)%js eqn:Htotal; [|intros [= <-]; lra].
  apply gtb_gt in Htotal.
  pose proof (Qabs_nonneg (buyVolume - sellVolume)) as Hlow.
  assert (Hhigh : Qabs (buyVolume - sellVolume) <= buyVolume + sellVolume)
    by (apply Qabs_case; intros; lra).
  change (Math_abs (buyVolume - sellVolume))
    with (Qabs (buyVolume - sellVolume)).
  revert Hlow Hhigh. generalize (Qabs (buyVolume - sellVolume)).
  intros gap Hlow Hhigh [= <-]. split.
  - apply Qle_shift_div_l; [done|]. lra.
  - apply Qle_shift_div_r; [done|]. lra.
Qed.

(** X29. The ranges of the features. When [extractFeatures] returns a
    feature set for a symbol whose recorded volumes are not negative, its
    VPIN lies in [0, 1], its volatility and its VVIX are not negative, it
    carries the time of the call, for BTCUSDT itself the correlation is 0,
    and, when the recorded prices do not sum to zero (so that the mean by
    which the deviation is divided is not zero), its mean reversion is at
    most 1. *)
Theorem extracted_features_ranges fe symbol now featureSet :
  (forall volumes, volumeHistory fe !! symbol = Some volumes ->
     Forall (Qle 0) volumes) ->
  extractFeatures fe symbol now = Some (Some featureSet) ->
  0 <= FeatureSet.vpin featureSet <= 1
  ∧ 0 <= FeatureSet.volatility featureSet
  ∧ 0 <= FeatureSet.vvix featureSet
  ∧ (forall prices,
       priceHistory fe !! symbol = Some prices ->
       ~ JS.sum prices == 0 ->
       FeatureSet.meanReversion featureSet <= 1)
  ∧ FeatureSet.timestamp featureSet = now
  ∧ (symbol = "BTCUSDT" -> FeatureSet.correlation featureSet = 0).
Proof.
  intros Hvol. unfold extractFeatures.
  destruct (priceHistory fe !! symbol) as [prices|] eqn:Hp; [|done].
  destruct (_ <? _)%nat; [done|].
  destruct (calculateOFI fe symbol) as [ofi|]; [|done]. simpl.
  destruct (calculateVPIN fe symbol) as [vpin|] eqn:Hvpin; [|done]. simpl.
  intros [= <-]. simpl.
  split; [apply (calculateVPIN_range fe symbol vpin Hvol Hvpin)|].
  split.
  { unfold calculateVolatility. rewrite Hp.
    destruct (_ <? _)%nat; [lra|apply standardDeviation_nonneg]. }
  split.
  { unfold calculateVVIX. rewrite Hp.
    destruct (_ <? _)%nat; [lra|].
    destruct (_ <? _)%nat; [apply standardDeviation_nonneg|lra]. }
  split; [intros prices' _ _; apply calculateMeanReversion_le_1|].
  split; [done|].
  intros ->. unfold calculateCorrelation. rewrite decide_True; done.
Qed.
End FeatureRanges.

Section FeatureRangesSamples.
Import FeatureEngine.
Local Open Scope Q_scope.

Lemma extracted_features_ranges_witness :
  exists featureSet,
    extractFeatures Samples.flat "BTCUSDT" 0 = Some (Some featureSet)
    ∧ 0 <= FeatureSet.vpin featureSet <= 1
    ∧ FeatureSet.meanReversion featureSet <= 1.
Proof.
  destruct flat_has_features as [featureSet Hfs].
  exists featureSet. split; [exact Hfs|].
  destruct (extracted_features_ranges Samples.flat "BTCUSDT" 0 featureSet)
    as (Hvpin & _ & _ & Hmr & _).
  - intros volumes Hv. vm_compute in Hv. injection Hv as <-.
    repeat constructor; discriminate.
  - exact Hfs.
  - split; [exact Hvpin|].
    apply (Hmr (replicate 10 100)).
    + vm_compute. reflexivity.
    + vm_compute. discriminate.
Defined.
End FeatureRangesSamples.

(** ** The feature engine: a flat market *)

Section FlatMarket.
Import FeatureEngine.
Local Open Scope Q_scope.

Implicit Types (fe : FeatureEngine.t) (symbol : string).

Lemma lastN_replicate {A} (k n : nat) (x : A) :
  (k <= n)%nat -> lastN k (replicate n x) = replicate k x.
Proof.
  intros Hle. unfold lastN. rewrite length_replicate, drop_replicate.
  f_equal. lia.
Qed.

Lemma calculateReturns_cons (prev cur : Q) (rest : list Q) :
  calculateReturns (prev :: cur :: rest)
  = if (prev >? 0)%js
    then (cur - prev) / prev :: calculateReturns (cur :: rest)
    else calculateReturns (cur :: rest).
Proof. reflexivity. Qed.

Lemma calculateReturns_replicate (n : nat) (p : Q) :
  0 < p ->
  calculateReturns (replicate n p) = replicate (n - 1) ((p - p) / p).
Proof.
  intros Hp. apply gtb_gt in Hp.
  induction n as [|[|n] IH]; [done..|].
  change (replicate (S (S n)) p) with (p :: p :: replicate n p).
  rewrite calculateReturns_cons, Hp.
  change (p :: replicate n p) with (replicate (S n) p). rewrite IH.
  simpl. rewrite Nat.sub_0_r. done.
Qed.

Lemma fold_sum_zero (values : list Q) : forall acc,
  Forall (fun v => v == 0) values -> fold_left Qplus values acc == acc.
Proof.
  induction values as [|v values IH]; intros acc Hzero; [reflexivity|].
  apply Forall_cons in Hzero as [Hv Hzero]. simpl.
  rewrite IH by done. lra.
Qed.

Lemma fold_squares_zero (values : list Q) (mean : Q) : forall acc,
  mean == 0 -> Forall (fun v => v == 0) values ->
  fold_left (fun acc val => acc + (val - mean) * (val - mean)) values acc
  == acc.
Proof.
  induction values as [|v values IH]; intros acc Hmean Hzero; [reflexivity|].
  apply Forall_cons in Hzero as [Hv Hzero]. simpl.
  rewrite IH by done. rewrite Hv, Hmean. ring.
Qed.

Lemma standardDeviation_zero (values : list Q) :
  Forall (fun v => v == 0) values -> standardDeviation values = 0.
Proof.
  intros Hzero. unfold standardDeviation.
  destruct values as [|v values]; [done|].
  set (n := ofNat (length (v :: values))).
  assert (Hmean : JS.sum (v :: values) / n == 0).
  { unfold JS.sum. rewrite fold_sum_zero by done. unfold Qdiv. ring. }
  assert (Hvar :
    fold_left (fun acc val =>
                 acc + (val - JS.sum (v :: values) / n)
                       * (val - JS.sum (v :: values) / n))
      (v :: values) 0 / n == 0).
  { rewrite fold_squares_zero by done. unfold Qdiv. ring. }
  unfold Math_sqrt.
  rewrite (proj2 (Qle_bool_iff _ 0)); [done|]. rewrite Hvar. lra.
Qed.

Lemma trendSums_replicate (k : nat) (p : Q) : forall i sumX sumY sumXY sumXX,
  exists sumX' sumXX',
    trendSums i (replicate k p) (sumX, sumY, sumXY, sumXX)
    = (sumX', (trendSums i (replicate k p) (sumX, sumY, sumXY, sumXX)).1.1.2,
       (trendSums i (replicate k p) (sumX, sumY, sumXY, sumXX)).1.2, sumXX')
    ∧ (trendSums i (replicate k p) (sumX, sumY, sumXY, sumXX)).1.1.2
      == sumY + ofNat k * p
    ∧ (trendSums i (replicate k p) (sumX, sumY, sumXY, sumXX)).1.2
      == sumXY + p * (sumX' - sumX).
Proof.
  induction k as [|k IH]; intros i sumX sumY sumXY sumXX.
  - exists sumX, sumXX. simpl. split; [done|].
    unfold ofNat. simpl. split; ring.
  - cbn [replicate trendSums].
    destruct (IH (S i) (sumX + ofNat i) (sumY + p) (sumXY + ofNat i * p)
                (sumXX + ofNat i * ofNat i)) as (sx & sxx & Heq & Hy & Hxy).
    exists sx, sxx. split; [exact Heq|].
    rewrite Hy, Hxy, ofNat_S. split; ring.
Qed.

Lemma sum_pair (a b : Q) : JS.sum [a; b] == a + b.
Proof. unfold JS.sum. simpl. ring. Qed.

Lemma sum_replicate (n : nat) (p : Q) : JS.sum (replicate n p) == ofNat n * p.
Proof.
  unfold JS.sum.
  assert (H : forall acc, fold_left Qplus (replicate n p) acc
                          == acc + ofNat n * p).
  { induction n as [|n IH]; intros acc.
    - unfold ofNat. simpl. ring.
    - cbn [replicate fold_left]. rewrite IH, ofNat_S. ring. }
  rewrite H. ring.
Qed.

Lemma ofNat_pos (n : nat) : (0 < n)%nat -> 0 < ofNat n.
Proof.
  intros Hn. unfold ofNat. change 0 with (inject_Z 0).
  rewrite <- Zlt_Qlt. lia.
Qed.

Lemma flat_volatility fe symbol n p :
  priceHistory fe !! symbol = Some (replicate n p) -> 0 < p ->
  calculateVolatility fe symbol = 0.
Proof.
  intros Hp Hpos. unfold calculateVolatility. rewrite Hp.
  destruct (_ <? _)%nat; [done|].
  rewrite calculateReturns_replicate by done.
  apply standardDeviation_zero, Forall_replicate.
  unfold Qdiv. ring.
Qed.

Lemma flat_trend fe symbol n p :
  priceHistory fe !! symbol = Some (replicate n p) -> 0 < p ->
  calculateTrend fe symbol == 0.
Proof.
  intros Hp Hpos. unfold calculateTrend. rewrite Hp.
  destruct (_ <? _)%nat eqn:Hlen; [reflexivity|].
  apply Nat.ltb_ge in Hlen. rewrite length_replicate in *.
  rewrite lastN_replicate by lia.
  set (k := Nat.min n 20).
  destruct (trendSums_replicate k p 0 0 0 0 0)
    as (sumX & sumXX & Heq & Hy & Hxy).
  rewrite Heq. clear Heq.
  set (sumY := (trendSums 0 (replicate k p) (0, 0, 0, 0)).1.1.2) in *.
  set (sumXY := (trendSums 0 (replicate k p) (0, 0, 0, 0)).1.2) in *.
  destruct (_ >? _)%js; [|reflexivity].
  rewrite Hy, Hxy. unfold Qdiv. ring.
Qed.

Lemma flat_momentum fe symbol n p :
  priceHistory fe !! symbol = Some (replicate n p) ->
  calculateMomentum fe symbol == 0.
Proof.
  intros Hp. unfold calculateMomentum. rewrite Hp.
  destruct (_ <? _)%nat eqn:Hlen; [reflexivity|].
  apply Nat.ltb_ge in Hlen. rewrite length_replicate in Hlen.
  rewrite !lastN_replicate by lia. simpl.
  destruct (_ >? _)%js; [|reflexivity].
  unfold Qdiv. ring.
Qed.

Lemma flat_meanReversion fe symbol n p :
  priceHistory fe !! symbol = Some (replicate n p) -> 0 < p ->
  calculateMeanReversion fe symbol == 0.
Proof.
  intros Hp Hpos. unfold calculateMeanReversion. rewrite Hp.
  destruct (_ <? _)%nat eqn:Hlen; [reflexivity|].
  apply Nat.ltb_ge in Hlen. rewrite length_replicate in *.
  assert (Hn : 0 < ofNat n) by (apply ofNat_pos; lia).
  assert (Hlast : default 0 (last (replicate n p)) = p).
  { destruct n as [|n]; [lia|].
    rewrite replicate_S_end, last_snoc. done. }
  rewrite Hlast.
  assert (Hmean : JS.sum (replicate n p) / ofNat n == p).
  { rewrite sum_replicate. field. lra. }
  unfold Math_min, Math_abs. rewrite Hmean.
  assert (Hdev : Qabs (p - p) / p * 2 == 0).
  { assert (Hz : p - p == 0) by ring. rewrite Hz.
    change (Qabs 0) with 0. unfold Qdiv. ring. }
  rewrite Hdev. apply Q.min_l. lra.
Qed.

(** X30. A flat market is stable. When the history of a symbol holds at
    least ten samples, all of one positive price, [detectRegime] returns
    the regime [stable] with confidence 0.5, on features of volatility 0
    and of zero trend, momentum and mean reversion. *)
Theorem flat_market_is_stable fe symbol now n p :
  featureReachable fe ->
  priceHistory fe !! symbol = Some (replicate n p) ->
  (10 <= n)%nat ->
  0 < p ->
  exists featureSet,
    detectRegime fe symbol now
    = Some (Some {| MarketRegime.type := stable;
                    MarketRegime.confidence := 0.5;
                    MarketRegime.features := featureSet |})
    ∧ FeatureSet.volatility featureSet = 0
    ∧ FeatureSet.trend featureSet == 0
    ∧ FeatureSet.momentum featureSet == 0
    ∧ FeatureSet.meanReversion featureSet == 0.
Proof.
  intros Hr Hp Hn Hpos.
  destruct (extractFeatures_enough fe symbol now
              (featureReachable_aligned fe Hr)) as (ofi & vpin & _ & _ & Hfs).
  { unfold priceSamples. rewrite Hp. simpl. rewrite length_replicate. done. }
  pose proof (flat_volatility fe symbol n p Hp Hpos) as Hvol.
  pose proof (flat_trend fe symbol n p Hp Hpos) as Htrend.
  pose proof (flat_momentum fe symbol n p Hp) as Hmom.
  pose proof (flat_meanReversion fe symbol n p Hp Hpos) as Hmr.
  eexists. unfold detectRegime. rewrite Hfs. split.
  - unfold classify. cbn [FeatureSet.volatility FeatureSet.trend
                            FeatureSet.meanReversion].
    rewrite Hvol.
    rewrite (proj2 (gtb_le 0 0.7)) by lra.
    rewrite (proj2 (gtb_le (Math_abs (calculateTrend fe symbol)) 0.6)).
    2:{ unfold Math_abs. rewrite Htrend. change (Qabs 0) with 0. lra. }
    rewrite (proj2 (gtb_le (calculateMeanReversion fe symbol) 0.6)) by lra.
    reflexivity.
  - simpl. done.
Qed.
End FlatMarket.

Section FlatMarketSamples.
Import FeatureEngine.
Local Open Scope Q_scope.

Lemma flat_market_is_stable_witness :
  exists featureSet,
    detectRegime Samples.flat "BTCUSDT" 0
    = Some (Some {| MarketRegime.type := stable;
                    MarketRegime.confidence := 0.5;
                    MarketRegime.features := featureSet |}).
Proof.
  destruct (flat_market_is_stable Samples.flat "BTCUSDT" 0 10 100)
    as (featureSet & Hregime & _).
  - apply flat_reachable.
  - vm_compute. reflexivity.
  - lia.
  - vm_compute. reflexivity.
  - exists featureSet. exact Hregime.
Defined.
End FlatMarketSamples.
